(** * codetype: the typing-session engine ([codetype/base.py]) and its helpers
      ([codetype/utils.py])

    A shallow embedding of [TypedText] (the engine behind the terminal typing
    trainer) together with the properties of its index mapper, keystroke state
    machine, layout and statistics, and of the text cleaning and the download
    cache that feed it.

    Conventions.
    - Python [int] is [Z]; a Python [str] used as a character sequence is a
      [list ascii] (code points below 256); key names are [string]s.
    - A Python object is a record; an attribute that [__init__] does not
      assign is [None] until a method assigns it, and reading it raises
      [AttributeError].
    - Methods live in a state-and-exception monad [M]: a run ends with
      [Ok a st] (normal return) or [Raise e st] (exception [e] propagating,
      the object left in state [st]).
    - [datetime.now()] is an argument ([now]) of the method that reads it,
      a timestamp is a [Z] (microseconds), a [timedelta] is their difference.
    - The collaborators outside the repository (rich's highlighting, wrapping
      and style algebra, the colour library) are the methods of the class
      [Collaborators]; pygments' token stream, the network and the cache
      folder are arguments of the helpers that use them. *)

From Stdlib Require Import ZArith List Ascii String Lia QArith DecimalString.
From stdpp Require Import base option list gmap strings sorting.

Local Open Scope Z_scope.
Local Open Scope list_scope.

(** ** Python sequence primitives *)

Module Py.

Definition len {A} (l : list A) : Z := Z.of_nat (length l).

(** [l[i]]: a negative index counts from the end; [None] is [IndexError]. *)
Definition get {A} (l : list A) (i : Z) : option A :=
  let j := if i <? 0 then i + len l else i in
  if j <? 0 then None else l !! Z.to_nat j.

(** [l[i] = x] on an index known to be valid for [get]. *)
Definition set {A} (l : list A) (i : Z) (x : A) : list A :=
  let j := if i <? 0 then i + len l else i in
  if j <? 0 then l else <[Z.to_nat j := x]> l.

(** Slice bounds are clamped into [0, len]. *)
Definition clamp {A} (l : list A) (i : Z) : Z :=
  if i <? 0 then Z.max 0 (i + len l) else Z.min i (len l).

(** [l[i:]] *)
Definition slice_from {A} (l : list A) (i : Z) : list A :=
  drop (Z.to_nat (clamp l i)) l.

(** [l[lo:hi]] *)
Definition slice {A} (l : list A) (lo hi : Z) : list A :=
  take (Z.to_nat (clamp l hi) - Z.to_nat (clamp l lo)) (drop (Z.to_nat (clamp l lo)) l).

(** [c.isspace()] for a one-character string: the code points below 256
    that Unicode classes as whitespace. *)
Definition isspace_char (c : ascii) : bool :=
  let n := N_of_ascii c in
  ((9 <=? n) && (n <=? 13) || (28 <=? n) && (n <=? 32) || (n =? 133) || (n =? 160))%N.

(** [s.isspace()]: every character is whitespace and there is at least one. *)
Definition isspace (s : list ascii) : bool :=
  match s with
  | [] => false
  | _ => forallb isspace_char s
  end.

(** [sum(1 for _ in itertools.takewhile(str.isspace, s))] *)
Fixpoint takewhile_isspace_count (s : list ascii) : Z :=
  match s with
  | c :: s' => if isspace_char c then 1 + takewhile_isspace_count s' else 0
  | [] => 0
  end.

(** [s.rstrip()] *)
Fixpoint rstrip (s : list ascii) : list ascii :=
  match s with
  | [] => []
  | c :: s' =>
      match rstrip s' with
      | [] => if isspace_char c then [] else [c]
      | r => c :: r
      end
  end.

(** [str(n)] for [n >= 0]. *)
Definition str_of_int (n : Z) : list ascii :=
  list_ascii_of_string (NilZero.string_of_uint (N.to_uint (Z.to_N n))).

(** [s.rjust(w)] *)
Definition rjust (s : list ascii) (w : Z) : list ascii :=
  replicate (Z.to_nat (w - len s)) " "%char ++ s.

(** [bisect.bisect_right(a, x)]: the loop of the standard library,
    [while lo < hi: mid = (lo + hi) // 2; if x < a[mid]: hi = mid
     else: lo = mid + 1].  The interval halves at every turn, so
    [length a] turns are enough (lemma [bisect_loop_spec]). *)
Fixpoint bisect_loop (fuel : nat) (a : list Z) (x : Z) (lo hi : nat) : nat :=
  match fuel with
  | O => lo
  | S fuel' =>
      if (lo <? hi)%nat then
        let mid := ((lo + hi) / 2)%nat in
        match a !! mid with
        | Some y => if x <? y then bisect_loop fuel' a x lo mid
                    else bisect_loop fuel' a x (S mid) hi
        | None => lo
        end
      else lo
  end.

Definition bisect (a : list Z) (x : Z) : Z :=
  Z.of_nat (bisect_loop (length a) a x 0 (length a)).

(** [bisect.insort(a, x)] is [a.insert(bisect_right(a, x), x)]. *)
Definition insort (a : list Z) (x : Z) : list Z :=
  let i := Z.to_nat (bisect a x) in
  take i a ++ x :: drop i a.

End Py.

(** ** rich's [Text]: a plain string, a base style and a list of style spans

    Only the operations the engine calls are modelled, after the library's
    code: [append] of a string or of another [Text], and [stylize]. *)

Record Span (Style : Type) := mkSpan {
  span_start : Z;
  span_end : Z;
  span_style : Style
}.
Arguments mkSpan {Style} _ _ _.
Arguments span_start {Style} _.
Arguments span_end {Style} _.
Arguments span_style {Style} _.

Record Text (Style : Type) := mkText {
  plain : list ascii;
  base_style : option Style;
  spans : list (Span Style)
}.
Arguments mkText {Style} _ _ _.
Arguments plain {Style} _.
Arguments base_style {Style} _.
Arguments spans {Style} _.

Module Rich.
Section WithStyle.
Context {Style : Type}.
(** [bool(style)]: a null style is falsy. *)
Variable style_truthy : Style → bool.

(** [Text()] *)
Definition empty : Text Style := mkText [] None [].

(** [Text(s, style=sty)] *)
Definition styled (s : list ascii) (sty : Style) : Text Style :=
  mkText s (Some sty) [].

(** [t.append(s)] for a string without control codes and no style. *)
Definition append_str (t : Text Style) (s : list ascii) : Text Style :=
  mkText (plain t ++ s) (base_style t) (spans t).

Definition shift_span (d : Z) (sp : Span Style) : Span Style :=
  mkSpan (span_start sp + d) (span_end sp + d) (span_style sp).

(** [t.append(u)] for a [Text] [u]: the base style of [u], when it has
    one, becomes a span over the appended range, followed by the spans of
    [u] moved by the old length. *)
Definition append_text (t u : Text Style) : Text Style :=
  let n := Py.len (plain t) in
  let own :=
    match base_style u with
    | Some sty => if style_truthy sty then [mkSpan n (n + Py.len (plain u)) sty] else []
    | None => []
    end in
  mkText (plain t ++ plain u) (base_style t)
         (spans t ++ own ++ map (shift_span n) (spans u)).

(** [t.stylize(style, start, end)] *)
Definition stylize (t : Text Style) (sty : Style) (start stop : Z) : Text Style :=
  if style_truthy sty then
    let length := Py.len (plain t) in
    let start := if start <? 0 then length + start else start in
    let stop := if stop <? 0 then length + stop else stop in
    if (length <=? start) || (stop <=? start) then t
    else mkText (plain t) (base_style t)
                (spans t ++ [mkSpan start (Z.min length stop) sty])
  else t.

End WithStyle.
End Rich.

(** ** The engine's data *)

Inductive Status := STATUS_BACKSPACE | STATUS_CORRECT | STATUS_WRONG.

Global Instance Status_eq_dec : EqDecision Status.
Proof. solve_decision. Defined.

Record Action := mkAction {
  pressed_key : string;
  status : Status;
  ts : Z
}.

Inductive exn :=
| IndexError | KeyError | AttributeError | ZeroDivisionError
| StyleError (* raised inside the style computation of a typed character *).

Global Instance exn_eq_dec : EqDecision exn.
Proof. solve_decision. Defined.

Record TypedText (Style : Type) := mkTypedText {
  (* assigned by __init__ *)
  start_ts : option Z;
  end_ts : option Z;
  lines : list (list ascii);
  lines_start_idxs : list Z;
  text : list ascii;
  gutter_col_width : Z;
  (* assigned by update_dimensions *)
  width : option Z;
  height : option Z;
  curr_idx : option Z;
  actions : option (list (list Action));
  back_idxs : option (gmap Z Z);
  (* assigned by create_rich_lines *)
  rich_lines_start_idxs : option (list Z);
  orig_rich_lines : option (list (Text Style));
  rich_lines : option (list (Text Style))
}.
Arguments mkTypedText {Style}.
Arguments start_ts {Style} _.
Arguments end_ts {Style} _.
Arguments lines {Style} _.
Arguments lines_start_idxs {Style} _.
Arguments text {Style} _.
Arguments gutter_col_width {Style} _.
Arguments width {Style} _.
Arguments height {Style} _.
Arguments curr_idx {Style} _.
Arguments actions {Style} _.
Arguments back_idxs {Style} _.
Arguments rich_lines_start_idxs {Style} _.
Arguments orig_rich_lines {Style} _.
Arguments rich_lines {Style} _.

(** Attribute assignment, one function per attribute that is ever
    reassigned. *)
Section Setters.
Context {Style : Type}.
Implicit Types st : TypedText Style.

Definition set_start_ts (v : Z) st :=
  mkTypedText (Some v) (end_ts st) (lines st) (lines_start_idxs st) (text st)
    (gutter_col_width st) (width st) (height st) (curr_idx st) (actions st)
    (back_idxs st) (rich_lines_start_idxs st) (orig_rich_lines st) (rich_lines st).
Definition set_end_ts (v : Z) st :=
  mkTypedText (start_ts st) (Some v) (lines st) (lines_start_idxs st) (text st)
    (gutter_col_width st) (width st) (height st) (curr_idx st) (actions st)
    (back_idxs st) (rich_lines_start_idxs st) (orig_rich_lines st) (rich_lines st).
Definition set_width (v : Z) st :=
  mkTypedText (start_ts st) (end_ts st) (lines st) (lines_start_idxs st) (text st)
    (gutter_col_width st) (Some v) (height st) (curr_idx st) (actions st)
    (back_idxs st) (rich_lines_start_idxs st) (orig_rich_lines st) (rich_lines st).
Definition set_height (v : Z) st :=
  mkTypedText (start_ts st) (end_ts st) (lines st) (lines_start_idxs st) (text st)
    (gutter_col_width st) (width st) (Some v) (curr_idx st) (actions st)
    (back_idxs st) (rich_lines_start_idxs st) (orig_rich_lines st) (rich_lines st).
Definition set_curr_idx (v : Z) st :=
  mkTypedText (start_ts st) (end_ts st) (lines st) (lines_start_idxs st) (text st)
    (gutter_col_width st) (width st) (height st) (Some v) (actions st)
    (back_idxs st) (rich_lines_start_idxs st) (orig_rich_lines st) (rich_lines st).
Definition set_actions (v : list (list Action)) st :=
  mkTypedText (start_ts st) (end_ts st) (lines st) (lines_start_idxs st) (text st)
    (gutter_col_width st) (width st) (height st) (curr_idx st) (Some v)
    (back_idxs st) (rich_lines_start_idxs st) (orig_rich_lines st) (rich_lines st).
Definition set_back_idxs (v : gmap Z Z) st :=
  mkTypedText (start_ts st) (end_ts st) (lines st) (lines_start_idxs st) (text st)
    (gutter_col_width st) (width st) (height st) (curr_idx st) (actions st)
    (Some v) (rich_lines_start_idxs st) (orig_rich_lines st) (rich_lines st).
Definition set_rich_lines_start_idxs (v : list Z) st :=
  mkTypedText (start_ts st) (end_ts st) (lines st) (lines_start_idxs st) (text st)
    (gutter_col_width st) (width st) (height st) (curr_idx st) (actions st)
    (back_idxs st) (Some v) (orig_rich_lines st) (rich_lines st).
Definition set_orig_rich_lines (v : list (Text Style)) st :=
  mkTypedText (start_ts st) (end_ts st) (lines st) (lines_start_idxs st) (text st)
    (gutter_col_width st) (width st) (height st) (curr_idx st) (actions st)
    (back_idxs st) (rich_lines_start_idxs st) (Some v) (rich_lines st).
Definition set_rich_lines (v : list (Text Style)) st :=
  mkTypedText (start_ts st) (end_ts st) (lines st) (lines_start_idxs st) (text st)
    (gutter_col_width st) (width st) (height st) (curr_idx st) (actions st)
    (back_idxs st) (rich_lines_start_idxs st) (orig_rich_lines st) (Some v).
End Setters.

(** ** The method monad *)

Inductive outcome (S A : Type) :=
| Ok (a : A) (st : S)
| Raise (e : exn) (st : S).
Arguments Ok {S A} _ _.
Arguments Raise {S A} _ _.

Definition state_of {S A} (r : outcome S A) : S :=
  match r with Ok _ st => st | Raise _ st => st end.

Definition M (S A : Type) : Type := S → outcome S A.

Definition ret {S A} (a : A) : M S A := λ st, Ok a st.

Definition bind {S A B} (m : M S A) (k : A → M S B) : M S B :=
  λ st, match m st with
        | Ok a st' => k a st'
        | Raise e st' => Raise e st'
        end.

Definition raise {S A} (e : exn) : M S A := λ st, Raise e st.

(** [self.f]: reading an attribute that was never assigned raises. *)
Definition attr {S A} (f : S → option A) : M S A :=
  λ st, match f st with
        | Some a => Ok a st
        | None => Raise AttributeError st
        end.

(** [self.f = v] *)
Definition assign {S} (g : S → S) : M S unit := λ st, Ok tt (g st).

(** The value of an expression that raises [e] when it has none. *)
Definition orelse {S A} (o : option A) (e : exn) : M S A :=
  match o with
  | Some a => ret a
  | None => raise e
  end.

(** [try: m except e: h] *)
Definition try_except {S A} (m : M S A) (e : exn) (h : M S A) : M S A :=
  λ st, match m st with
        | Ok a st' => Ok a st'
        | Raise e' st' => if decide (e' = e) then h st' else Raise e' st'
        end.

Declare Scope py_scope.
Delimit Scope py_scope with py.
Notation "x ← y ; z" := (bind y (λ x, z))
  (at level 20, y at level 100, z at level 200, only parsing) : py_scope.
Notation "' x ← y ; z" := (bind y (λ x, z))
  (at level 20, x pattern, y at level 100, z at level 200, only parsing) : py_scope.
Notation "x ;; z" := (bind x (λ _, z))
  (at level 100, z at level 200, only parsing, right associativity) : py_scope.

(** ** The methods of [TypedText] *)

(** *** Collaborators outside the repository

    rich's style algebra, highlighting and wrapping, and the colour library,
    as the engine uses them. *)
Class Collaborators (Style : Type) := {
  (** [bool(style)] of rich's [Style]. *)
  style_truthy : Style → bool;
  (** The three fixed styles that [__init__] builds from the theme. *)
  gutter_style : Style;
  cursor_style : Style;
  wrong_style : Style;
  (** [line.get_style_at_offset(self.console, offset)] *)
  get_style_at_offset : Text Style → Z → Style;
  (** [sty + S.parse(change_color_luminance(sty.color.name, 0.15,
      lighten=False))], the darker variant used for a correctly typed
      character; [None] when the computation raises (a style without a
      colour, a colour name the colour library rejects). *)
  typed_style : Style → option Style;
  (** [Syntax(text, lexer, theme=...).highlight(text).split(newline)]: the
      highlighted text cut into logical lines. *)
  highlight_lines : list ascii → list (Text Style);
  (** [line.wrap(self.console, w)]: a highlighted line wrapped to width [w]. *)
  wrap : Text Style → Z → list (Text Style)
}.

Section Engine.
Context {Style : Type} `{!Collaborators Style}.

Abbreviation TT := (TypedText Style).
Abbreviation Meth := (M TT).
Implicit Types st : TT.

Local Open Scope py_scope.

Definition newline : ascii := ascii_of_nat 10.
Definition space : ascii := " "%char.

(** *** [__init__] *)

(** [for line in self.lines: self.lines_start_idxs.append(cum_len);
     cum_len += len(line) + 1] *)
Fixpoint start_idxs_from (cum_len : Z) (ls : list (list ascii)) : list Z :=
  match ls with
  | [] => []
  | line :: ls' => cum_len :: start_idxs_from (cum_len + Py.len line + 1) ls'
  end.

Definition init (ls : list (list ascii)) : TT :=
  {| start_ts := None;
     end_ts := None;
     lines := ls;
     lines_start_idxs := start_idxs_from 0 ls;
     text := concat (map (λ x, x ++ [newline]) ls);
     gutter_col_width := Py.len (Py.str_of_int (Py.len ls)) + 1;
     width := None; height := None; curr_idx := None; actions := None;
     back_idxs := None; rich_lines_start_idxs := None;
     orig_rich_lines := None; rich_lines := None |}.

(** [n_characters] *)
Definition n_characters st : Z := Py.len (text st).

(** *** [create_rich_lines]

    The assignment to [line_text] in the inner loop (source lines 143-145)
    feeds nothing but itself and is left out. *)

(** One turn of the inner loop, for wrapped line number [idx] of logical
    line [line_no]; the result is the new [cum_len]. *)
Definition wrapped_line_step (line_no idx cum_len : Z) (wrapped_line : Text Style)
  : Meth Z :=
  g ← (λ st, Ok (gutter_col_width st) st);
  last ← orelse (Py.get (plain wrapped_line) (-1)) IndexError;
  let wrapped_line :=
    if negb (Py.isspace_char last) then Rich.append_str wrapped_line [space]
    else wrapped_line in
  rich_line ←
    (if idx =? 0 then
       let line_column := Py.rjust (Py.str_of_int (line_no + 1)) g ++ [space] in
       ret (Rich.append_text style_truthy Rich.empty (Rich.styled line_column gutter_style))
     else
       let rich_line :=
         Rich.append_text style_truthy Rich.empty
           (Rich.styled (replicate (Z.to_nat (g + 1)) space) gutter_style) in
       starts ← attr rich_lines_start_idxs;
       lsi ← (λ st, orelse (Py.get (lines_start_idxs st) line_no) IndexError st);
       assign (set_rich_lines_start_idxs (Py.insort starts (lsi + cum_len)));;
       ret rich_line);
  let cum_len := cum_len + Py.len (Py.rstrip (plain wrapped_line)) + 1 in
  let rich_line := Rich.append_text style_truthy rich_line wrapped_line in
  let rich_line := Rich.append_str rich_line [newline] in
  orig ← attr orig_rich_lines;
  assign (set_orig_rich_lines (orig ++ [rich_line]));;
  ret cum_len.

(** [for idx, wrapped_line in enumerate(line.wrap(...))] *)
Fixpoint wrapped_lines_loop (line_no idx cum_len : Z) (ws : list (Text Style))
  : Meth unit :=
  match ws with
  | [] => ret tt
  | w :: ws' =>
      cum_len' ← wrapped_line_step line_no idx cum_len w;
      wrapped_lines_loop line_no (idx + 1) cum_len' ws'
  end.

(** [for line_no, line in enumerate(rich_text.split("\n"))] *)
Fixpoint lines_loop (line_no : Z) (hl : list (Text Style)) : Meth unit :=
  match hl with
  | [] => ret tt
  | line :: hl' =>
      w ← attr width;
      g ← (λ st, Ok (gutter_col_width st) st);
      wrapped_lines_loop line_no 0 0 (wrap line (w - (g + 1)));;
      lines_loop (line_no + 1) hl'
  end.

Definition create_rich_lines : Meth unit :=
  rich_text ← (λ st, Ok (highlight_lines (text st)) st);
  assign (λ st, set_rich_lines_start_idxs (lines_start_idxs st) st);;
  assign (set_orig_rich_lines []);;
  lines_loop 0 rich_text;;
  orig ← attr orig_rich_lines;
  assign (set_rich_lines orig).

(** *** [update_dimensions] *)

Definition update_dimensions (w h : Z) : Meth unit :=
  assign (set_width w);;
  assign (set_height h);;
  assign (set_curr_idx 0);;
  assign (λ st, set_actions (replicate (length (text st)) []) st);;
  assign (set_back_idxs ∅);;
  create_rich_lines.

(** *** [get_rich_line_no] *)

Definition get_rich_line_no (idx : Z) : Meth (Z * Z) :=
  starts ← attr rich_lines_start_idxs;
  let line_idx := Py.bisect starts idx - 1 in
  s ← orelse (Py.get starts line_idx) IndexError;
  ret (line_idx, idx - s).

(** *** Styling *)

(** [self.rich_lines[line_idx].stylize(sty, a, b)] *)
Definition stylize_rich_line (line_idx : Z) (sty : Style) (a b : Z) : Meth unit :=
  rl ← attr rich_lines;
  t ← orelse (Py.get rl line_idx) IndexError;
  assign (set_rich_lines (Py.set rl line_idx (Rich.stylize style_truthy t sty a b))).

(** [self.orig_rich_lines[line_idx]] *)
Definition orig_rich_line (line_idx : Z) : Meth (Text Style) :=
  orig ← attr orig_rich_lines;
  orelse (Py.get orig line_idx) IndexError.

Definition style_cursor_location : Meth unit :=
  cur ← attr curr_idx;
  '(line_idx, idx) ← get_rich_line_no cur;
  g ← (λ st, Ok (gutter_col_width st) st);
  stylize_rich_line line_idx cursor_style (g + idx + 1) (g + idx + 2).

Definition style_for_backspace_at (idx : Z) : Meth unit :=
  '(line_idx, idx2) ← get_rich_line_no idx;
  rich_line ← orig_rich_line line_idx;
  g ← (λ st, Ok (gutter_col_width st) st);
  let sty := get_style_at_offset rich_line (g + idx2 + 1) in
  stylize_rich_line line_idx sty (g + idx2 + 1) (g + idx2 + 2);;
  if idx =? 0 then ret tt
  else
    back ← attr back_idxs;
    p_idx ← orelse (back !! idx) KeyError;
    '(p_line_idx, p_idx2) ← get_rich_line_no p_idx;
    p_rich_line ← orig_rich_line p_line_idx;
    let p_sty := get_style_at_offset p_rich_line (g + p_idx + 1) in
    stylize_rich_line p_line_idx p_sty (g + p_idx2 + 1) (g + p_idx2 + 2).

Definition style_wrong_char_at (idx : Z) : Meth unit :=
  '(line_idx, idx2) ← get_rich_line_no idx;
  g ← (λ st, Ok (gutter_col_width st) st);
  let i := idx2 + g + 1 in
  stylize_rich_line line_idx wrong_style i (i + 1).

Definition style_correct_char_at (idx : Z) : Meth unit :=
  '(line_idx, idx2) ← get_rich_line_no idx;
  g ← (λ st, Ok (gutter_col_width st) st);
  let i := idx2 + g + 1 in
  rich_line ← orig_rich_line line_idx;
  let sty := get_style_at_offset rich_line i in
  c ← (λ st, orelse (Py.get (text st) idx) IndexError st);
  if Py.isspace_char c then stylize_rich_line line_idx sty i (i + 1)
  else
    sty' ← orelse (typed_style sty) StyleError;
    stylize_rich_line line_idx sty' i (i + 1).

(** *** The [rich_text] property: the frame for the visible window *)

Definition rich_text : Meth (Text Style) :=
  style_cursor_location;;
  orig ← attr orig_rich_lines;
  h ← attr height;
  '(sl, el) ←
    (if h <? Py.len orig then
       let n_lines_above := 5 in
       cur ← attr curr_idx;
       '(line_idx, _) ← get_rich_line_no cur;
       ret (Z.max 0 (line_idx - n_lines_above), line_idx + h - n_lines_above)
     else ret (0, Py.len orig));
  rl ← attr rich_lines;
  ret (foldl (Rich.append_text style_truthy) Rich.empty (Py.slice rl sl el)).

(** *** Statistics *)

(** [x and x[-1].status == status]: the last action of a character, when
    it has one, has this status. *)
Definition last_has_status (s : Status) (x : list Action) : bool :=
  match x with
  | [] => false
  | _ => match Py.get x (-1) with
         | Some a => bool_decide (status a = s)
         | None => false
         end
  end.

(** [len([x for x in self.actions if x and x[-1].status == status])] *)
Definition _n_characters_with_status (s : Status) : Meth Z :=
  acts ← attr actions;
  ret (Py.len (filter (λ x, last_has_status s x = true) acts)).

(** [sum(len(x) for x in self.actions)] *)
Definition n_actions : Meth Z :=
  acts ← attr actions;
  ret (foldr Z.add 0 (map Py.len acts)).

(** [sum(sum(1 for a in x if a.status == STATUS_BACKSPACE)
     for x in self.actions)] *)
Definition n_backspace_actions : Meth Z :=
  acts ← attr actions;
  ret (foldr Z.add 0
         (map (λ x, foldr Z.add 0
                      (map (λ _, 1) (filter (λ a, status a = STATUS_BACKSPACE) x)))
              acts)).

Definition n_backspace_characters : Meth Z := _n_characters_with_status STATUS_BACKSPACE.
Definition n_correct_characters : Meth Z := _n_characters_with_status STATUS_CORRECT.
Definition n_wrong_characters : Meth Z := _n_characters_with_status STATUS_WRONG.

(** [len([x for x in self.actions if not x])] *)
Definition n_untouched_characters : Meth Z :=
  acts ← attr actions;
  ret (Py.len (filter (λ x, x = []) acts)).

(** [a / b] on integers: true division, as the exact quotient (Python
    rounds it to the nearest double); a zero divisor raises. *)
Definition truediv (a b : Z) : Meth Q :=
  if b =? 0 then raise ZeroDivisionError
  else ret (inject_Z a / inject_Z b)%Q.

Definition compute_accuracy : Meth Q :=
  try_except
    (c ← n_correct_characters;
     n ← n_actions;
     b ← n_backspace_actions;
     truediv c (n - b))
    ZeroDivisionError
    (ret 0%Q).

(** [elapsed_seconds], as the [timedelta] between the two timestamps
    (its [total_seconds()] is the property's value). *)
Definition elapsed_seconds (now : Z) st : Z :=
  match start_ts st with
  | None => 0
  | Some s =>
      let e := match end_ts st with Some e => e | None => now end in
      e - s
  end.

(** [check_finished] *)
Definition check_finished : Meth bool :=
  cur ← attr curr_idx;
  n ← (λ st, Ok (n_characters st) st);
  ret (n <=? cur).

(** *** [type_character] *)

(** [self.actions[idx].append(a)] *)
Definition append_action (idx : Z) (a : Action) : Meth unit :=
  acts ← attr actions;
  x ← orelse (Py.get acts idx) IndexError;
  assign (set_actions (Py.set acts idx (x ++ [a]))).

(** [self.text[i]] *)
Definition text_at (i : Z) : Meth ascii :=
  λ st, orelse (Py.get (text st) i) IndexError st.

(** [ch == c] for a key name [ch] and a character [c] of the text. *)
Definition key_is_char (ch : string) (c : ascii) : bool :=
  bool_decide (ch = String c EmptyString).

Definition type_character (ch : string) (now : Z) : Meth unit :=
  idx ← attr curr_idx;
  n ← (λ st, Ok (Py.len (text st)) st);
  if negb ((0 <=? idx) && (idx <? n)) then raise IndexError
  else
    let ts := now in
    (λ st, match start_ts st with
           | None => Ok tt (set_start_ts ts st)
           | Some _ => Ok tt st
           end);;
    if bool_decide (ch = "backspace"%string) then
      append_action idx (mkAction ch STATUS_BACKSPACE ts);;
      style_for_backspace_at idx;;
      (if idx =? 0 then assign (set_curr_idx 0)
       else
         back ← attr back_idxs;
         p ← orelse (back !! idx) KeyError;
         assign (set_curr_idx p))
    else
      (if bool_decide (ch = "tab"%string) then
         c ← text_at idx;
         wrong ←
           (if negb (bool_decide (c = space)) then ret true
            else if negb (idx =? 0) then
                   p ← text_at (idx - 1);
                   ret (negb (bool_decide (p = newline)))
                 else ret false);
         (if wrong : bool then
            append_action idx (mkAction ch STATUS_WRONG ts);;
            style_wrong_char_at idx
          else
            append_action idx (mkAction ch STATUS_CORRECT ts);;
            style_correct_char_at idx);;
         new_index ←
           (λ st, Ok (idx + Py.takewhile_isspace_count (Py.slice_from (text st) idx)) st);
         n ← (λ st, Ok (n_characters st) st);
         assign (set_curr_idx (Z.min (n - 1) new_index));;
         back ← attr back_idxs;
         assign (set_back_idxs (<[new_index := idx]> back))
       else
         '(line_idx, i) ← get_rich_line_no idx;
         rich_line ← orig_rich_line line_idx;
         g ← (λ st, Ok (gutter_col_width st) st);
         let i := i + g + 1 in
         if bool_decide (ch = " "%string) && Py.isspace (Py.slice_from (plain rich_line) i)
         then
           append_action idx (mkAction ch STATUS_CORRECT ts);;
           cur ← attr curr_idx;
           style_correct_char_at cur;;
           starts ← attr rich_lines_start_idxs;
           match Py.get starts (line_idx + 1) with
           | None => raise ZeroDivisionError
           | Some s =>
               assign (set_curr_idx s);;
               cur ← attr curr_idx;
               back ← attr back_idxs;
               assign (set_back_idxs (<[cur := idx]> back))
           end
         else
           c ← text_at idx;
           (if key_is_char ch c then
              append_action idx (mkAction ch STATUS_CORRECT ts);;
              style_correct_char_at idx
            else
              append_action idx (mkAction ch STATUS_WRONG ts);;
              style_wrong_char_at idx);;
           n ← (λ st, Ok (n_characters st) st);
           assign (set_curr_idx (Z.min n (idx + 1)));;
           cur ← attr curr_idx;
           back ← attr back_idxs;
           assign (set_back_idxs (<[cur := idx]> back)));;
      fin ← check_finished;
      if fin : bool then
        assign (set_end_ts ts);;
        raise ZeroDivisionError
      else ret tt.

(** *** [process_character] *)

Definition canonical_key (key : string) : string :=
  if bool_decide (key = "ctrl+i"%string) then "tab"%string
  else if bool_decide (key = "ctrl+h"%string) then "backspace"%string
  else if bool_decide (key = "ctrl+j"%string) || bool_decide (key = "ctrl+m"%string)
          || bool_decide (key = "enter"%string)
       then String newline EmptyString
  else key.

Definition process_character (key : string) (now : Z) : Meth unit :=
  let key := canonical_key key in
  if negb (bool_decide (key = "tab"%string) || bool_decide (key = "backspace"%string))
     && (1 <? Z.of_nat (String.length key))
  then ret tt
  else type_character key now.

(** ** Sessions: what the shell does with the engine

    [TypingApp] builds the object, calls [update_dimensions] once when it is
    mounted and again at every resize, forwards every key to
    [process_character] (catching only the completion signal) and reads
    [rich_text] after each of them. An exception of [update_dimensions] is
    not caught and ends the application. *)

Inductive event :=
| Key (key : string) (now : Z)   (* on_key: process_character(key) at clock [now] *)
| Frame.                         (* a read of the rich_text property *)

Definition step (ev : event) (st : TT) : TT :=
  match ev with
  | Key key now => state_of (process_character key now st)
  | Frame => state_of (rich_text st)
  end.

Definition run (evs : list event) (st : TT) : TT := foldl (λ s ev, step ev s) st evs.

(** The states before and after each event of a run, in order. *)
Fixpoint trace (evs : list event) (st : TT) : list (TT * event * TT) :=
  match evs with
  | [] => []
  | ev :: evs' => (st, ev, step ev st) :: trace evs' (step ev st)
  end.

(** States the shell can bring a session over the lines [ls] into. *)
Inductive reachable (ls : list (list ascii)) : TT → Prop :=
| reach_mount w h st :
    update_dimensions w h (init ls) = Ok tt st → reachable ls st
| reach_resize w h st st' :
    reachable ls st → update_dimensions w h st = Ok tt st' → reachable ls st'
| reach_step ev st :
    reachable ls st → reachable ls (step ev st).

(** The first state of a layout epoch: the result of a rebuild. *)
Definition epoch_start (ls : list (list ascii)) (st0 : TT) : Prop :=
  ∃ w h st, (st = init ls ∨ reachable ls st) ∧ update_dimensions w h st = Ok tt st0.

(** The cursor went from a smaller offset to [o] in some event of the trace. *)
Definition moved_forward_to (o : Z) (tr : list (TT * event * TT)) : Prop :=
  ∃ a ev b p, (a, ev, b) ∈ tr ∧ curr_idx a = Some p ∧ curr_idx b = Some o ∧ p < o.

(** The offset a tab pressed at [cur] aims at: [cur] plus the length of the
    whitespace run that starts there. *)
Definition tab_target (st : TT) (cur : Z) : Z :=
  cur + Py.takewhile_isspace_count (Py.slice_from (text st) cur).

(** A tab keystroke in state [st] whose target is the cursor itself (the
    character under the cursor is not whitespace) or lies past the last
    character (the run reaches the end of the text). *)
Definition degenerate_tab (st : TT) (ev : event) : bool :=
  match ev, curr_idx st with
  | Key key _, Some cur =>
      bool_decide (canonical_key key = "tab"%string)
      && (0 <=? cur) && (cur <? n_characters st)
      && ((tab_target st cur =? cur) || (n_characters st - 1 <? tab_target st cur))
  | _, _ => false
  end.

(** [BackReference[o]]: the entry of [back_idxs] at offset [o], if any. *)
Definition back_reference (st : TT) (o : Z) : option Z :=
  back_idxs st ≫= (λ back, back !! o).

(** The buffers of the layout agree: one styled line and one original line
    per start offset, one action list per character, every attribute set. *)
Record consistent (st : TT) : Prop := {
  cons_width : is_Some (width st);
  cons_height : is_Some (height st);
  cons_curr_idx : is_Some (curr_idx st);
  cons_back_idxs : is_Some (back_idxs st);
  cons_actions : ∃ acts, actions st = Some acts ∧ length acts = length (text st);
  cons_layout : ∃ starts orig rl,
    rich_lines_start_idxs st = Some starts ∧ orig_rich_lines st = Some orig ∧
    rich_lines st = Some rl ∧ starts ≠ [] ∧
    length orig = length starts ∧ length rl = length starts
}.

(** *** Speed *)

(** [timedelta.total_seconds()] of a difference of timestamps. *)
Definition total_seconds (d : Z) : Q := (inject_Z d / inject_Z 1000000)%Q.

(** [compute_cpm]: [elapsed_seconds] is the integer 0 before the first
    action and a float afterwards; dividing by either zero raises. *)
Definition compute_cpm (now : Z) : Meth Q :=
  try_except
    (c ← n_correct_characters;
     e ← (λ st, Ok (elapsed_seconds now st) st);
     if e =? 0 then raise ZeroDivisionError
     else ret (inject_Z (60 * c) / total_seconds e)%Q)
    ZeroDivisionError
    (ret 0%Q).

(** [compute_wpm(word_size)] *)
Definition compute_wpm (now : Z) (word_size : Z) : Meth Q :=
  cpm ← compute_cpm now;
  if word_size =? 0 then raise ZeroDivisionError
  else ret (cpm / inject_Z word_size)%Q.

(** *** [unroll_actions] *)

(** [[(i, a) for i, x in enumerate(self.actions) for a in x]] *)
Definition enumerate_actions (acts : list (list Action)) : list (Z * Action) :=
  concat (imap (λ i x, map (λ a, (Z.of_nat i, a)) x) acts).

(** [sorted(l, key=lambda x: x[1].ts)]. Python's sort is stable, and a
    stable sort has one possible result: the one of inserting the elements
    one by one, each behind the elements whose key is not greater. *)
Fixpoint insert_by_ts (p : Z * Action) (l : list (Z * Action)) : list (Z * Action) :=
  match l with
  | [] => [p]
  | q :: l' =>
      if ts (snd p) <? ts (snd q) then p :: q :: l' else q :: insert_by_ts p l'
  end.

Definition sorted_by_ts (l : list (Z * Action)) : list (Z * Action) :=
  foldl (λ acc p, insert_by_ts p acc) [] l.

Definition unroll_actions : Meth (list (Z * Action)) :=
  acts ← attr actions;
  ret (sorted_by_ts (enumerate_actions acts)).

(** *** The line-completion test of [type_character]

    [rich_line.plain[i:]] for the cursor offset [idx]: the text of the
    cursor's visual line from the cursor's column on (source lines 400-405). *)
Definition rest_of_rich_line (idx : Z) : Meth (list ascii) :=
  '(line_idx, i) ← get_rich_line_no idx;
  rich_line ← orig_rich_line line_idx;
  g ← (λ st, Ok (gutter_col_width st) st);
  ret (Py.slice_from (plain rich_line) (i + g + 1)).

End Engine.

(** ** The statistics in the words of the specification *)

Module Spec.

(** The last action recorded at logical offset [o], if any. *)
Definition last_action (acts : list (list Action)) (o : nat) : option Action :=
  acts !! o ≫= last.

(** The number of logical offsets whose last recorded action has status [s]. *)
Definition offsets_with_last_status (s : Status) (acts : list (list Action)) : Z :=
  Py.len (filter (λ o, status <$> last_action acts o = Some s) (seq 0 (length acts))).

(** Every recorded action, offset by offset. *)
Definition recorded (acts : list (list Action)) : list Action := concat acts.

Definition total_actions (acts : list (list Action)) : Z := Py.len (recorded acts).

Definition backspace_action_count (acts : list (list Action)) : Z :=
  Py.len (filter (λ a, status a = STATUS_BACKSPACE) (recorded acts)).

(** [correctCount / (totalActions - backspaceActionCount)], 0 when the
    denominator is 0. *)
Definition accuracy (acts : list (list Action)) : Q :=
  let d := total_actions acts - backspace_action_count acts in
  if d =? 0 then 0%Q
  else (inject_Z (offsets_with_last_status STATUS_CORRECT acts) / inject_Z d)%Q.

End Spec.


(** * The helpers of [codetype/utils.py] *)

Module Utils.

(** ** String primitives *)

(** [s.lstrip()] *)
Fixpoint lstrip (s : list ascii) : list ascii :=
  match s with
  | c :: s' => if Py.isspace_char c then lstrip s' else s
  | [] => []
  end.

(** [s.strip()] *)
Definition strip (s : list ascii) : list ascii := Py.rstrip (lstrip s).

(** [sep.join(l)] *)
Fixpoint join (sep : list ascii) (l : list (list ascii)) : list ascii :=
  match l with
  | [] => []
  | x :: l' =>
      match l' with
      | [] => x
      | _ => x ++ sep ++ join sep l'
      end
  end.

Definition carriage_return : ascii := ascii_of_nat 13.

(** The line boundaries of [str.splitlines] below 256: line feed, vertical
    tab, form feed, carriage return, the file, group and record separators
    and the next-line control. *)
Definition is_line_boundary (c : ascii) : bool :=
  let n := N_of_ascii c in
  ((10 <=? n) && (n <=? 13) || (28 <=? n) && (n <=? 30) || (n =? 133))%N.

(** [s.splitlines()], with [cur] the line being read: a carriage return
    followed by a line feed is one boundary, and a boundary at the very end
    opens no further line. *)
Fixpoint splitlines_from (cur s : list ascii) : list (list ascii) :=
  match s with
  | [] => match cur with [] => [] | _ => [cur] end
  | c :: s' =>
      if is_line_boundary c then
        cur :: match s' with
               | c' :: s'' =>
                   if bool_decide (c = carriage_return) && bool_decide (c' = newline)
                   then splitlines_from [] s''
                   else splitlines_from [] s'
               | [] => []
               end
      else splitlines_from (cur ++ [c]) s'
  end.

Definition splitlines (s : list ascii) : list (list ascii) := splitlines_from [] s.

(** ** [clean_text]

    The lexer is pygments'; [lexer.get_tokens(content)] is given as the list
    of its tokens, each with the answer to [token_type in Token.Comment or
    token_type in Token.Literal.String.Doc] and its text. *)

(** The loop over the tokens, with the pieces of the current line and the
    lines closed so far. *)
Fixpoint tokens_loop (toks : list (bool * list ascii))
    (line : list (list ascii)) (lines : list (list ascii))
  : list (list ascii) * list (list ascii) :=
  match toks with
  | [] => (line, lines)
  | (is_comment, token_text) :: toks' =>
      let token_text := if is_comment : bool then [newline] else token_text in
      if bool_decide (token_text = [newline])
      then tokens_loop toks' [] (lines ++ [concat line])
      else tokens_loop toks' (line ++ [token_text]) lines
  end.

Definition clean_text (toks : list (bool * list ascii)) : list (list ascii) :=
  let '(line, lines) := tokens_loop toks [] [] in
  let lines :=
    match line with
    | [] => lines
    | _ => lines ++ [concat line]
    end in
  filter (λ l, l ≠ [])
         (map Py.rstrip (splitlines (strip (join [newline] lines)))).

(** ** [read_from_url]

    The cache folder is a map from file names to file contents, the network
    a function from a URL to the response of [requests.get]. *)

Record Response := mkResponse {
  status_code : Z;
  response_text : list ascii
}.

(** The result of a call: what it returns, or the [HTTPError] of
    [raise_for_status]. *)
Inductive fetched (A : Type) :=
| Fetched (a : A)
| HTTPError.
Arguments Fetched {A} _.
Arguments HTTPError {A}.

(** [resp.raise_for_status()] raises for the client and server error codes. *)
Definition raises_for_status (r : Response) : bool :=
  (400 <=? status_code r) && (status_code r <? 500)
  || (500 <=? status_code r) && (status_code r <? 600).

(** [cache_file.read_text()]: a text file is read with universal newlines,
    a carriage return with or without a line feed behind it becomes a line
    feed. *)
Fixpoint read_text (s : list ascii) : list ascii :=
  match s with
  | [] => []
  | c :: s' =>
      if bool_decide (c = carriage_return) then
        newline :: match s' with
                   | c' :: s'' => if bool_decide (c' = newline) then read_text s''
                                  else read_text s'
                   | [] => []
                   end
      else c :: read_text s'
  end.

Section ReadFromUrl.
(** [urlparse(url).path] and
    [blake2b(url.encode(), digest_size=16).hexdigest()]. *)
Variable url_path : string → string.
Variable cache_name : string → string.

Definition read_from_url (requests_get : string → Response) (url : string)
    (cache : gmap string (list ascii))
  : fetched (list ascii * string) * gmap string (list ascii) :=
  let parsed_path := url_path url in
  let name := cache_name url in
  match cache !! name with
  | Some file => (Fetched (read_text file, parsed_path), cache)
  | None =>
      let resp := requests_get url in
      if negb (status_code resp =? 200) && raises_for_status resp
      then (HTTPError, cache)
      else
        let content := response_text resp in
        (Fetched (content, parsed_path), <[name := content]> cache)
  end.

End ReadFromUrl.

End Utils.
(** ** A concrete instance of the collaborators

    Used to run the engine on concrete sessions: one token style, its
    darkened variant, and a viewport wide enough that no line wraps. *)

Module Demo.

Inductive style := Gutter | Cursor | Wrong | Token | Typed.

(** The lines of a text in which every line ends with a line break. *)
Fixpoint split_lines (acc s : list ascii) : list (list ascii) :=
  match s with
  | [] => match acc with [] => [] | _ => [acc] end
  | c :: s' =>
      if bool_decide (c = newline) then acc :: split_lines [] s'
      else split_lines (acc ++ [c]) s'
  end.

Global Instance collaborators : Collaborators style := {|
  style_truthy := λ _, true;
  gutter_style := Gutter;
  cursor_style := Cursor;
  wrong_style := Wrong;
  get_style_at_offset := λ _ _, Token;
  typed_style := λ _, Some Typed;
  highlight_lines := λ txt, map (λ l, mkText l (Some Token) []) (split_lines [] txt);
  wrap := λ t _, [t]
|}.

(** The object after [TypedText(lines, lexer)] and the first
    [update_dimensions(80, 24)]. *)
Definition mounted (ls : list string) : TypedText style :=
  state_of (update_dimensions 80 24 (init (map list_ascii_of_string ls))).

End Demo.

(** * Facts *)

Example get_ex : Py.get [10; 20; 30] (-1) = Some 30.
Proof. reflexivity. Qed.

Example bisect_ex : Py.bisect [0; 3; 7] 3 = 2.
Proof. reflexivity. Qed.

Example insort_ex : Py.insort [0; 3; 7] 5 = [0; 3; 5; 7].
Proof. reflexivity. Qed.

Example str_of_int_ex : Py.rjust (Py.str_of_int 12) 4 = list_ascii_of_string "  12".
Proof. reflexivity. Qed.

Example rstrip_ex : Py.rstrip (list_ascii_of_string "ab  ") = list_ascii_of_string "ab".
Proof. reflexivity. Qed.

(** *** Facts about the primitives *)

Section PyFacts.
Context {A : Type}.
Implicit Types l : list A.

Lemma get_nonneg l i : 0 ≤ i → Py.get l i = l !! Z.to_nat i.
Proof.
  intros Hi. unfold Py.get.
  destruct (i <? 0) eqn:E; [lia|]. by rewrite E.
Qed.

Lemma get_neg l i : i < 0 → - Py.len l ≤ i →
  Py.get l i = l !! Z.to_nat (i + Py.len l).
Proof.
  intros Hi Hl. unfold Py.get.
  destruct (i <? 0) eqn:E; [|lia].
  destruct (i + Py.len l <? 0) eqn:E2; [lia|done].
Qed.

Lemma get_is_Some l i : - Py.len l ≤ i < Py.len l → is_Some (Py.get l i).
Proof.
  intros [Hlo Hhi]. unfold Py.len in *.
  destruct (Z.lt_ge_cases i 0).
  - rewrite get_neg by (unfold Py.len; lia). apply lookup_lt_is_Some. unfold Py.len. lia.
  - rewrite get_nonneg by lia. apply lookup_lt_is_Some. lia.
Qed.

Lemma get_Some_bounds l i x : Py.get l i = Some x → - Py.len l ≤ i < Py.len l.
Proof.
  unfold Py.get, Py.len. intros H.
  destruct (i <? 0) eqn:E.
  - destruct (i + _ <? 0) eqn:E2; [done|].
    apply lookup_lt_Some in H. lia.
  - rewrite E in H. apply lookup_lt_Some in H. lia.
Qed.

Lemma length_set l i x : length (Py.set l i x) = length l.
Proof.
  unfold Py.set. destruct (_ <? 0); [done|]. apply length_insert.
Qed.

Lemma len_set l i x : Py.len (Py.set l i x) = Py.len l.
Proof. unfold Py.len. by rewrite length_set. Qed.

Lemma set_nonneg l i x : 0 ≤ i → Py.set l i x = <[Z.to_nat i := x]> l.
Proof.
  intros Hi. unfold Py.set.
  destruct (i <? 0) eqn:E; [lia|]. by rewrite E.
Qed.
End PyFacts.

(** A list of offsets in non-decreasing order, by positions. *)
Definition ascending (a : list Z) : Prop :=
∀ i j x y, (i ≤ j)%nat → a !! i = Some x → a !! j = Some y → x ≤ y.

Lemma ascending_nil : ascending [].
Proof. intros i j x y _ H. by rewrite lookup_nil in H. Qed.

(** The loop invariant of the binary search: everything left of [lo] is at
  most [x], everything from [hi] on is greater. *)
Lemma bisect_loop_spec a x :
ascending a →
∀ fuel lo hi,
  (lo ≤ hi ≤ length a)%nat → (hi - lo ≤ fuel)%nat →
  (∀ j y, (j < lo)%nat → a !! j = Some y → y ≤ x) →
  (∀ j y, (hi ≤ j)%nat → a !! j = Some y → x < y) →
  let r := Py.bisect_loop fuel a x lo hi in
  (lo ≤ r ≤ hi)%nat ∧
  (∀ j y, (j < r)%nat → a !! j = Some y → y ≤ x) ∧
  (∀ j y, (r ≤ j)%nat → a !! j = Some y → x < y).
Proof.
intros Hasc. induction fuel as [|fuel IH]; intros lo hi Hb Hf Hlo Hhi;
  cbn [Py.bisect_loop].
- assert (lo = hi) by lia. subst. repeat split; auto; lia.
- destruct (lo <? hi)%nat eqn:E.
  + apply Nat.ltb_lt in E.
    assert (Hmid : (lo ≤ (lo + hi) / 2 < hi)%nat).
    { split; [apply Nat.div_le_lower_bound; lia | apply Nat.Div0.div_lt_upper_bound; lia]. }
    destruct (lookup_lt_is_Some_2 a ((lo + hi) / 2)%nat) as [y Hy]; [lia|].
    rewrite Hy. destruct (x <? y) eqn:Exy.
    * apply Z.ltb_lt in Exy.
      destruct (IH lo ((lo + hi) / 2)%nat) as (Hr & H1 & H2); try lia; auto.
      { intros j z Hj Hz. specialize (Hasc _ _ _ _ Hj Hy Hz). lia. }
      repeat split; auto; lia.
    * apply Z.ltb_ge in Exy.
      destruct (IH (S ((lo + hi) / 2)) hi) as (Hr & H1 & H2); try lia; auto.
      { intros j z Hj Hz.
        assert (Hle : (j ≤ (lo + hi) / 2)%nat) by lia.
        specialize (Hasc _ _ _ _ Hle Hz Hy). lia. }
      repeat split; auto; lia.
  + apply Nat.ltb_ge in E. assert (lo = hi) by lia. subst.
    repeat split; auto; lia.
Qed.

(** [bisect] on an ascending list: the number of elements at most [x]. *)
Lemma bisect_spec a x :
ascending a →
0 ≤ Py.bisect a x ≤ Py.len a ∧
(∀ j y, Z.of_nat j < Py.bisect a x → a !! j = Some y → y ≤ x) ∧
(∀ j y, Py.bisect a x ≤ Z.of_nat j → a !! j = Some y → x < y).
Proof.
intros Hasc. unfold Py.bisect, Py.len.
destruct (bisect_loop_spec a x Hasc (length a) 0 (length a)) as (Hr & H1 & H2).
- lia.
- lia.
- intros j y Hj. lia.
- intros j y Hj Hy. apply lookup_lt_Some in Hy. lia.
- repeat split; try lia.
  + intros j y Hj. apply H1. lia.
  + intros j y Hj. apply H2. lia.
Qed.

Lemma insort_lookup a x j y :
ascending a →
Py.insort a x !! j = Some y →
let r := Z.to_nat (Py.bisect a x) in
((j < r)%nat ∧ a !! j = Some y) ∨ (j = r ∧ y = x) ∨
((r < j)%nat ∧ a !! (j - 1)%nat = Some y).
Proof.
intros Hasc H r. unfold Py.insort in H. fold r in H.
destruct (bisect_spec a x Hasc) as ([Hr0 Hr1] & _).
assert (Hlen : length (take r a) = r).
{ rewrite length_take. unfold Py.len in Hr1. lia. }
destruct (decide (j < r)%nat) as [Hj|Hj].
- left. split; [done|].
  rewrite lookup_app_l in H by lia. by rewrite lookup_take_lt in H.
- rewrite lookup_app_r in H by lia. rewrite Hlen in H.
  destruct (j - r)%nat as [|k] eqn:Ek.
  + right; left. simpl in H. split; [lia|congruence].
  + right; right. simpl in H. rewrite lookup_drop in H.
    split; [lia|]. by replace (j - 1)%nat with (r + k)%nat by lia.
Qed.

Lemma insort_ascending a x : ascending a → ascending (Py.insort a x).
Proof.
intros Hasc i j u v Hij Hu Hv.
destruct (bisect_spec a x Hasc) as ([Hr0 Hr1] & Hle & Hgt).
apply insort_lookup in Hu; [|done]. apply insort_lookup in Hv; [|done].
simpl in *.
destruct Hu as [[Hi Hu]|[[-> ->]|[Hi Hu]]], Hv as [[Hj Hv]|[[-> ->]|[Hj Hv]]];
  try lia;
  try (eapply Hasc; [|done..]; lia);
  try (eapply Hle; [|done]; lia);
  try (apply Z.lt_le_incl; eapply Hgt; [|done]; lia).
Qed.

Lemma insort_length a x : length (Py.insort a x) = S (length a).
Proof.
unfold Py.insort. rewrite length_app. simpl.
rewrite length_take, length_drop. lia.
Qed.

Lemma insort_elem a x y : y ∈ Py.insort a x ↔ y = x ∨ y ∈ a.
Proof.
unfold Py.insort.
set (r := Z.to_nat (Py.bisect a x)).
rewrite <- (take_drop r a) at 3.
rewrite !elem_of_app, elem_of_cons. tauto.
Qed.

Lemma insort_head a x h : a !! 0%nat = Some h → h ≤ x → ascending a →
Py.insort a x !! 0%nat = Some h.
Proof.
intros Hh Hx Hasc. unfold Py.insort.
destruct (bisect_spec a x Hasc) as ([Hr0 Hr1] & Hle & Hgt).
destruct (Z.to_nat (Py.bisect a x)) as [|r] eqn:Er.
- exfalso. specialize (Hgt 0%nat h ltac:(lia) Hh). lia.
- destruct a; [done|]. simpl in *. done.
Qed.

Section RichFacts.
Context {Style : Type} (truthy : Style → bool).
Implicit Types t u : Text Style.

Lemma plain_stylize t sty a b : plain (Rich.stylize truthy t sty a b) = plain t.
Proof.
  unfold Rich.stylize. destruct (truthy sty); [|done].
  by destruct (_ || _).
Qed.

Lemma plain_append_text t u :
  plain (Rich.append_text truthy t u) = plain t ++ plain u.
Proof. done. Qed.

End RichFacts.

(** ** What each method may change *)

Section FrameRules.
Context {Style : Type} `{!Collaborators Style}.
Implicit Types st : TypedText Style.

(** A method run relates the state it starts in to the state it leaves,
    whichever way it ends. *)
Definition frame {A} (R : relation (TypedText Style)) (m : M (TypedText Style) A) : Prop :=
  ∀ st, R st (state_of (m st)).

Lemma frame_bind {A B} (R : relation (TypedText Style)) `{!Transitive R}
    (m : M (TypedText Style) A) (k : A → M (TypedText Style) B) :
  frame R m → (∀ a, frame R (k a)) → frame R (bind m k).
Proof.
  intros Hm Hk st. unfold bind. specialize (Hm st).
  destruct (m st) as [a st1|e st1]; simpl in *; [|done].
  etrans; [done|]. apply Hk.
Qed.

Lemma frame_ret {A} (R : relation (TypedText Style)) `{!Reflexive R} (a : A) :
  frame R (ret a).
Proof. intros st. simpl. done. Qed.

Lemma frame_raise {A} (R : relation (TypedText Style)) `{!Reflexive R} e :
  frame R (raise (A:=A) e).
Proof. intros st. simpl. done. Qed.

Lemma frame_attr {A} (R : relation (TypedText Style)) `{!Reflexive R}
    (f : TypedText Style → option A) :
  frame R (attr f).
Proof. intros st. unfold attr. by destruct (f st). Qed.

Lemma frame_orelse {A} (R : relation (TypedText Style)) `{!Reflexive R}
    (o : option A) e :
  frame R (orelse o e).
Proof. intros st. by destruct o. Qed.

Lemma frame_read {A} (R : relation (TypedText Style)) `{!Reflexive R}
    (f : TypedText Style → A) :
  frame R (λ st, Ok (f st) st).
Proof. intros st. simpl. done. Qed.

Lemma frame_read_orelse {A} (R : relation (TypedText Style)) `{!Reflexive R}
    (f : TypedText Style → option A) e :
  frame R (λ st, orelse (f st) e st).
Proof. intros st. by destruct (f st). Qed.

Lemma frame_assign (R : relation (TypedText Style)) (g : TypedText Style → TypedText Style) :
  (∀ st, R st (g st)) → frame R (assign g).
Proof. intros Hg st. apply Hg. Qed.

Lemma frame_try_except {A} (R : relation (TypedText Style)) `{!Transitive R}
    (m h : M (TypedText Style) A) e :
  frame R m → frame R h → frame R (try_except m e h).
Proof.
  intros Hm Hh st. unfold try_except. specialize (Hm st).
  destruct (m st) as [a st1|e' st1]; simpl in *; [done|].
  destruct (decide (e' = e)); [|done]. etrans; [done|]. apply Hh.
Qed.

(** Only the styled line buffers differ, and they keep their text. *)
Record restyled st st' : Prop := {
  rs_start_ts : start_ts st' = start_ts st;
  rs_end_ts : end_ts st' = end_ts st;
  rs_lines : lines st' = lines st;
  rs_lines_start_idxs : lines_start_idxs st' = lines_start_idxs st;
  rs_text : text st' = text st;
  rs_gutter_col_width : gutter_col_width st' = gutter_col_width st;
  rs_width : width st' = width st;
  rs_height : height st' = height st;
  rs_curr_idx : curr_idx st' = curr_idx st;
  rs_actions : actions st' = actions st;
  rs_back_idxs : back_idxs st' = back_idxs st;
  rs_rich_lines_start_idxs : rich_lines_start_idxs st' = rich_lines_start_idxs st;
  rs_orig_rich_lines : orig_rich_lines st' = orig_rich_lines st;
  rs_rich_lines : map plain <$> rich_lines st' = map plain <$> rich_lines st
}.

Global Instance restyled_refl : Reflexive restyled.
Proof. intros st. by split. Qed.

Global Instance restyled_trans : Transitive restyled.
Proof. intros a b c [] []. split; congruence. Qed.

(** Only the layout (start offsets and line buffers) differs. *)
Record relaid st st' : Prop := {
  rl_start_ts : start_ts st' = start_ts st;
  rl_end_ts : end_ts st' = end_ts st;
  rl_lines : lines st' = lines st;
  rl_lines_start_idxs : lines_start_idxs st' = lines_start_idxs st;
  rl_text : text st' = text st;
  rl_gutter_col_width : gutter_col_width st' = gutter_col_width st;
  rl_width : width st' = width st;
  rl_height : height st' = height st;
  rl_curr_idx : curr_idx st' = curr_idx st;
  rl_actions : actions st' = actions st;
  rl_back_idxs : back_idxs st' = back_idxs st
}.

Global Instance relaid_refl : Reflexive relaid.
Proof. intros st. by split. Qed.

Global Instance relaid_trans : Transitive relaid.
Proof. intros a b c [] []. split; congruence. Qed.

(** A keystroke leaves the text, the viewport and the layout alone. *)
Record same_layout st st' : Prop := {
  sl_lines : lines st' = lines st;
  sl_lines_start_idxs : lines_start_idxs st' = lines_start_idxs st;
  sl_text : text st' = text st;
  sl_gutter_col_width : gutter_col_width st' = gutter_col_width st;
  sl_width : width st' = width st;
  sl_height : height st' = height st;
  sl_rich_lines_start_idxs : rich_lines_start_idxs st' = rich_lines_start_idxs st;
  sl_orig_rich_lines : orig_rich_lines st' = orig_rich_lines st;
  sl_rich_lines : map plain <$> rich_lines st' = map plain <$> rich_lines st
}.

Global Instance same_layout_refl : Reflexive same_layout.
Proof. intros st. by split. Qed.

Global Instance same_layout_trans : Transitive same_layout.
Proof. intros a b c [] []. split; congruence. Qed.

Lemma restyled_same_layout st st' : restyled st st' → same_layout st st'.
Proof. intros []. by split. Qed.

End FrameRules.

(** Frame goals are closed rule by rule. *)
Create HintDb frames discriminated.

Ltac frame_step :=
  first
    [ solve [auto 2 with frames typeclass_instances nocore]
    | apply frame_ret; tc_solve
    | apply frame_raise; tc_solve
    | apply frame_attr; tc_solve
    | apply frame_orelse; tc_solve
    | apply frame_read; tc_solve
    | apply frame_read_orelse; tc_solve
    | apply frame_bind; [tc_solve| |intros]
    | apply frame_assign; intros; by split
    | progress intros ].

Ltac frame_auto :=
  repeat first
    [ frame_step
    | match goal with
      | |- frame _ (match ?x with _ => _ end) => destruct x
      | |- frame _ (if ?b then _ else _) => destruct b
      | |- frame _ (let '(_, _) := ?p in _) => destruct p
      end ].

(** ** Facts about the methods *)

Section EngineFacts.
Context {Style : Type} `{!Collaborators Style}.
Implicit Types st : TypedText Style.

Lemma map_plain_set (rl : list (Text Style)) i t t' :
  Py.get rl i = Some t → plain t' = plain t →
  map plain (Py.set rl i t') = map plain rl.
Proof.
  unfold Py.get, Py.set. intros Hget Hp.
  destruct (_ <? 0); [done|].
  rewrite list_fmap_insert, Hp.
  apply list_insert_id. by rewrite list_lookup_fmap, Hget.
Qed.

Lemma get_rich_line_no_frame (R : relation (TypedText Style))
    `{!Reflexive R, !Transitive R} idx :
  frame R (get_rich_line_no idx).
Proof. unfold get_rich_line_no. frame_auto. Qed.
Local Hint Resolve get_rich_line_no_frame : frames.

Lemma orig_rich_line_frame (R : relation (TypedText Style))
    `{!Reflexive R, !Transitive R} i :
  frame R (orig_rich_line i).
Proof. unfold orig_rich_line. frame_auto. Qed.
Local Hint Resolve orig_rich_line_frame : frames.

Lemma stylize_rich_line_restyled line_idx sty a b :
  frame restyled (stylize_rich_line line_idx sty a b).
Proof.
  intros st. unfold stylize_rich_line, bind, attr.
  destruct (rich_lines st) as [rl|] eqn:Hrl; [|done].
  unfold orelse. destruct (Py.get rl line_idx) as [t|] eqn:Ht; simpl; [|done].
  split; try done. simpl. rewrite Hrl. simpl. f_equal.
  eapply map_plain_set; [done|]. apply plain_stylize.
Qed.
Local Hint Resolve stylize_rich_line_restyled : frames.

Lemma style_cursor_location_restyled : frame restyled style_cursor_location.
Proof.
  unfold style_cursor_location.
  frame_auto.
Qed.
Local Hint Resolve style_cursor_location_restyled : frames.

Lemma style_for_backspace_at_restyled idx : frame restyled (style_for_backspace_at idx).
Proof.
  unfold style_for_backspace_at.
  frame_auto.
Qed.
Local Hint Resolve style_for_backspace_at_restyled : frames.

Lemma style_wrong_char_at_restyled idx : frame restyled (style_wrong_char_at idx).
Proof.
  unfold style_wrong_char_at.
  frame_auto.
Qed.
Local Hint Resolve style_wrong_char_at_restyled : frames.

Lemma style_correct_char_at_restyled idx : frame restyled (style_correct_char_at idx).
Proof.
  unfold style_correct_char_at.
  frame_auto.
Qed.
Local Hint Resolve style_correct_char_at_restyled : frames.

Lemma rich_text_restyled : frame restyled rich_text.
Proof.
  unfold rich_text.
  frame_auto.
Qed.
Local Hint Resolve rich_text_restyled : frames.

Lemma wrapped_line_step_relaid line_no idx cum_len w :
  frame relaid (wrapped_line_step line_no idx cum_len w).
Proof. unfold wrapped_line_step. frame_auto. Qed.
Local Hint Resolve wrapped_line_step_relaid : frames.

Lemma wrapped_lines_loop_relaid line_no idx cum_len ws :
  frame relaid (wrapped_lines_loop line_no idx cum_len ws).
Proof.
  revert idx cum_len. induction ws as [|w ws IH]; intros idx cum_len; simpl.
  - frame_auto.
  - apply frame_bind; [tc_solve|apply wrapped_line_step_relaid|intros; apply IH].
Qed.
Local Hint Resolve wrapped_lines_loop_relaid : frames.

Lemma lines_loop_relaid line_no hl : frame relaid (lines_loop line_no hl).
Proof.
  revert line_no. induction hl as [|l hl IH]; intros line_no; simpl.
  - frame_auto.
  - frame_auto.
Qed.
Local Hint Resolve lines_loop_relaid : frames.

Lemma create_rich_lines_relaid : frame relaid create_rich_lines.
Proof. unfold create_rich_lines. frame_auto. Qed.
Local Hint Resolve create_rich_lines_relaid : frames.


(** ** The clock across a resize *)

Lemma update_dimensions_unfold w h st :
  update_dimensions w h st =
  create_rich_lines
    (set_back_idxs ∅
       (set_actions (replicate (length (text st)) [])
          (set_curr_idx 0 (set_height h (set_width w st))))).
Proof. reflexivity. Qed.

(** A resize relays the text out from the state in which the viewport is
    stored and the cursor, the action log and the back references are
    reset. *)
Lemma update_dimensions_relaid w h st :
  relaid
    (set_back_idxs ∅
       (set_actions (replicate (length (text st)) [])
          (set_curr_idx 0 (set_height h (set_width w st)))))
    (state_of (update_dimensions w h st)).
Proof. rewrite update_dimensions_unfold. apply create_rich_lines_relaid. Qed.

Lemma update_dimensions_resets w h st :
  let st' := state_of (update_dimensions w h st) in
  curr_idx st' = Some 0 ∧
  actions st' = Some (replicate (length (text st)) []) ∧
  back_idxs st' = Some ∅.
Proof.
  destruct (update_dimensions_relaid w h st) as [_ _ _ _ _ _ _ _ Hc Ha Hb].
  simpl in *. done.
Qed.

(** C10: a resize keeps both timestamps of the session clock, while it
    resets the cursor, the action log and the back references; so the
    elapsed time is still measured from the first action of the session. *)
Theorem update_dimensions_keeps_clock w h st :
  let st' := state_of (update_dimensions w h st) in
  start_ts st' = start_ts st ∧ end_ts st' = end_ts st ∧
  (∀ now, elapsed_seconds now st' = elapsed_seconds now st) ∧
  curr_idx st' = Some 0 ∧
  actions st' = Some (replicate (length (text st)) []) ∧
  back_idxs st' = Some ∅.
Proof.
  intros st'. subst st'.
  destruct (update_dimensions_relaid w h st) as [Hs He _ _ _ _ _ _ _ _ _].
  simpl in Hs, He. split_and!; [done|done| |apply update_dimensions_resets..].
  intros now. unfold elapsed_seconds. by rewrite Hs, He.
Qed.

(** ** Accuracy *)

Lemma last_has_status_spec s (x : list Action) :
  last_has_status s x = true ↔ status <$> last x = Some s.
Proof.
  unfold last_has_status. destruct x as [|a x]; [done|].
  rewrite get_neg by (unfold Py.len; simpl; lia).
  rewrite last_lookup.
  replace (Z.to_nat (-1 + Py.len (a :: x))) with (pred (length (a :: x)))
    by (unfold Py.len; simpl; lia).
  destruct ((a :: x) !! pred (length (a :: x))) as [b|]; simpl; [|done].
  rewrite bool_decide_eq_true. split; congruence.
Qed.

(** Counting the elements that satisfy [P] is counting the positions whose
    element does. *)
Lemma filter_length_by_index {A} (P : A → Prop) `{!∀ x, Decision (P x)}
    (Q : nat → Prop) `{!∀ i, Decision (Q i)} (l : list A) (k : nat) :
  (∀ i x, l !! i = Some x → (P x ↔ Q (k + i)%nat)) →
  length (filter P l) = length (filter Q (seq k (length l))).
Proof.
  revert k. induction l as [|x l IH]; intros k HPQ; [done|].
  simpl. rewrite !filter_cons.
  assert (Hx : P x ↔ Q k).
  { rewrite (HPQ 0%nat x) by done. by rewrite Nat.add_0_r. }
  assert (Hl : length (filter P l) = length (filter Q (seq (S k) (length l)))).
  { apply IH. intros i y Hy. rewrite (HPQ (S i) y) by done.
    by replace (k + S i)%nat with (S k + i)%nat by lia. }
  destruct (decide (P x)), (decide (Q k)); simpl; tauto || lia.
Qed.

Lemma n_characters_with_status_spec s (acts : list (list Action)) :
  Py.len (filter (λ x, last_has_status s x = true) acts)
  = Spec.offsets_with_last_status s acts.
Proof.
  unfold Spec.offsets_with_last_status, Py.len. f_equal.
  apply (filter_length_by_index _ _ acts 0).
  intros i x Hx. simpl. unfold Spec.last_action. rewrite Hx. simpl.
  apply last_has_status_spec.
Qed.

Lemma n_actions_spec (acts : list (list Action)) :
  foldr Z.add 0 (map Py.len acts) = Spec.total_actions acts.
Proof.
  unfold Spec.total_actions, Spec.recorded, Py.len.
  induction acts as [|x acts IH]; [done|].
  simpl. rewrite IH, length_app. lia.
Qed.

Lemma sum_ones {A} (l : list A) : foldr Z.add 0 (map (λ _, 1) l) = Py.len l.
Proof.
  unfold Py.len. induction l as [|x l IH]; [done|].
  simpl length. simpl foldr. rewrite IH. lia.
Qed.

Lemma n_backspace_actions_spec (acts : list (list Action)) :
  foldr Z.add 0
    (map (λ x, foldr Z.add 0
                 (map (λ _, 1) (filter (λ a, status a = STATUS_BACKSPACE) x)))
         acts)
  = Spec.backspace_action_count acts.
Proof.
  unfold Spec.backspace_action_count, Spec.recorded, Py.len.
  induction acts as [|x acts IH]; [done|].
  simpl. rewrite IH, sum_ones, filter_app, length_app. unfold Py.len. lia.
Qed.

(** C5: in a state that has its action log (any state from the first
    layout on), the accuracy the engine computes is the number of offsets
    whose last action is CORRECT divided by the number of recorded actions
    that are not backspaces, and 0 when that number is 0. The read leaves
    the state as it was. *)
Theorem compute_accuracy_spec st acts :
  actions st = Some acts →
  compute_accuracy st = Ok (Spec.accuracy acts) st.
Proof.
  intros Hacts.
  unfold compute_accuracy, try_except, n_correct_characters,
    _n_characters_with_status, n_actions, n_backspace_actions, bind, attr, ret.
  repeat (rewrite Hacts; cbv beta iota).
  rewrite n_characters_with_status_spec, n_actions_spec, n_backspace_actions_spec.
  unfold truediv, Spec.accuracy.
  destruct (_ =? 0); simpl; [|done].
  by destruct (decide (ZeroDivisionError = ZeroDivisionError)).
Qed.

(** ** Running a method symbolically *)

Ltac boolfacts :=
  repeat match goal with
  | H : negb _ = true |- _ => apply negb_true_iff in H
  | H : negb _ = false |- _ => apply negb_false_iff in H
  | H : _ && _ = true |- _ => apply andb_true_iff in H; destruct H
  | H : _ && _ = false |- _ => apply andb_false_iff in H
  | H : _ || _ = false |- _ => apply orb_false_iff in H; destruct H
  | H : _ || _ = true |- _ => apply orb_true_iff in H
  | H : (_ <=? _) = true |- _ => apply Z.leb_le in H
  | H : (_ <=? _) = false |- _ => apply Z.leb_gt in H
  | H : (_ <? _) = true |- _ => apply Z.ltb_lt in H
  | H : (_ <? _) = false |- _ => apply Z.ltb_ge in H
  | H : (_ =? _) = true |- _ => apply Z.eqb_eq in H
  | H : (_ =? _) = false |- _ => apply Z.eqb_neq in H
  | H : bool_decide _ = true |- _ => apply bool_decide_eq_true in H
  | H : bool_decide _ = false |- _ => apply bool_decide_eq_false in H
  end.

(** The scrutinee on which the evaluation of a run is stuck. *)
Ltac head_scrutinee E k :=
  lazymatch E with
  | match ?x with _ => _ end => head_scrutinee x k
  | (match ?x with _ => _ end) _ => head_scrutinee x k
  | _ => k E
  end.

Ltac mcbn :=
  cbv beta iota zeta delta [bind attr assign ret raise orelse state_of text_at append_action
       check_finished n_characters get_rich_line_no orig_rich_line
       start_ts end_ts lines lines_start_idxs text gutter_col_width width height
       curr_idx actions back_idxs rich_lines_start_idxs orig_rich_lines rich_lines
       set_start_ts set_end_ts set_width set_height set_curr_idx set_actions
       set_back_idxs set_rich_lines_start_idxs set_orig_rich_lines set_rich_lines].

(** Use the frame of a method call: the state it leaves is a fresh record
    that differs from the old one only where the frame allows. *)
Ltac by_frame Hf :=
  let H := fresh "Hfr" in
  pose proof Hf as H;
  match type of H with
  | _ _ (state_of ?X) =>
      let st2 := fresh "st" in
      destruct X as [? st2|? st2]; cbn [state_of] in H;
      destruct st2; destruct H; cbn in *; simplify_eq
  end.

Ltac mstep :=
  mcbn;
  lazymatch goal with
  | |- ?Q ?E =>
      head_scrutinee E ltac:(fun X =>
        lazymatch X with
        | style_for_backspace_at ?i ?s => by_frame (style_for_backspace_at_restyled i s)
        | style_wrong_char_at ?i ?s => by_frame (style_wrong_char_at_restyled i s)
        | style_correct_char_at ?i ?s => by_frame (style_correct_char_at_restyled i s)
        | style_cursor_location ?s => by_frame (style_cursor_location_restyled s)
        | Ok _ _ => fail
        | Raise _ _ => fail
        | _ => destruct X eqn:?
        end)
  end.

Ltac proj_cbn :=
  cbn [state_of start_ts end_ts lines lines_start_idxs text gutter_col_width width height
       curr_idx actions back_idxs rich_lines_start_idxs orig_rich_lines rich_lines
       ] in *.

Ltac fields_cbn :=
  cbn [state_of start_ts end_ts lines lines_start_idxs text gutter_col_width width height
       curr_idx actions back_idxs rich_lines_start_idxs orig_rich_lines rich_lines
       set_start_ts set_end_ts set_width set_height set_curr_idx set_actions
       set_back_idxs set_rich_lines_start_idxs set_orig_rich_lines set_rich_lines] in *.

(** ** One keystroke

    [type_character] is run symbolically: the state is a record of
    variables, every branch of the method is followed to the point where it
    returns or raises, and a styling call is replaced by what its frame says
    about the state it leaves. *)

Lemma bisect_loop_range a x fuel lo hi :
  (lo ≤ hi)%nat → (lo ≤ Py.bisect_loop fuel a x lo hi ≤ hi)%nat.
Proof.
  revert lo hi. induction fuel as [|fuel IH]; intros lo hi Hle; cbn [Py.bisect_loop]; [lia|].
  destruct (lo <? hi)%nat eqn:E; [|lia].
  apply Nat.ltb_lt in E.
  assert (Hmid : (lo ≤ (lo + hi) / 2 < hi)%nat).
  { split; [apply Nat.div_le_lower_bound; lia | apply Nat.Div0.div_lt_upper_bound; lia]. }
  destruct (a !! _); [|lia].
  destruct (x <? _).
  - specialize (IH lo ((lo + hi) / 2)%nat). lia.
  - specialize (IH (S ((lo + hi) / 2)) hi). lia.
Qed.

Lemma bisect_range a x : 0 ≤ Py.bisect a x ≤ Py.len a.
Proof.
  unfold Py.bisect, Py.len.
  pose proof (bisect_loop_range a x (length a) 0 (length a)). lia.
Qed.

(** What a keystroke [ch] pressed at cursor [cur] can do to the cursor and the
    back references, whether it returns or raises. *)
Inductive cursor_effect st (ch : string) (cur : Z) (back : gmap Z Z)
  : Z → gmap Z Z → Prop :=
| eff_none : cursor_effect st ch cur back cur back
| eff_backspace p :
    ch = "backspace"%string → cur ≠ 0 → back !! cur = Some p →
    cursor_effect st ch cur back p back
| eff_tab :
    ch = "tab"%string →
    cursor_effect st ch cur back
      (Z.min (n_characters st - 1) (tab_target st cur))
      (<[tab_target st cur := cur]> back)
| eff_space starts s :
    ch = " "%string →
    rich_lines_start_idxs st = Some starts →
    Py.get starts (Py.bisect starts cur - 1 + 1) = Some s →
    cursor_effect st ch cur back s (<[s := cur]> back)
| eff_char :
    ch ≠ "backspace"%string → ch ≠ "tab"%string →
    cursor_effect st ch cur back (cur + 1) (<[cur + 1 := cur]> back).

(** Everything a keystroke guarantees about the state it leaves. *)
Definition key_post ch now st cur back (r : outcome (TypedText Style) unit) : Prop :=
  let st' := state_of r in
  same_layout st st' ∧
  (length <$> actions st' = length <$> actions st) ∧
  (start_ts st' = start_ts st ∨ start_ts st = None ∧ start_ts st' = Some now) ∧
  (end_ts st' = end_ts st ∨ end_ts st' = Some now) ∧
  ∃ cur' back',
    curr_idx st' = Some cur' ∧ back_idxs st' = Some back' ∧
    (cur' = cur ∧ back' = back ∨
     0 ≤ cur < n_characters st ∧ cursor_effect st ch cur back cur' back') ∧
    (ch ≠ "backspace"%string → 0 ≤ cur < n_characters st → n_characters st ≤ cur' →
     r = Raise ZeroDivisionError st' ∧ end_ts st' = Some now).

Lemma type_character_cases ch now st cur back :
  curr_idx st = Some cur → back_idxs st = Some back →
  key_post ch now st cur back (type_character ch now st).
Proof.
  intros Hcur Hback.
  destruct st as [sts ets ls lsi txt g w h c acts b starts orig rl];
    simpl in Hcur, Hback; simplify_eq.
  unfold type_character.
  match goal with |- key_post ?a ?b ?c ?d ?e _ => set (Q := key_post a b c d e) end.
  repeat mstep.
  all: mcbn; subst; subst Q; unfold key_post, n_characters, tab_target; proj_cbn; boolfacts.
  all: rewrite ?(Z.min_r (Py.len txt) (cur + 1)) by lia.
  all: split; [split; proj_cbn; congruence|].
  all: split; [proj_cbn; cbn [fmap option_fmap option_map]; rewrite ?length_set; done|].
  all: split; [first [left; done | right; done]|].
  all: split; [first [left; done | right; done]|].
  all: eexists _, _; split; [reflexivity|]; split; [reflexivity|].
  all: split;
    [ first
        [ left; split; [lia|done]
        | right; split; [lia|];
          first [ eapply eff_backspace; [done | lia | done]
                | apply eff_tab; done
                | eapply eff_space; [done | reflexivity | done]
                | apply eff_char; done ] ]
    | intros ? ? ?; first [ done | lia | split; reflexivity | congruence ] ].
Qed.

(** ** The layout that a rebuild leaves *)

Lemma process_character_cases key now st cur back :
  curr_idx st = Some cur → back_idxs st = Some back →
  key_post (canonical_key key) now st cur back (process_character key now st).
Proof.
  intros Hcur Hback. unfold process_character.
  destruct (_ && _) eqn:E; [|by apply type_character_cases].
  unfold key_post, ret. cbn [state_of].
  repeat split; auto.
  exists cur, back. repeat split; auto; lia.
Qed.

Lemma get_elem_of {A} (l : list A) i x : Py.get l i = Some x → x ∈ l.
Proof.
  unfold Py.get. destruct (_ <? 0); [done|]. apply list_elem_of_lookup_2.
Qed.

Lemma start_idxs_from_ge c ls x : x ∈ start_idxs_from c ls → c ≤ x.
Proof.
  revert c. induction ls as [|l ls IH]; intros c; simpl.
  - by rewrite elem_of_nil.
  - rewrite elem_of_cons. intros [->|Hx]; [lia|].
    apply IH in Hx. unfold Py.len in Hx. lia.
Qed.

Lemma start_idxs_from_ascending c ls : ascending (start_idxs_from c ls).
Proof.
  revert c. induction ls as [|l ls IH]; intros c; simpl; [apply ascending_nil|].
  intros [|i] [|j] x y Hij Hx Hy; simpl in *; simplify_eq; try lia.
  - apply list_elem_of_lookup_2, start_idxs_from_ge in Hy. unfold Py.len in Hy. lia.
  - eapply IH; [|done..]. lia.
Qed.

Lemma start_idxs_from_head c ls : ls ≠ [] → start_idxs_from c ls !! 0%nat = Some c.
Proof. by destruct ls. Qed.

(** What the layout loops maintain about the start offsets. *)
Definition layout_inv (ls : list (list ascii)) st : Prop :=
  lines_start_idxs st = start_idxs_from 0 ls ∧
  ∃ starts orig,
    rich_lines_start_idxs st = Some starts ∧ orig_rich_lines st = Some orig ∧
    ascending starts ∧ (ls ≠ [] → starts !! 0%nat = Some 0).

Lemma wrapped_line_step_inv ls line_no idx cum w st :
  layout_inv ls st → 0 ≤ cum →
  match wrapped_line_step line_no idx cum w st with
  | Ok c st' => layout_inv ls st' ∧ 0 ≤ c
  | Raise _ _ => True
  end.
Proof.
  intros (Hlsi & starts & orig & Hs & Ho & Hasc & Hhead) Hcum.
  destruct st as [sts ets ls' lsi txt g wd h c acts b starts' orig' rl];
    simpl in Hlsi, Hs, Ho; simplify_eq.
  unfold wrapped_line_step.
  match goal with |- match ?E with Ok c st' => @?P c st' | Raise _ _ => _ end =>
    set (Q := λ r : outcome (TypedText Style) Z,
                match r with Ok c0 st0 => P c0 st0 | Raise _ _ => True end);
    change (Q E)
  end.
  repeat mstep.
  all: mcbn; subst Q; cbv beta iota; try done.
  all: unfold layout_inv; proj_cbn; (split; [split; [done|]|unfold Py.len; lia]).
  all: eexists _, _; split; [reflexivity|]; split; [reflexivity|].
  all: try (split; [done|done]).
  all: split; [by apply insort_ascending|].
  all: intros Hne; apply insort_head; [by apply Hhead| |done].
  all: match goal with H : Py.get _ _ = Some ?z |- _ =>
         apply get_elem_of, start_idxs_from_ge in H end; lia.
Qed.

Lemma wrapped_lines_loop_inv ls line_no idx cum ws st :
  layout_inv ls st → 0 ≤ cum →
  match wrapped_lines_loop line_no idx cum ws st with
  | Ok _ st' => layout_inv ls st'
  | Raise _ _ => True
  end.
Proof.
  revert idx cum st. induction ws as [|w ws IH]; intros idx cum st Hinv Hcum; simpl.
  - done.
  - unfold bind. pose proof (wrapped_line_step_inv ls line_no idx cum w st Hinv Hcum) as H.
    destruct (wrapped_line_step _ _ _ _ _) as [c st1|]; [|done].
    destruct H. by apply IH.
Qed.

Lemma lines_loop_inv ls line_no hl st :
  layout_inv ls st →
  match lines_loop line_no hl st with
  | Ok _ st' => layout_inv ls st'
  | Raise _ _ => True
  end.
Proof.
  revert line_no st. induction hl as [|l hl IH]; intros line_no st Hinv; simpl.
  - done.
  - unfold bind at 1. unfold attr. destruct (width st); [|done].
    unfold bind at 1. unfold bind at 1.
    pose proof (wrapped_lines_loop_inv ls line_no 0 0
                  (wrap l (z - (gutter_col_width st + 1))) st Hinv ltac:(lia)) as H.
    destruct (wrapped_lines_loop _ _ _ _ _) as [c st1|]; [|done].
    by apply IH.
Qed.

Lemma create_rich_lines_inv ls st st' :
  lines_start_idxs st = start_idxs_from 0 ls →
  create_rich_lines st = Ok tt st' →
  ∃ starts orig,
    rich_lines_start_idxs st' = Some starts ∧ orig_rich_lines st' = Some orig ∧
    rich_lines st' = Some orig ∧
    ascending starts ∧ (ls ≠ [] → starts !! 0%nat = Some 0).
Proof.
  intros Hlsi. unfold create_rich_lines.
  cbv beta iota zeta delta [bind assign].
  set (st1 := set_orig_rich_lines [] _).
  assert (Hinv : layout_inv ls st1).
  { split; [done|]. eexists _, _. split; [reflexivity|]. split; [reflexivity|].
    rewrite Hlsi. split; [apply start_idxs_from_ascending|].
    apply start_idxs_from_head. }
  pose proof (lines_loop_inv ls 0 (highlight_lines (text st)) st1 Hinv) as H.
  destruct (lines_loop _ _ _) as [[] st2|]; [|done].
  destruct H as (_ & starts & orig & Hs & Ho & Hasc & Hhead).
  unfold attr. rewrite Ho. intros [= <-].
  exists starts, orig. by repeat split.
Qed.

(** ** What holds in every state of a session *)

Lemma takewhile_isspace_count_nonneg s : 0 ≤ Py.takewhile_isspace_count s.
Proof. induction s as [|c s IH]; simpl; [lia|]. destruct (Py.isspace_char c); lia. Qed.

(** The attributes that [__init__] derives from the lines. *)
Definition static_ok (ls : list (list ascii)) st : Prop :=
  lines st = ls ∧
  text st = concat (map (λ x, x ++ [newline]) ls) ∧
  lines_start_idxs st = start_idxs_from 0 ls.

Lemma static_ok_init ls : static_ok ls (init ls).
Proof. done. Qed.

Lemma static_ok_nonempty ls st : static_ok ls st → ls ≠ [] → 0 < n_characters st.
Proof.
  intros (_ & Ht & _) Hne. unfold n_characters, Py.len. rewrite Ht.
  destruct ls as [|l ls]; [done|]. simpl. rewrite !length_app. simpl. lia.
Qed.

Lemma static_ok_in_range ls st cur :
  static_ok ls st → 0 ≤ cur < n_characters st → ls ≠ [].
Proof.
  intros (_ & Ht & _) Hcur ->. unfold n_characters, Py.len in Hcur.
  rewrite Ht in Hcur. simpl in Hcur. lia.
Qed.

(** What holds of every state of a session over the lines [ls]. *)
Definition session_inv (ls : list (list ascii)) st : Prop :=
  static_ok ls st ∧
  is_Some (width st) ∧ is_Some (height st) ∧
  ∃ cur back acts starts orig rl,
    curr_idx st = Some cur ∧ back_idxs st = Some back ∧ actions st = Some acts ∧
    rich_lines_start_idxs st = Some starts ∧ orig_rich_lines st = Some orig ∧
    rich_lines st = Some rl ∧
    length acts = length (text st) ∧
    ascending starts ∧ (ls ≠ [] → starts !! 0%nat = Some 0) ∧
    0 ≤ cur ∧ (cur ≤ n_characters st ∨ cur ∈ starts) ∧
    (n_characters st ≤ cur → ls ≠ [] → is_Some (end_ts st)) ∧
    (∀ k v, back !! k = Some v → 0 ≤ v < n_characters st).

Lemma update_dimensions_session_inv ls w h st st' :
  static_ok ls st → update_dimensions w h st = Ok tt st' → session_inv ls st'.
Proof.
  intros Hst Hup.
  pose proof (update_dimensions_resets w h st) as (Hc & Ha & Hb).
  rewrite Hup in Hc, Ha, Hb. cbn [state_of] in Hc, Ha, Hb.
  rewrite update_dimensions_unfold in Hup.
  set (st1 := set_back_idxs _ _) in Hup.
  pose proof (create_rich_lines_relaid st1) as Hfr.
  rewrite Hup in Hfr. cbn [state_of] in Hfr.
  destruct Hfr as [_ _ Hfl Hflsi Hft _ Hfw Hfh _ _ _].
  subst st1. fields_cbn.
  destruct Hst as (Hl & Ht & Hlsi).
  edestruct (create_rich_lines_inv ls) as
    (starts & orig & Hs & Ho & Hr & Hasc & Hhead); [|exact Hup|]; [exact Hlsi|].
  assert (Hst' : static_ok ls st').
  { repeat split; congruence. }
  split; [done|].
  split; [rewrite Hfw; by eexists|].
  split; [rewrite Hfh; by eexists|].
  exists 0, ∅, (replicate (length (text st)) []), starts, orig, orig.
  split_and!; try done.
  - rewrite length_replicate. congruence.
  - left. unfold n_characters, Py.len. lia.
  - intros Hn Hne. pose proof (static_ok_nonempty ls st' Hst' Hne). lia.
Qed.

Lemma restyled_session_inv ls st st' :
  session_inv ls st → restyled st st' → session_inv ls st'.
Proof.
  intros ((Hl & Ht & Hlsi) & Hw & Hh & cur & back & acts & starts & orig & rl &
          Hc & Hb & Ha & Hs & Ho & Hr & Hlen & Hasc & Hhead & Hc0 & Hcn & Hend & Hback)
         [Hfs Hfe Hfl Hflsi Hft Hfg Hfw Hfh Hfc Hfa Hfb Hfst Hfo Hfr].
  assert (∃ rl', rich_lines st' = Some rl') as [rl' Hr'].
  { rewrite Hr in Hfr. destruct (rich_lines st'); [by eexists|done]. }
  split; [repeat split; congruence|].
  split; [congruence|]. split; [congruence|].
  exists cur, back, acts, starts, orig, rl'.
  unfold n_characters in *. rewrite Hft, Hfe.
  split_and!; try congruence; try done.
Qed.

Lemma key_session_inv ls key now st :
  session_inv ls st → session_inv ls (state_of (process_character key now st)).
Proof.
  intros (Hst & Hw & Hh & cur & back & acts & starts & orig & rl &
          Hc & Hb & Ha & Hs & Ho & Hr & Hlen & Hasc & Hhead & Hc0 & Hcn & Hend & Hback).
  pose proof (process_character_cases key now st cur back Hc Hb) as
    ([Hfl Hflsi Hft Hfg Hfw Hfh Hfst Hfo Hfr] & Hal & Hsts & Hets &
     cur' & back' & Hc' & Hb' & Heff & Hfin).
  set (st' := state_of (process_character key now st)) in *.
  assert (Hn : n_characters st' = n_characters st).
  { unfold n_characters. by rewrite Hft. }
  assert (∃ rl', rich_lines st' = Some rl') as [rl' Hr'].
  { rewrite Hr in Hfr. destruct (rich_lines st'); [by eexists|done]. }
  assert (∃ acts', actions st' = Some acts' ∧ length acts' = length acts)
    as (acts' & Ha' & Hlen').
  { rewrite Ha in Hal. destruct (actions st') as [acts'|]; [|done].
    exists acts'. split; [done|]. simpl in Hal. congruence. }
  assert (Hst' : static_ok ls st').
  { destruct Hst as (? & ? & ?). repeat split; congruence. }
  split; [done|]. split; [congruence|]. split; [congruence|].
  exists cur', back', acts', starts, orig, rl'.
  rewrite Hn, Hft.
  split; [done|]. split; [done|]. split; [done|]. split; [congruence|].
  split; [congruence|]. split; [done|]. split; [congruence|].
  split; [done|]. split; [done|].
  assert (Hsome : is_Some (end_ts st) → is_Some (end_ts st')).
  { destruct Hets as [->| ->]; [done|intros _; by eexists]. }
  destruct Heff as [[-> ->]|[Hrange Heff]].
  { split_and!; auto. }
  assert (Hne : ls ≠ []) by exact (static_ok_in_range ls st cur Hst Hrange).
  destruct Heff as [|p Hch Hc1 Hp| Hch | starts0 s Hch Hs0 Hget | Hch1 Hch2].
  - split_and!; auto.
  - apply Hback in Hp. split_and!; auto; try lia.
  - pose proof (takewhile_isspace_count_nonneg (Py.slice_from (text st) cur)).
    unfold tab_target. split_and!; try lia.
    all: intros k v; rewrite lookup_insert; case_decide; [intros [= <-]; lia|apply Hback].
  - rewrite Hs in Hs0. simplify_eq.
    pose proof (bisect_range starts0 cur) as Hbr.
    rewrite get_nonneg in Hget by lia.
    assert (0 ≤ s).
    { eapply (Hasc 0%nat); [|by apply Hhead|done]. lia. }
    split_and!; try done.
    + right. by eapply list_elem_of_lookup_2.
    + intros Hge _. destruct Hfin as [_ Hfin]; [by rewrite Hch|done|done|].
      rewrite Hfin. by eexists.
    + intros k v; rewrite lookup_insert; case_decide; [intros [= <-]; lia|apply Hback].
  - split_and!; try lia.
    + intros Hge _. destruct Hfin as [_ Hfin]; [done|done|done|].
      rewrite Hfin. by eexists.
    + intros k v; rewrite lookup_insert; case_decide; [intros [= <-]; lia|apply Hback].
Qed.

Lemma reachable_session_inv ls st : reachable ls st → session_inv ls st.
Proof.
  induction 1 as [w h st Hup|w h st st' _ IH Hup|ev st _ IH].
  - eapply update_dimensions_session_inv; [apply static_ok_init|done].
  - eapply update_dimensions_session_inv; [apply IH|done].
  - destruct ev as [key now|]; simpl.
    + by apply key_session_inv.
    + eapply restyled_session_inv; [done|]. apply rich_text_restyled.
Qed.

(** C1: in a session state, for an offset [o] inside the text, the index
    mapper returns the visual line with the greatest start offset at most [o]
    (the last such line in the sorted list of start offsets) and the column
    [o - start], so that start plus column gives [o] back; the call changes
    nothing. *)
Theorem get_rich_line_no_correct ls st o :
  reachable ls st → 0 ≤ o < n_characters st →
  ∃ starts line_idx column s,
    rich_lines_start_idxs st = Some starts ∧
    get_rich_line_no o st = Ok (line_idx, column) st ∧
    0 ≤ line_idx ∧ starts !! Z.to_nat line_idx = Some s ∧
    s + column = o ∧ s ≤ o ∧
    (∀ j s', starts !! j = Some s' → s' ≤ o → s' ≤ s ∧ Z.of_nat j ≤ line_idx).
Proof.
  intros Hreach Ho.
  destruct (reachable_session_inv ls st Hreach) as
    (Hst & _ & _ & cur & back & acts & starts & orig & rl &
     _ & _ & _ & Hs & _ & _ & _ & Hasc & Hhead & _).
  specialize (Hhead (static_ok_in_range ls st o Hst Ho)).
  destruct (bisect_spec starts o Hasc) as ([Hr0 Hr1] & Hle & Hgt).
  assert (Hr : 1 ≤ Py.bisect starts o).
  { destruct (Z.lt_ge_cases 0 (Py.bisect starts o)) as [|Hz]; [lia|].
    specialize (Hgt 0%nat 0 ltac:(lia) Hhead). lia. }
  destruct (lookup_lt_is_Some_2 starts (Z.to_nat (Py.bisect starts o - 1))) as [s Hsl].
  { unfold Py.len in Hr1. lia. }
  exists starts, (Py.bisect starts o - 1), (o - s), s.
  split; [done|]. split.
  { unfold get_rich_line_no, bind, attr. rewrite Hs.
    rewrite get_nonneg by lia. by rewrite Hsl. }
  split; [lia|]. split; [done|]. split; [lia|].
  assert (s ≤ o) by (eapply Hle; [|done]; lia).
  split; [done|].
  intros j s' Hj Hs'.
  assert (Z.of_nat j < Py.bisect starts o).
  { destruct (Z.lt_ge_cases (Z.of_nat j) (Py.bisect starts o)) as [|Hge]; [done|].
    specialize (Hgt j s' Hge Hj). lia. }
  split; [|lia]. eapply Hasc; [|done..]. lia.
Qed.

(** C7, as the code has it: in every state of a session over a non-empty
    text the cursor is at least 0; it stays below [n] for as long as no
    keystroke has completed the session (the end timestamp is unset), and it
    is at most [n] whenever the start offsets of the visual lines all lie
    within the text. *)
Theorem cursor_range ls st :
  ls ≠ [] → reachable ls st →
  ∃ cur starts,
    curr_idx st = Some cur ∧ rich_lines_start_idxs st = Some starts ∧
    0 ≤ cur ∧
    (end_ts st = None → cur < n_characters st) ∧
    ((∀ s, s ∈ starts → s ≤ n_characters st) → cur ≤ n_characters st).
Proof.
  intros Hne Hreach.
  destruct (reachable_session_inv ls st Hreach) as
    (Hst & _ & _ & cur & back & acts & starts & orig & rl &
     Hc & _ & _ & Hs & _ & _ & _ & _ & _ & Hc0 & Hcn & Hend & _).
  exists cur, starts. split_and!; try done.
  - intros Hnone. destruct (Z.lt_ge_cases cur (n_characters st)) as [|Hge]; [done|].
    destruct (Hend Hge Hne) as [e He]. congruence.
  - intros Hin. destruct Hcn as [|Hcs]; [done|]. by apply Hin.
Qed.

(** ** Back references within a layout epoch *)

Lemma moved_forward_to_snoc o (tr : list (TypedText Style * event * TypedText Style))
    a ev b :
  moved_forward_to o (tr ++ [(a, ev, b)]) ↔
  moved_forward_to o tr ∨ ∃ p, curr_idx a = Some p ∧ curr_idx b = Some o ∧ p < o.
Proof.
  unfold moved_forward_to. split.
  - intros (a' & ev' & b' & p & Hin & Ha & Hb & Hlt).
    apply elem_of_app in Hin as [Hin|Hin].
    + left. by exists a', ev', b', p.
    + apply list_elem_of_singleton in Hin. simplify_eq. right. by exists p.
  - intros [(a' & ev' & b' & p & Hin & Ha & Hb & Hlt)|(p & Ha & Hb & Hlt)].
    + exists a', ev', b', p. split; [|done]. apply elem_of_app. by left.
    + exists a, ev, b, p. split; [|done]. apply elem_of_app. right.
      by apply list_elem_of_singleton.
Qed.

Lemma moved_forward_to_singleton o (a : TypedText Style) ev b :
  moved_forward_to o [(a, ev, b)] →
  ∃ p, curr_idx a = Some p ∧ curr_idx b = Some o ∧ p < o.
Proof.
  intros H. apply (moved_forward_to_snoc o [] a ev b) in H as [H|H]; [|done].
  destruct H as (a' & ev' & b' & p & Hin & _). by apply elem_of_nil in Hin.
Qed.

(** Within an epoch: the back references are the offsets the cursor moved
    forward to, and each one points to a smaller offset. *)
Definition epoch_inv (ls : list (list ascii)) (tr : list (TypedText Style * event * TypedText Style))
    st : Prop :=
  session_inv ls st ∧
  ∃ back, back_idxs st = Some back ∧
    (∀ k v, back !! k = Some v → v < k) ∧
    (∀ o, is_Some (back !! o) ↔ moved_forward_to o tr).

Lemma epoch_inv_same ls tr st ev st' back :
  epoch_inv ls tr st → session_inv ls st' →
  back_idxs st = Some back → back_idxs st' = Some back →
  (∀ p o, curr_idx st = Some p → curr_idx st' = Some o → o ≤ p) →
  epoch_inv ls (tr ++ [(st, ev, st')]) st'.
Proof.
  intros (_ & back0 & Hb0 & Hlt & Hiff) Hinv Hb Hb' Hle.
  rewrite Hb in Hb0. simplify_eq.
  split; [done|]. exists back0. split; [done|]. split; [done|].
  intros o. rewrite moved_forward_to_snoc, Hiff.
  split; [by left|]. intros [|(p & Hp & Ho & Hpo)]; [done|].
  specialize (Hle p o Hp Ho). lia.
Qed.

Lemma epoch_inv_forward ls tr st ev st' back cur cur' :
  epoch_inv ls tr st → session_inv ls st' →
  back_idxs st = Some back → back_idxs st' = Some (<[cur' := cur]> back) →
  curr_idx st = Some cur → curr_idx st' = Some cur' → cur < cur' →
  epoch_inv ls (tr ++ [(st, ev, st')]) st'.
Proof.
  intros (_ & back0 & Hb0 & Hlt & Hiff) Hinv Hb Hb' Hc Hc' Hcc.
  rewrite Hb in Hb0. simplify_eq.
  split; [done|]. exists (<[cur' := cur]> back0). split; [done|]. split.
  - intros k v. rewrite lookup_insert. case_decide; [intros [= <-]; lia|apply Hlt].
  - intros o. rewrite moved_forward_to_snoc, <- Hiff, lookup_insert.
    case_decide as Ho.
    + subst o. split; [|by eexists]. intros _. right. by exists cur.
    + split; [by left|]. intros [|(p & Hp & Ho' & Hpo)]; [done|]. congruence.
Qed.

Lemma epoch_inv_step ls tr st ev :
  epoch_inv ls tr st → degenerate_tab st ev = false →
  epoch_inv ls (tr ++ [(st, ev, step ev st)]) (step ev st).
Proof.
  intros Hinv Hnd. pose proof Hinv as (Hsi & back & Hb & Hlt & Hiff).
  pose proof Hsi as
    (Hst & _ & _ & cur & back1 & acts & starts & orig & rl &
     Hc & Hb1 & _ & Hs & _ & _ & _ & Hasc & Hhead & Hc0 & _).
  rewrite Hb in Hb1. symmetry in Hb1. simplify_eq.
  destruct ev as [key now|]; cbn [step].
  - pose proof (key_session_inv ls key now st Hsi) as Hsi'.
    pose proof (process_character_cases key now st cur back Hc Hb) as
      (_ & _ & _ & _ & cur' & back' & Hc' & Hb' & Heff & _).
    set (st' := state_of (process_character key now st)) in *.
    destruct Heff as [[-> ->]|[Hrange Heff]].
    { eapply epoch_inv_same; try done. intros p o. rewrite Hc, Hc'. intros; simplify_eq. lia. }
    destruct Heff as [|p Hch Hc1 Hp| Hch | starts0 s Hch Hs0 Hget | Hch1 Hch2].
    + eapply epoch_inv_same; try done. intros p o. rewrite Hc, Hc'. intros; simplify_eq. lia.
    + eapply epoch_inv_same; try done. intros p' o. rewrite Hc, Hc'. intros; simplify_eq.
      apply Hlt in Hp. lia.
    + unfold degenerate_tab in Hnd. rewrite Hc, Hch in Hnd.
      pose proof (takewhile_isspace_count_nonneg (Py.slice_from (text st) cur)) as Hcnt.
      assert (Ht : cur < tab_target st cur ≤ n_characters st - 1).
      { unfold tab_target in *.
        destruct (0 <=? cur) eqn:E1; [|lia]. destruct (cur <? n_characters st) eqn:E2; [|lia].
        simpl in Hnd. boolfacts. lia. }
      rewrite Z.min_r in Hc' by lia.
      eapply epoch_inv_forward; try done. lia.
    + rewrite Hs in Hs0. simplify_eq.
      pose proof (bisect_range starts0 cur) as Hbr.
      destruct (bisect_spec starts0 cur Hasc) as (_ & _ & Hgt).
      rewrite get_nonneg in Hget by lia.
      assert (cur < s).
      { eapply Hgt; [|done]. lia. }
      eapply epoch_inv_forward; done.
    + eapply epoch_inv_forward; try done. lia.
  - pose proof (rich_text_restyled st) as Hfr.
    eapply epoch_inv_same; try done.
    + eapply restyled_session_inv; done.
    + by rewrite (rs_back_idxs _ _ Hfr).
    + intros p o. rewrite (rs_curr_idx _ _ Hfr). intros; simplify_eq. lia.
Qed.

Lemma epoch_inv_run ls evs : ∀ tr st,
  epoch_inv ls tr st →
  Forall (λ '(a, ev, _), degenerate_tab a ev = false) (trace evs st) →
  epoch_inv ls (tr ++ trace evs st) (run evs st).
Proof.
  induction evs as [|ev evs IH]; intros tr st Hinv Hnd; simpl.
  - by rewrite app_nil_r.
  - simpl in Hnd. apply Forall_cons in Hnd as [Hnd1 Hnd].
    rewrite (cons_middle _ tr), app_assoc. apply IH; [|done].
    by apply epoch_inv_step.
Qed.

Lemma epoch_start_inv ls st0 : epoch_start ls st0 → epoch_inv ls [] st0.
Proof.
  intros (w & h & st & Hst & Hup).
  assert (static_ok ls st) as Hstatic.
  { destruct Hst as [->|Hr]; [apply static_ok_init|]. by apply reachable_session_inv in Hr as [? _]. }
  split; [by eapply update_dimensions_session_inv|].
  pose proof (update_dimensions_resets w h st) as (_ & _ & Hb).
  rewrite Hup in Hb. exists ∅. split; [done|]. split.
  - intros k v. by rewrite lookup_empty.
  - intros o. rewrite lookup_empty. split; [by intros []|].
    intros (a & ev & b & p & Hin & _). by apply elem_of_nil in Hin.
Qed.

(** C8, as the code has it: in an epoch in which no tab was pressed on a
    character that is not whitespace or on a whitespace run that reaches the
    end of the text, [back_idxs[o]] is defined exactly when the cursor moved
    forward to [o] from a smaller offset earlier in the epoch. *)
Theorem back_idxs_defined_iff_moved ls st0 evs :
  epoch_start ls st0 →
  Forall (λ '(a, ev, _), degenerate_tab a ev = false) (trace evs st0) →
  ∃ back, back_idxs (run evs st0) = Some back ∧
    ∀ o, is_Some (back !! o) ↔ moved_forward_to o (trace evs st0).
Proof.
  intros Hstart Hnd.
  destruct (epoch_inv_run ls evs [] st0 (epoch_start_inv ls st0 Hstart) Hnd)
    as (_ & back & Hb & _ & Hiff).
  by exists back.
Qed.

(** ** When the styling calls succeed *)

Lemma line_index_valid {A} (starts : list Z) (l : list A) idx :
  starts ≠ [] → length l = length starts →
  is_Some (Py.get l (Py.bisect starts idx - 1)).
Proof.
  intros Hne Hlen. apply get_is_Some.
  pose proof (bisect_range starts idx). unfold Py.len in *.
  destruct starts; [done|]. simpl in *. lia.
Qed.

(** The line buffers agree with the start offsets. *)
Definition layout_ok st : Prop :=
  ∃ starts orig rl,
    rich_lines_start_idxs st = Some starts ∧ orig_rich_lines st = Some orig ∧
    rich_lines st = Some rl ∧ starts ≠ [] ∧
    length orig = length starts ∧ length rl = length starts.

Lemma consistent_layout_ok st : consistent st → layout_ok st.
Proof. intros []. done. Qed.

Lemma restyled_layout_ok st st' : restyled st st' → layout_ok st → layout_ok st'.
Proof.
  intros [_ _ _ _ _ _ _ _ _ _ _ Hfs Hfo Hfr] (starts & orig & rl & Hs & Ho & Hr & Hne & Hlo & Hlr).
  rewrite Hr in Hfr. destruct (rich_lines st') as [rl'|] eqn:Hr'; [|done].
  exists starts, orig, rl'. split_and!; try congruence.
  simpl in Hfr. injection Hfr as Hfr.
  apply (f_equal length) in Hfr. rewrite !length_map in Hfr. congruence.
Qed.

Ltac index_contra :=
  match goal with
  | H : Py.get ?l (Py.bisect ?s ?i - 1) = None |- _ =>
      exfalso;
      let Hx := fresh in
      destruct (line_index_valid s l i) as [? Hx];
      [ done | rewrite ?length_set; congruence | congruence ]
  end.

Ltac run_style :=
  cbv beta iota zeta delta [style_wrong_char_at style_for_backspace_at
    style_correct_char_at style_cursor_location stylize_rich_line];
  let Q := fresh "Q" in
  match goal with |- ∃ st', ?E = Ok tt st' =>
    set (Q := λ r : outcome (TypedText Style) unit, ∃ st', r = Ok tt st');
    change (Q E)
  end;
  repeat mstep;
  mcbn; subst Q; cbv beta; try (eexists; reflexivity);
  try index_contra.

Lemma style_wrong_char_at_ok idx st :
  layout_ok st → ∃ st', style_wrong_char_at idx st = Ok tt st'.
Proof.
  intros (starts & orig & rl & Hs & Ho & Hr & Hne & Hlo & Hlr).
  destruct st; simpl in *; simplify_eq. run_style.
Qed.

Lemma style_cursor_location_ok st cur :
  layout_ok st → curr_idx st = Some cur → ∃ st', style_cursor_location st = Ok tt st'.
Proof.
  intros (starts & orig & rl & Hs & Ho & Hr & Hne & Hlo & Hlr) Hc.
  destruct st; simpl in *; simplify_eq. run_style.
Qed.

Lemma style_for_backspace_at_ok idx st back :
  layout_ok st → back_idxs st = Some back → (idx ≠ 0 → is_Some (back !! idx)) →
  ∃ st', style_for_backspace_at idx st = Ok tt st'.
Proof.
  intros (starts & orig & rl & Hs & Ho & Hr & Hne & Hlo & Hlr) Hb Hidx.
  destruct st; simpl in *; simplify_eq. run_style.
  boolfacts. destruct (Hidx ltac:(done)). congruence.
Qed.

Lemma style_correct_char_at_ok idx st c :
  layout_ok st → Py.get (text st) idx = Some c →
  (Py.isspace_char c = true ∨ ∀ s, is_Some (typed_style s)) →
  ∃ st', style_correct_char_at idx st = Ok tt st'.
Proof.
  intros (starts & orig & rl & Hs & Ho & Hr & Hne & Hlo & Hlr) Hc Hty.
  destruct st; simpl in *; simplify_eq. run_style.
  all: try congruence.
  all: destruct Hty as [|Hty]; [congruence|].
  all: match goal with H : typed_style ?s = None |- _ => destruct (Hty s); congruence end.
Qed.

(** ** Backspace and tab *)

(** Use a styling call that is known to succeed. *)
Ltac by_ok Hok Hfr :=
  let st2 := fresh "st" in
  let H := fresh "Hok" in
  let Hf := fresh "Hfr" in
  edestruct Hok as [st2 H];
  [ solve [ eassumption | reflexivity ] ..
  | pose proof Hfr as Hf; rewrite H in Hf |- *; cbn [state_of] in Hf;
    destruct st2; destruct Hf; cbn in *; simplify_eq ].

Ltac kstep :=
  mcbn;
  lazymatch goal with
  | |- ?Q ?E =>
      head_scrutinee E ltac:(fun X =>
        lazymatch X with
        | style_for_backspace_at ?i ?s =>
            by_ok (style_for_backspace_at_ok i s) (style_for_backspace_at_restyled i s)
        | style_wrong_char_at ?i ?s =>
            by_ok (style_wrong_char_at_ok i s) (style_wrong_char_at_restyled i s)
        | style_correct_char_at ?i ?s =>
            by_ok (style_correct_char_at_ok i s) (style_correct_char_at_restyled i s)
        | Ok _ _ => fail
        | Raise _ _ => fail
        | bool_decide (_ = _) =>
            first [ rewrite bool_decide_eq_true_2 by done
                  | rewrite bool_decide_eq_false_2 by done
                  | destruct X eqn:? ]
        | _ => destruct X eqn:?
        end)
  end.

Lemma takewhile_isspace_count_head c s :
  Py.takewhile_isspace_count (c :: s) =
  if Py.isspace_char c then 1 + Py.takewhile_isspace_count s else 0.
Proof. done. Qed.

Lemma slice_from_lookup {A} (l : list A) i x :
  0 ≤ i → l !! Z.to_nat i = Some x →
  ∃ l', Py.slice_from l i = x :: l'.
Proof.
  intros Hi Hx. unfold Py.slice_from, Py.clamp.
  destruct (i <? 0) eqn:E; [lia|].
  pose proof (lookup_lt_Some _ _ _ Hx). unfold Py.len.
  rewrite Z.min_l by lia.
  exists (drop (S (Z.to_nat i)) l). by apply drop_S.
Qed.

(** C4: a backspace at cursor [o] returns normally, appends a BACKSPACE
    action to the actions of offset [o], and sets the cursor to 0 when [o] is
    0 and to [back_idxs[o]] otherwise; it needs [back_idxs[o]] to be defined
    when [o > 0]. *)
Theorem backspace_returns_to_back_reference st o now :
  consistent st → curr_idx st = Some o → 0 ≤ o < n_characters st →
  (o ≠ 0 → is_Some (back_reference st o)) →
  ∃ acts x,
    actions st = Some acts ∧ acts !! Z.to_nat o = Some x ∧
    ∃ st',
    type_character "backspace" now st = Ok tt st' ∧
    actions st' =
      Some (<[Z.to_nat o := x ++ [mkAction "backspace" STATUS_BACKSPACE now]]> acts) ∧
    (o = 0 → curr_idx st' = Some 0) ∧
    (o ≠ 0 → curr_idx st' = back_reference st o) ∧
    back_idxs st' = back_idxs st.
Proof.
  intros [_ _ _ [back Hb] (acts & Ha & Hlen) Hlay] Hc Ho Hback.
  destruct (lookup_lt_is_Some_2 acts (Z.to_nat o)) as [x Hx].
  { unfold n_characters, Py.len in Ho. lia. }
  exists acts, x.
  assert (Hback' : o ≠ 0 → is_Some (back !! o)).
  { intros Hne. specialize (Hback Hne). unfold back_reference in Hback.
    by rewrite Hb in Hback. }
  unfold back_reference. rewrite Hb. clear Hback.
  destruct st as [sts ets ls lsi txt g w h c acts' b starts orig rl];
    simpl in *; simplify_eq.
  unfold n_characters in Ho. simpl in Ho.
  assert (Hget : Py.get acts o = Some x) by (by rewrite get_nonneg by lia).
  unfold type_character.
  match goal with |- _ ∧ _ ∧ ∃ st', ?E = Ok tt st' ∧ @?P st' =>
    split; [done|]; split; [done|];
    set (Q := λ r : outcome (TypedText Style) unit, ∃ st', r = Ok tt st' ∧ P st');
    change (Q E)
  end.
  repeat kstep.
  all: mcbn; subst Q; cbv beta; boolfacts; try lia; try congruence; try done.
  all: try (exfalso; by destruct (Hback' ltac:(done)) as [? ?]).
  all: eexists; split; [reflexivity|]; fields_cbn; simplify_eq.
  all: rewrite set_nonneg by lia; split_and!; try done; try (intros; lia).
Qed.

(** C2, as the code has it: an invalid tab at cursor [o] returns normally
    and appends a WRONG action to the actions of offset [o]; it then sets
    the cursor to [min(n - 1, o + k)], [k] being the length of the whitespace
    run that starts at [o], and records [back_idxs[o + k] = o]. The cursor is
    unchanged when the character at [o] is not whitespace, or [o] is the last
    offset; otherwise it moves forward. *)
Theorem invalid_tab_records_wrong st o now c :
  consistent st → curr_idx st = Some o → 0 ≤ o < n_characters st →
  text st !! Z.to_nat o = Some c →
  (c ≠ space ∨ o ≠ 0 ∧ ∃ p, text st !! Z.to_nat (o - 1) = Some p ∧ p ≠ newline) →
  ∃ acts x back,
    actions st = Some acts ∧ acts !! Z.to_nat o = Some x ∧ back_idxs st = Some back ∧
    ∃ st',
    type_character "tab" now st = Ok tt st' ∧
    actions st' = Some (<[Z.to_nat o := x ++ [mkAction "tab" STATUS_WRONG now]]> acts) ∧
    curr_idx st' = Some (Z.min (n_characters st - 1) (tab_target st o)) ∧
    back_idxs st' = Some (<[tab_target st o := o]> back) ∧
    (Py.isspace_char c = false ∨ o = n_characters st - 1 → curr_idx st' = Some o) ∧
    (Py.isspace_char c = true → o < n_characters st - 1 →
     ∃ cur', curr_idx st' = Some cur' ∧ o < cur').
Proof.
  intros [_ _ _ [back Hb] (acts & Ha & Hlen) Hlay] Hc Ho Htxt Hinvalid.
  destruct (lookup_lt_is_Some_2 acts (Z.to_nat o)) as [x Hx].
  { unfold n_characters, Py.len in Ho. lia. }
  exists acts, x, back.
  destruct (slice_from_lookup (text st) o c ltac:(lia) Htxt) as [rest Hrest].
  pose proof (takewhile_isspace_count_nonneg rest) as Hcnt.
  assert (Htarget : tab_target st o =
                    o + if Py.isspace_char c then 1 + Py.takewhile_isspace_count rest else 0).
  { unfold tab_target. by rewrite Hrest. }
  destruct st as [sts ets ls lsi txt g w h c' acts' b starts orig rl];
    simpl in *; simplify_eq.
  unfold n_characters, tab_target in *. simpl in *.
  assert (Hget : Py.get acts o = Some x) by (by rewrite get_nonneg by lia).
  assert (Hgett : Py.get txt o = Some c) by (by rewrite get_nonneg by lia).
  unfold type_character.
  match goal with |- _ ∧ _ ∧ _ ∧ ∃ st', ?E = Ok tt st' ∧ @?P st' =>
    split; [done|]; split; [done|]; split; [done|];
    set (Q := λ r : outcome (TypedText Style) unit, ∃ st', r = Ok tt st' ∧ P st');
    change (Q E)
  end.
  repeat kstep.
  all: mcbn; subst Q; cbv beta; boolfacts; try lia; try congruence; try done.
  all: try (eexists; split; [reflexivity|]; fields_cbn;
            rewrite set_nonneg by lia; rewrite Htarget;
            split; [done|]; split; [done|]; split; [done|]; split;
            [ intros [Hsp|Heq]; f_equal; [rewrite Hsp; lia|destruct (Py.isspace_char c); lia]
            | intros Hsp Hlt; eexists; split; [reflexivity|]; rewrite Hsp; lia ]).
  all: exfalso.
  all: destruct Hinvalid as [?|(? & p & Hp & ?)];
         [congruence|rewrite <- get_nonneg in Hp by lia; congruence].
Qed.

(** ** Reading the frame *)

Lemma plain_foldl_append_text (l : list (Text Style)) (acc : Text Style) :
  plain (foldl (Rich.append_text style_truthy) acc l) = plain acc ++ concat (map plain l).
Proof.
  revert acc. induction l as [|t l IH]; intros acc; simpl.
  - by rewrite app_nil_r.
  - rewrite IH, plain_append_text. by rewrite <- app_assoc.
Qed.

Lemma map_slice {A B} (f : A → B) (l : list A) lo hi :
  map f (Py.slice l lo hi) = Py.slice (map f l) lo hi.
Proof.
  unfold Py.slice, Py.clamp, Py.len.
  by rewrite !length_map, skipn_map, firstn_map.
Qed.

Lemma frame_plain (rl : list (Text Style)) sl el :
  plain (foldl (Rich.append_text style_truthy) Rich.empty (Py.slice rl sl el))
  = concat (Py.slice (map plain rl) sl el).
Proof. by rewrite plain_foldl_append_text, map_slice. Qed.

(** What a successful read of [rich_text] does to the state. *)
Lemma rich_text_effect st frame st1 :
  rich_text st = Ok frame st1 →
  ∃ cur rl line_idx column t,
    curr_idx st = Some cur ∧ rich_lines st = Some rl ∧
    get_rich_line_no cur st = Ok (line_idx, column) st ∧
    Py.get rl line_idx = Some t ∧
    st1 = set_rich_lines
            (Py.set rl line_idx
               (Rich.stylize style_truthy t cursor_style
                  (gutter_col_width st + column + 1) (gutter_col_width st + column + 2)))
            st.
Proof.
  destruct st as [sts ets ls lsi txt g w h c acts b starts orig rl].
  unfold rich_text.
  cbv beta iota zeta delta [style_cursor_location stylize_rich_line].
  match goal with |- ?E = _ → ?P =>
    set (Q := λ r : outcome (TypedText Style) (Text Style), r = Ok frame st1 → P);
    change (Q E)
  end.
  repeat mstep.
  all: mcbn; subst Q; cbv beta; try done.
  all: intros [= <- <-]; simplify_eq; eexists _, _, _, _, _.
  all: split; [reflexivity|]; split; [reflexivity|].
  all: split; [cbv beta iota zeta delta [get_rich_line_no]; mcbn;
               repeat match goal with H : _ = _ |- _ => rewrite H end; reflexivity|].
  all: split; [eassumption|reflexivity].
Qed.

(** Reading twice: the second read succeeds and its frame has the same text. *)
Lemma rich_text_again st frame st1 :
  rich_text st = Ok frame st1 →
  ∃ frame2 st2, rich_text st1 = Ok frame2 st2 ∧ plain frame2 = plain frame.
Proof.
  intros Hrun. pose proof (rich_text_restyled st) as Hfr.
  rewrite Hrun in Hfr. cbn [state_of] in Hfr. revert Hrun.
  destruct st as [sts ets ls lsi txt g w h c acts b starts orig rl].
  destruct st1 as [sts1 ets1 ls1 lsi1 txt1 g1 w1 h1 c1 acts1 b1 starts1 orig1 rl1].
  destruct Hfr as [? ? ? ? ? ? ? ? ? ? ? ? ? Hrl]. simpl in *. simplify_eq.
  unfold rich_text.
  cbv beta iota zeta delta [style_cursor_location stylize_rich_line].
  match goal with |- ?E = _ → ∃ f2 s2, ?E2 = _ ∧ @?P f2 =>
    set (Q := λ r : outcome (TypedText Style) (Text Style),
                r = Ok frame
                      (mkTypedText sts ets ls lsi txt g w h c acts b starts orig rl1) →
                ∃ f2 s2, E2 = Ok f2 s2 ∧ P f2);
    change (Q E)
  end.
  repeat mstep.
  all: mcbn; subst Q; cbv beta; try done.
  all: intros [= <- <-]; simplify_eq.
  all: clear Hrl.
  all: match goal with |- ∃ f2 s2, ?E2 = _ ∧ @?P f2 =>
         set (Q := λ r : outcome (TypedText Style) (Text Style),
                     ∃ f2 s2, r = Ok f2 s2 ∧ P f2);
         change (Q E2)
       end.
  all: repeat mstep.
  all: mcbn; subst Q; cbv beta; simplify_eq.
  all: try (eexists _, _; split; [reflexivity|];
            rewrite !frame_plain; f_equal; f_equal;
            erewrite !map_plain_set by (done || apply plain_stylize); done).
  all: exfalso.
  all: repeat match goal with
       | H : Py.get _ _ = Some _ |- _ => apply get_Some_bounds in H
       | H : Py.get ?l ?i = None |- _ =>
           let Hx := fresh in
           destruct (get_is_Some l i) as [? Hx]; [|congruence]; clear H
       end.
  all: rewrite ?len_set in *; lia.
Qed.

(** C9, as the code has it: a read of [rich_text] leaves the cursor, the
    action log, the back references, the timestamps, the layout and the text
    of every styled line unchanged, and a second read returns a frame with
    the same text. It is not free of effects: when it succeeds it has
    restyled, with the cursor style at the cursor's column, the styled line
    of the cursor's visual line. *)
Theorem rich_text_restyles_cursor_line st :
  restyled st (state_of (rich_text st)) ∧
  ∀ frame st1, rich_text st = Ok frame st1 →
    (∃ frame2 st2, rich_text st1 = Ok frame2 st2 ∧ plain frame2 = plain frame) ∧
    ∃ cur rl line_idx column t,
      curr_idx st = Some cur ∧ rich_lines st = Some rl ∧
      get_rich_line_no cur st = Ok (line_idx, column) st ∧
      Py.get rl line_idx = Some t ∧
      st1 = set_rich_lines
              (Py.set rl line_idx
                 (Rich.stylize style_truthy t cursor_style
                    (gutter_col_width st + column + 1) (gutter_col_width st + column + 2)))
              st.
Proof.
  split; [apply rich_text_restyled|].
  intros frame st1 Hrun. split; [by eapply rich_text_again|by eapply rich_text_effect].
Qed.

(** ** The two-character session *)

(** Evaluate a run up to the next call of [typed_style], and use that the
    call returns a style. *)
Ltac eval_run :=
  lazy -[typed_style get_style_at_offset style_truthy gutter_style cursor_style
         wrong_style highlight_lines wrap].

Ltac eval_typed Hty :=
  eval_run; repeat (rewrite Hty; eval_run).

(** C6, as the code has it: in the session over the single line "ab" (text
    "ab" followed by a line break, so [n = 3]), typing 'a' then 'b' records
    both as CORRECT, gives accuracy 1 and no WRONG character, and leaves the
    cursor at 2 with the session not finished; the session finishes with the
    third keystroke, the line break, which sets the end timestamp. *)
Theorem two_correct_keys_then_newline w h t1 t2 now1 now2 :
  highlight_lines (text (init (Style:=Style) [list_ascii_of_string "ab"])) = [t1] →
  wrap t1 (w - (gutter_col_width (init (Style:=Style) [list_ascii_of_string "ab"]) + 1))
    = [t2] →
  plain t2 = list_ascii_of_string "ab" →
  (∀ s, is_Some (typed_style s)) →
  ∃ st0 st2,
    update_dimensions w h (init [list_ascii_of_string "ab"]) = Ok tt st0 ∧
    (∃ st1, process_character "a" now1 st0 = Ok tt st1 ∧
            process_character "b" now2 st1 = Ok tt st2) ∧
    actions st2 = Some [[mkAction "a" STATUS_CORRECT now1];
                        [mkAction "b" STATUS_CORRECT now2]; []] ∧
    (∃ q, compute_accuracy st2 = Ok q st2 ∧ (q == 1)%Q) ∧
    n_wrong_characters st2 = Ok 0 st2 ∧
    curr_idx st2 = Some 2 ∧ n_characters st2 = 3 ∧
    check_finished st2 = Ok false st2 ∧ end_ts st2 = None ∧
    ∀ now3, ∃ st3,
      process_character "enter" now3 st2 = Raise ZeroDivisionError st3 ∧
      end_ts st3 = Some now3 ∧ check_finished st3 = Ok true st3.
Proof.
  intros Hhl Hwrap Hplain Hty.
  assert (∃ f, ∀ s, typed_style s = Some (f s)) as [typed Htyped].
  { exists (λ s, default s (typed_style s)). intros s. by destruct (Hty s) as [? ->]. }
  clear Hty.
  destruct t2 as [p bs sp]. simpl in Hplain. subst p.
  eexists. eexists.
  split.
  { rewrite update_dimensions_unfold. unfold create_rich_lines.
    cbv beta iota zeta delta [bind assign attr ret]. fields_cbn.
    rewrite Hhl. cbn [lines_loop].
    cbv beta iota zeta delta [bind assign attr ret]. fields_cbn.
    rewrite Hwrap. eval_run. reflexivity. }
  split.
  { eexists. split.
    - eval_typed Htyped. reflexivity.
    - eval_typed Htyped. reflexivity. }
  split; [reflexivity|].
  split; [eexists; split; [reflexivity|reflexivity]|].
  split; [reflexivity|]. split; [reflexivity|]. split; [reflexivity|].
  split; [reflexivity|]. split; [reflexivity|].
  intros now3. eexists. split; [|split].
  - eval_typed Htyped. reflexivity.
  - reflexivity.
  - reflexivity.
Qed.

(** ** More about single keystrokes *)

(** Follow an equation of the context where the run is stuck on its left
    side; otherwise branch as [kstep] does. *)
Ltac xstep :=
  first
    [ mcbn;
      lazymatch goal with
      | |- ?Q ?E =>
          head_scrutinee E ltac:(fun X =>
            match goal with H : X = _ |- _ => rewrite H end)
      end
    | kstep ].

(** X1: with the cursor outside the text, as it is once the session is
    complete, [type_character] raises [IndexError] before it touches the
    object, not even the clock; [process_character] either ignores the key
    or lets that exception through. *)
Theorem keystroke_outside_text ch key now st cur :
  curr_idx st = Some cur → ¬ (0 ≤ cur < n_characters st) →
  type_character ch now st = Raise IndexError st ∧
  (process_character key now st = Raise IndexError st ∨
   process_character key now st = Ok tt st).
Proof.
  intros Hc Hout.
  assert (H1 : ∀ ch', type_character ch' now st = Raise IndexError st).
  { intros ch'. unfold type_character, bind, attr. rewrite Hc.
    unfold n_characters in Hout.
    destruct (negb _) eqn:E; [done|]. boolfacts. lia. }
  split; [apply H1|].
  unfold process_character. destruct (_ && _); [by right|left; apply H1].
Qed.

(** X7: a backspace at a cursor [o > 0] that has no back reference raises
    [KeyError], after the BACKSPACE action has been logged at [o]; the
    cursor, the back references and the end timestamp stay as they were. *)
Theorem backspace_without_back_reference st o now :
  consistent st → curr_idx st = Some o → 0 < o < n_characters st →
  back_reference st o = None →
  ∃ acts x st',
    actions st = Some acts ∧ acts !! Z.to_nat o = Some x ∧
    type_character "backspace" now st = Raise KeyError st' ∧
    actions st' =
      Some (<[Z.to_nat o := x ++ [mkAction "backspace" STATUS_BACKSPACE now]]> acts) ∧
    curr_idx st' = Some o ∧ back_idxs st' = back_idxs st ∧ end_ts st' = end_ts st.
Proof.
  intros [_ _ _ [back Hb] (acts & Ha & Hlen) Hlay] Hc Ho Hback.
  destruct (lookup_lt_is_Some_2 acts (Z.to_nat o)) as [x Hx].
  { unfold n_characters, Py.len in Ho. lia. }
  exists acts, x.
  unfold back_reference in Hback. rewrite Hb in Hback. simpl in Hback.
  destruct Hlay as (starts & orig & rl & Hs & Ho' & Hr & Hne & Hlo & Hlr).
  destruct st as [sts ets ls lsi txt g w h c acts' b starts' orig' rl'];
    simpl in *; simplify_eq.
  unfold n_characters in Ho. simpl in Ho.
  assert (Hget : Py.get acts o = Some x) by (by rewrite get_nonneg by lia).
  unfold type_character.
  cbv beta iota zeta delta [style_for_backspace_at stylize_rich_line].
  match goal with |- ∃ st', _ ∧ _ ∧ ?E = ?R st' ∧ @?P st' =>
    set (Q := λ r : outcome (TypedText Style) unit,
                ∃ st', Some acts = Some acts ∧ acts !! Z.to_nat o = Some x ∧
                       r = R st' ∧ P st');
    change (Q E)
  end.
  repeat xstep.
  all: mcbn; subst Q; cbv beta; boolfacts; try lia; try congruence; try index_contra.
  all: eexists; split; [done|]; split; [done|]; split; [reflexivity|]; fields_cbn.
  all: rewrite ?set_nonneg by lia; split_and!; done.
Qed.

Lemma rest_of_rich_line_pieces o st r :
  rest_of_rich_line o st = Ok r st →
  ∃ starts s orig rich_line,
    rich_lines_start_idxs st = Some starts ∧
    Py.get starts (Py.bisect starts o - 1) = Some s ∧
    orig_rich_lines st = Some orig ∧
    Py.get orig (Py.bisect starts o - 1) = Some rich_line ∧
    r = Py.slice_from (plain rich_line) (o - s + gutter_col_width st + 1).
Proof.
  unfold rest_of_rich_line, get_rich_line_no, orig_rich_line, bind, attr, orelse, ret, raise.
  destruct (rich_lines_start_idxs st) as [starts|]; [|done].
  destruct (Py.get starts _) as [s|] eqn:Hs; [|done].
  destruct (orig_rich_lines st) as [orig|]; [|done].
  destruct (Py.get orig _) as [rich_line|] eqn:Hl; [|done].
  intros [= <-]. by eexists _, _, _, _.
Qed.

(** In a consistent state the line-completion test can be made. *)
Lemma rest_of_rich_line_ok o st :
  consistent st → ∃ r, rest_of_rich_line o st = Ok r st.
Proof.
  intros [_ _ _ _ _ (starts & orig & rl & Hs & Ho & Hr & Hne & Hlo & Hlr)].
  unfold rest_of_rich_line, get_rich_line_no, orig_rich_line, bind, attr, orelse, ret, raise.
  rewrite Hs.
  destruct (line_index_valid starts starts o Hne eq_refl) as [s ->].
  rewrite Ho.
  destruct (line_index_valid starts orig o Hne Hlo) as [l ->].
  by eexists.
Qed.

(** X4: a tab on a space at the start of a line is valid: it returns
    normally, logs a CORRECT action at the cursor [o], moves the cursor to
    the end of the whitespace run, [min(n - 1, o + k)] with [k >= 1], and
    records [back_idxs[o + k] = o]; it never completes the session. *)
Theorem valid_tab_skips_indentation st o now :
  consistent st → curr_idx st = Some o → 0 ≤ o < n_characters st →
  text st !! Z.to_nat o = Some space →
  (o = 0 ∨ text st !! Z.to_nat (o - 1) = Some newline) →
  ∃ acts x back st',
    actions st = Some acts ∧ acts !! Z.to_nat o = Some x ∧ back_idxs st = Some back ∧
    type_character "tab" now st = Ok tt st' ∧
    actions st' = Some (<[Z.to_nat o := x ++ [mkAction "tab" STATUS_CORRECT now]]> acts) ∧
    curr_idx st' = Some (Z.min (n_characters st - 1) (tab_target st o)) ∧
    back_idxs st' = Some (<[tab_target st o := o]> back) ∧
    o < tab_target st o ∧ end_ts st' = end_ts st.
Proof.
  intros [_ _ _ [back Hb] (acts & Ha & Hlen) Hlay] Hc Ho Htxt Hvalid.
  destruct (lookup_lt_is_Some_2 acts (Z.to_nat o)) as [x Hx].
  { unfold n_characters, Py.len in Ho. lia. }
  exists acts, x, back.
  destruct (slice_from_lookup (text st) o space ltac:(lia) Htxt) as [rest Hrest].
  pose proof (takewhile_isspace_count_nonneg rest) as Hcnt.
  assert (Htarget : tab_target st o = o + (1 + Py.takewhile_isspace_count rest)).
  { unfold tab_target. by rewrite Hrest. }
  assert (Hsp : Py.isspace_char space = true ∨ ∀ s : Style, is_Some (typed_style s))
    by (by left).
  destruct st as [sts ets ls lsi txt g w h c' acts' b starts orig rl];
    simpl in *; simplify_eq.
  unfold n_characters, tab_target in *. simpl in *.
  assert (Hget : Py.get acts o = Some x) by (by rewrite get_nonneg by lia).
  assert (Hgett : Py.get txt o = Some space) by (by rewrite get_nonneg by lia).
  unfold type_character.
  match goal with |- ∃ st', _ ∧ _ ∧ _ ∧ ?E = Ok tt st' ∧ @?P st' =>
    set (Q := λ r : outcome (TypedText Style) unit, ∃ st', r = Ok tt st' ∧ P st');
    cut (Q E); [intros (st' & ? & ?); by exists st'|]
  end.
  repeat xstep.
  all: mcbn; subst Q; cbv beta; boolfacts; try lia; try congruence; try done.
  all: try (eexists; split; [reflexivity|]; fields_cbn;
            rewrite set_nonneg by lia; rewrite Htarget; split_and!; try done; lia).
  all: exfalso.
  all: destruct Hvalid as [?|Hp]; [lia|rewrite <- get_nonneg in Hp by lia; congruence].
Qed.

(** An ordinary key: neither backspace nor tab, and not a space that
    completes the visual line. *)
Lemma ordinary_key st o now ch c r :
  consistent st → curr_idx st = Some o → 0 ≤ o < n_characters st →
  text st !! Z.to_nat o = Some c →
  ch ≠ "backspace"%string → ch ≠ "tab"%string →
  rest_of_rich_line o st = Ok r st →
  (ch = " "%string → Py.isspace r = false) →
  (key_is_char ch c = true →
   Py.isspace_char c = true ∨ ∀ s : Style, is_Some (typed_style s)) →
  ∃ acts x back st',
    actions st = Some acts ∧ acts !! Z.to_nat o = Some x ∧ back_idxs st = Some back ∧
    state_of (type_character ch now st) = st' ∧
    actions st' =
      Some (<[Z.to_nat o :=
                x ++ [mkAction ch (if key_is_char ch c then STATUS_CORRECT
                                   else STATUS_WRONG) now]]> acts) ∧
    curr_idx st' = Some (o + 1) ∧
    back_idxs st' = Some (<[o + 1 := o]> back) ∧
    start_ts st' = Some (default now (start_ts st)) ∧
    (o + 1 < n_characters st →
     type_character ch now st = Ok tt st' ∧ end_ts st' = end_ts st) ∧
    (o + 1 = n_characters st →
     type_character ch now st = Raise ZeroDivisionError st' ∧ end_ts st' = Some now).
Proof.
  intros Hcons Hc Ho Htxt Hnb Hnt Hrest Hsp Hsty.
  apply rest_of_rich_line_pieces in Hrest as
    (starts & s & orig & rich_line & Hs & Hgs & Hor & Hgl & ->).
  destruct Hcons as [_ _ _ [back Hb] (acts & Ha & Hlen) Hlay].
  destruct (lookup_lt_is_Some_2 acts (Z.to_nat o)) as [x Hx].
  { unfold n_characters, Py.len in Ho. lia. }
  exists acts, x, back.
  destruct st as [sts ets ls lsi txt g w h c' acts' b starts' orig' rl];
    simpl in *; simplify_eq.
  unfold n_characters in *. simpl in *.
  assert (Hget : Py.get acts o = Some x) by (by rewrite get_nonneg by lia).
  assert (Hgett : Py.get txt o = Some c) by (by rewrite get_nonneg by lia).
  eexists; split; [done|]; split; [done|]; split; [done|]; split; [reflexivity|].
  destruct (key_is_char ch c) eqn:Hkey.
  all: match goal with |- context [type_character ?a ?b ?c] =>
         pattern (type_character a b c) end.
  all: match goal with |- ?Q0 _ => set (Q := Q0) end.
  all: unfold type_character.
  all: specialize (Hsty ltac:(done)) || clear Hsty.
  all: repeat xstep.
  all: mcbn; subst Q; cbv beta; boolfacts; try lia; try congruence; try done.
  all: try (exfalso; match goal with H : Py.isspace _ = true |- _ =>
              rewrite Hsp in H by done; discriminate H end).
  all: fields_cbn; rewrite ?set_nonneg by lia; rewrite ?Z.min_r by lia.
  all: split_and!; try done; try (intros; lia); try (intros; split; [reflexivity|done]).
Qed.


(** ** The session clock *)

(** What a keystroke can do to the two timestamps. *)
Lemma type_character_clock ch now st :
  let r := type_character ch now st in
  (start_ts (state_of r) = start_ts st ∨
   start_ts st = None ∧ start_ts (state_of r) = Some now ∧
   ∃ cur, curr_idx st = Some cur ∧ 0 ≤ cur < n_characters st) ∧
  (end_ts (state_of r) = end_ts st ∨
   end_ts (state_of r) = Some now ∧ r = Raise ZeroDivisionError (state_of r) ∧
   ∃ cur', curr_idx (state_of r) = Some cur' ∧ n_characters st ≤ cur').
Proof.
  destruct st as [sts ets ls lsi txt g w h c acts b starts orig rl].
  cbv zeta.
  match goal with |- context [type_character ?a ?b ?c] =>
    pattern (type_character a b c) end.
  match goal with |- ?Q0 _ => set (Q := Q0) end.
  unfold type_character.
  repeat mstep.
  all: mcbn; subst Q; cbv beta; unfold n_characters; proj_cbn; boolfacts.
  all: split;
    [ first [ left; reflexivity
            | right; split; [reflexivity|]; split; [reflexivity|];
              eexists; split; [reflexivity|lia] ]
    | first [ left; reflexivity
            | right; split; [reflexivity|]; split; [reflexivity|];
              eexists; split; [reflexivity|done] ] ].
Qed.

(** A keystroke inside the text is logged at the cursor, whatever else
    happens to it. *)
Lemma type_character_logs st o now ch :
  consistent st → curr_idx st = Some o → 0 ≤ o < n_characters st →
  ∃ acts x a,
    actions st = Some acts ∧ acts !! Z.to_nat o = Some x ∧
    actions (state_of (type_character ch now st)) =
      Some (<[Z.to_nat o := x ++ [a]]> acts) ∧
    pressed_key a = ch ∧ ts a = now ∧
    (status a = STATUS_BACKSPACE ↔ ch = "backspace"%string).
Proof.
  intros [_ _ _ [back Hb] (acts & Ha & Hlen) Hlay] Hc Ho.
  destruct (lookup_lt_is_Some_2 acts (Z.to_nat o)) as [x Hx].
  { unfold n_characters, Py.len in Ho. lia. }
  destruct (lookup_lt_is_Some_2 (text st) (Z.to_nat o)) as [c Htxt].
  { unfold n_characters, Py.len in Ho. lia. }
  assert (Hprev : o ≠ 0 → is_Some (Py.get (text st) (o - 1))).
  { intros Hne. apply get_is_Some. unfold n_characters in Ho. lia. }
  destruct Hlay as (starts & orig & rl & Hs & Ho' & Hr & Hne & Hlo & Hlr).
  exists acts, x.
  destruct st as [sts ets ls lsi txt g w h c' acts' b starts' orig' rl'];
    simpl in *; simplify_eq.
  unfold n_characters in Ho. simpl in Ho.
  assert (Hget : Py.get acts o = Some x) by (by rewrite get_nonneg by lia).
  assert (Hgett : Py.get txt o = Some c) by (by rewrite get_nonneg by lia).
  match goal with |- context [type_character ?a ?b ?c] =>
    pattern (type_character a b c) end.
  match goal with |- ?Q0 _ => set (Q := Q0) end.
  unfold type_character.
  repeat first
    [ mcbn;
      lazymatch goal with
      | |- ?Q ?E =>
          head_scrutinee E ltac:(fun X =>
            match goal with H : X = _ |- _ => rewrite H end)
      end
    | mstep ].
  all: mcbn; subst Q; cbv beta; proj_cbn; boolfacts; try lia; try congruence.
  all: try index_contra.
  all: try (exfalso; destruct Hprev as [? ?]; [done|congruence]).
  all: eexists; split; [done|]; split; [done|]; rewrite ?set_nonneg by lia.
  all: split; [reflexivity|]; split; [done|]; split; [done|]; simpl.
  all: split; intros; congruence.
Qed.

Lemma sum_insert {A} (f : A → Z) (l : list A) (i : nat) (x y : A) :
  l !! i = Some x →
  foldr Z.add 0 (map f (<[i := y]> l)) = foldr Z.add 0 (map f l) - f x + f y.
Proof.
  revert i. induction l as [|z l IH]; intros [|i] Hi; simpl in *; simplify_eq; [lia|].
  rewrite (IH i Hi). lia.
Qed.

(** X9: a keystroke with the cursor inside the text is counted exactly once,
    whether it returns or raises: [n_actions] grows by one, and
    [n_backspace_actions] by one for a backspace and by nothing otherwise. *)
Theorem keystroke_counts_once st o now ch n b :
  consistent st → curr_idx st = Some o → 0 ≤ o < n_characters st →
  n_actions st = Ok n st → n_backspace_actions st = Ok b st →
  let st' := state_of (type_character ch now st) in
  n_actions st' = Ok (n + 1) st' ∧
  n_backspace_actions st' =
    Ok (b + if bool_decide (ch = "backspace"%string) then 1 else 0) st'.
Proof.
  intros Hcons Hc Ho Hn Hb st'.
  destruct (type_character_logs st o now ch Hcons Hc Ho) as
    (acts & x & a & Ha & Hx & Ha' & _ & _ & Hst).
  fold st' in Ha'.
  unfold n_actions, n_backspace_actions, bind, attr, ret in *.
  rewrite Ha in Hn, Hb. rewrite Ha'. simplify_eq.
  split; f_equal.
  - rewrite (sum_insert _ _ _ x) by done. unfold Py.len. rewrite length_app. simpl. lia.
  - rewrite (sum_insert _ _ _ x) by done. rewrite !sum_ones.
    rewrite filter_app, filter_cons, filter_nil. unfold Py.len. rewrite length_app.
    case_bool_decide as Hch; destruct (decide (status a = STATUS_BACKSPACE)) as [Hs|Hs];
      try (exfalso; tauto); simpl; lia.
Qed.


(** ** More about the statistics *)

Lemma filter_cons_length {A} (P : A → Prop) `{!∀ x, Decision (P x)} (x : A) (l : list A) :
  Py.len (filter P (x :: l)) = (if decide (P x) then 1 else 0) + Py.len (filter P l).
Proof. rewrite filter_cons. unfold Py.len. destruct (decide (P x)); simpl; lia. Qed.

(** A list of actions is empty, or its last action has exactly one of the
    three statuses. *)
Lemma last_status_cases (x : list Action) :
  (if decide (last_has_status STATUS_CORRECT x = true) then 1 else 0)
  + (if decide (last_has_status STATUS_WRONG x = true) then 1 else 0)
  + (if decide (last_has_status STATUS_BACKSPACE x = true) then 1 else 0)
  + (if decide (x = []) then 1 else 0) = 1.
Proof.
  destruct (decide (x = [])) as [->|Hne]; [done|].
  destruct (last x) as [a|] eqn:Hlast; [|by apply last_None in Hlast].
  repeat destruct (decide (last_has_status _ x = true)) as [?%last_has_status_spec|?];
    try rewrite Hlast in *; simpl in *; simplify_eq; try lia.
  all: exfalso.
  all: repeat match goal with
       | H : ¬ last_has_status ?s ?y = true |- _ =>
           rewrite last_has_status_spec, Hlast in H; simpl in H
       end.
  all: destruct (status a); congruence.
Qed.

Lemma status_partition (acts : list (list Action)) :
  Py.len (filter (λ x, last_has_status STATUS_CORRECT x = true) acts)
  + Py.len (filter (λ x, last_has_status STATUS_WRONG x = true) acts)
  + Py.len (filter (λ x, last_has_status STATUS_BACKSPACE x = true) acts)
  + Py.len (filter (λ x, x = []) acts) = Py.len acts.
Proof.
  induction acts as [|x acts IH]; [done|].
  rewrite !filter_cons_length. pose proof (last_status_cases x).
  unfold Py.len in *. simpl length. lia.
Qed.

(** X13: the four character counts are a partition of the offsets: every
    offset is untouched, or its last action is CORRECT, WRONG or BACKSPACE,
    so the counts add up to the number of characters. *)
Theorem characters_partition st acts :
  actions st = Some acts →
  ∃ c w b u,
    n_correct_characters st = Ok c st ∧ n_wrong_characters st = Ok w st ∧
    n_backspace_characters st = Ok b st ∧ n_untouched_characters st = Ok u st ∧
    c + w + b + u = Py.len acts ∧ 0 ≤ c ∧ 0 ≤ w ∧ 0 ≤ b ∧ 0 ≤ u.
Proof.
  intros Hacts.
  unfold n_correct_characters, n_wrong_characters, n_backspace_characters,
    n_untouched_characters, _n_characters_with_status, bind, attr, ret.
  rewrite Hacts. eexists _, _, _, _.
  split; [reflexivity|]. split; [reflexivity|]. split; [reflexivity|].
  split; [reflexivity|]. split; [|unfold Py.len; lia].
  pose proof (status_partition acts). lia.
Qed.

(** The non-backspace actions of one character are at least one when its
    last action is CORRECT. *)
Lemma correct_needs_action (x : list Action) :
  (if decide (last_has_status STATUS_CORRECT x = true) then 1 else 0)
  ≤ Py.len x - Py.len (filter (λ a, status a = STATUS_BACKSPACE) x).
Proof.
  pose proof (length_filter (λ a, status a = STATUS_BACKSPACE) x) as Hle.
  destruct (decide _) as [Hc%last_has_status_spec|_]; [|unfold Py.len; lia].
  destruct (last x) as [a|] eqn:Hlast; [|done].
  apply last_Some in Hlast as [y ->]. simpl in Hc. simplify_eq.
  rewrite filter_app, filter_cons_False, filter_nil, app_nil_r by congruence.
  pose proof (length_filter (λ a, status a = STATUS_BACKSPACE) y).
  unfold Py.len. rewrite length_app. simpl. lia.
Qed.

Lemma correct_le_effective (acts : list (list Action)) :
  0 ≤ Py.len (filter (λ x, last_has_status STATUS_CORRECT x = true) acts)
    ≤ foldr Z.add 0 (map Py.len acts)
      - foldr Z.add 0
          (map (λ x, foldr Z.add 0
                       (map (λ _, 1) (filter (λ a, status a = STATUS_BACKSPACE) x)))
               acts).
Proof.
  split; [unfold Py.len; lia|].
  induction acts as [|x acts IH]; [done|].
  rewrite filter_cons_length. cbn [map foldr]. rewrite sum_ones.
  pose proof (correct_needs_action x). lia.
Qed.

(** X14: the accuracy is a number between 0 and 1: an offset counted as
    correct has an action that is not a backspace. *)
Theorem accuracy_between_0_and_1 st acts :
  actions st = Some acts →
  ∃ q, compute_accuracy st = Ok q st ∧ (0 <= q)%Q ∧ (q <= 1)%Q.
Proof.
  intros Hacts.
  unfold compute_accuracy, try_except, n_correct_characters,
    _n_characters_with_status, n_actions, n_backspace_actions, bind, attr, ret.
  repeat (rewrite Hacts; cbv beta iota).
  pose proof (correct_le_effective acts) as [H0 H1].
  unfold truediv.
  destruct (_ =? 0) eqn:Hd; cbn [raise].
  - destruct (decide _); [|done]. exists 0%Q. by split.
  - apply Z.eqb_neq in Hd. eexists. split; [reflexivity|].
    set (c := Py.len _) in *. set (d := _ - _) in *.
    assert (0 < d) by lia.
    split.
    + apply Qle_shift_div_l; [unfold Qlt; simpl; lia|]. unfold Qle. simpl. lia.
    + apply Qle_shift_div_r; [unfold Qlt; simpl; lia|]. unfold Qle. simpl. lia.
Qed.

(** ** Speed *)

(** X15: [compute_cpm] does not raise when no time has elapsed: it is 0
    before the first keystroke, it is never negative when the clock does not
    run backwards, and it no longer depends on the time of the call once the
    end timestamp is set. [compute_wpm] divides it by the word size, and
    raises [ZeroDivisionError] for the word size 0. *)
Theorem compute_cpm_never_divides_by_zero now st acts :
  actions st = Some acts →
  ∃ q, compute_cpm now st = Ok q st ∧
    (start_ts st = None → q = 0%Q) ∧
    (∀ s, start_ts st = Some s → s ≤ default now (end_ts st) → (0 <= q)%Q) ∧
    (is_Some (end_ts st) → ∀ now', compute_cpm now' st = Ok q st) ∧
    compute_wpm now 5 st = Ok (q / 5)%Q st ∧
    compute_wpm now 0 st = Raise ZeroDivisionError st.
Proof.
  intros Hacts.
  assert (Hcpm : ∀ t, compute_cpm t st =
    Ok (if elapsed_seconds t st =? 0 then 0%Q
        else (inject_Z (60 * Py.len (filter (λ x, last_has_status STATUS_CORRECT x = true)
                                            acts))
              / total_seconds (elapsed_seconds t st))%Q) st).
  { intros t.
    unfold compute_cpm, try_except, n_correct_characters, _n_characters_with_status,
      bind, attr, ret.
    rewrite Hacts. cbv beta iota.
    destruct (_ =? 0); cbn [raise]; [|done]. by destruct (decide _). }
  eexists. split; [apply Hcpm|].
  split_and!.
  - intros Hs. unfold elapsed_seconds. by rewrite Hs.
  - intros s Hs Hle. unfold elapsed_seconds. rewrite Hs.
    assert (He : match end_ts st with Some e => e | None => now end
                 = default now (end_ts st)) by (by destruct (end_ts st)).
    rewrite He. destruct (_ =? 0) eqn:Hz; [done|]. apply Z.eqb_neq in Hz.
    apply Qle_shift_div_l.
    + unfold total_seconds, Qlt, Qdiv. simpl. lia.
    + unfold Qle. simpl. unfold Py.len. lia.
  - intros [e He] now'. rewrite Hcpm. unfold elapsed_seconds. by rewrite He.
  - unfold compute_wpm, bind. rewrite Hcpm. done.
  - unfold compute_wpm, bind. rewrite Hcpm. done.
Qed.

(** ** The unrolled log *)

Lemma insert_by_ts_perm p l : insert_by_ts p l ≡ₚ p :: l.
Proof.
  induction l as [|q l IH]; simpl; [done|].
  destruct (_ <? _); [done|]. rewrite IH. apply Permutation_swap.
Qed.

Lemma sorted_by_ts_perm_acc acc l :
  foldl (λ acc p, insert_by_ts p acc) acc l ≡ₚ acc ++ l.
Proof.
  revert acc. induction l as [|p l IH]; intros acc; simpl.
  - by rewrite app_nil_r.
  - rewrite IH, insert_by_ts_perm. simpl. apply Permutation_middle.
Qed.

Lemma sorted_by_ts_perm l : sorted_by_ts l ≡ₚ l.
Proof. unfold sorted_by_ts. by rewrite sorted_by_ts_perm_acc. Qed.

Lemma filter_none {A} (P : A → Prop) `{!∀ x, Decision (P x)} (l : list A) :
  Forall (λ x, ¬ P x) l → filter P l = [].
Proof.
  induction 1 as [|x l Hx _ IH]; [done|]. by rewrite filter_cons_False.
Qed.

(** In timestamp order. *)
Definition ts_le (p q : Z * Action) : Prop := ts (snd p) ≤ ts (snd q).

Lemma insert_by_ts_sorted p l :
  StronglySorted ts_le l → StronglySorted ts_le (insert_by_ts p l).
Proof.
  induction 1 as [|q l Hs IH Hq]; simpl; [by repeat constructor|].
  destruct (_ <? _) eqn:E.
  - apply Z.ltb_lt in E. constructor; [by constructor|].
    constructor; [unfold ts_le; lia|].
    eapply Forall_impl; [exact Hq|]. unfold ts_le. intros; lia.
  - apply Z.ltb_ge in E. constructor; [done|].
    rewrite insert_by_ts_perm. by constructor.
Qed.

Lemma sorted_by_ts_sorted l : StronglySorted ts_le (sorted_by_ts l).
Proof.
  unfold sorted_by_ts.
  assert (H : ∀ acc, StronglySorted ts_le acc →
                StronglySorted ts_le (foldl (λ acc p, insert_by_ts p acc) acc l)).
  { induction l as [|p l IH]; intros acc Hacc; simpl; [done|].
    apply IH. by apply insert_by_ts_sorted. }
  apply H. constructor.
Qed.

(** Stability: among the entries of one timestamp the order is kept. *)
Lemma insert_by_ts_filter t p l :
  StronglySorted ts_le l →
  filter (λ q, ts (snd q) = t) (insert_by_ts p l)
  = filter (λ q, ts (snd q) = t) (l ++ [p]).
Proof.
  induction 1 as [|q l Hs IH Hq]; simpl; [done|].
  destruct (_ <? _) eqn:E.
  - apply Z.ltb_lt in E.
    rewrite !filter_cons, filter_app, filter_cons, filter_nil.
    destruct (decide (ts (snd p) = t)) as [Hp|Hp]; [|by rewrite app_nil_r].
    assert (Hnone : filter (λ q, ts (snd q) = t) l = []).
    { apply filter_none. eapply Forall_impl; [exact Hq|].
      unfold ts_le. cbv beta. intros; lia. }
    rewrite Hnone. destruct (decide (ts (snd q) = t)); [lia|done].
  - rewrite !filter_cons, IH. by destruct (decide _).
Qed.

Lemma sorted_by_ts_stable t l :
  filter (λ q, ts (snd q) = t) (sorted_by_ts l) = filter (λ q, ts (snd q) = t) l.
Proof.
  unfold sorted_by_ts.
  assert (H : ∀ acc, StronglySorted ts_le acc →
     filter (λ q, ts (snd q) = t) (foldl (λ acc p, insert_by_ts p acc) acc l)
     = filter (λ q, ts (snd q) = t) (acc ++ l)).
  { induction l as [|p l IH]; intros acc Hacc; simpl; [by rewrite app_nil_r|].
    rewrite IH by (by apply insert_by_ts_sorted).
    rewrite filter_app, insert_by_ts_filter by done.
    by rewrite <- filter_app, <- app_assoc. }
  apply (H []). constructor.
Qed.

Lemma length_enumerate_actions acts :
  Py.len (enumerate_actions acts) = foldr Z.add 0 (map Py.len acts).
Proof.
  unfold enumerate_actions.
  assert (H : ∀ k, Py.len (concat (imap (λ i x, map (λ a, (Z.of_nat (k + i), a)) x) acts))
                   = foldr Z.add 0 (map Py.len acts)).
  { induction acts as [|x acts IH]; intros k; [done|].
    cbn [imap concat map foldr]. unfold Py.len in *.
    rewrite length_app, length_map, Nat2Z.inj_add. f_equal.
    rewrite <- (IH (S k)). do 3 f_equal. apply imap_ext. intros i y _. simpl.
    do 3 f_equal. lia. }
  apply (H 0%nat).
Qed.

(** X16: [unroll_actions] lists every recorded action once, with its
    offset, in the order of the timestamps; actions with equal timestamps
    keep the order of the log (by offset, then by time of typing). Its
    length is [n_actions]. *)
Theorem unroll_actions_sorted st acts :
  actions st = Some acts →
  ∃ res, unroll_actions st = Ok res st ∧
    res ≡ₚ enumerate_actions acts ∧
    StronglySorted ts_le res ∧
    (∀ t, filter (λ q, ts (snd q) = t) res
          = filter (λ q, ts (snd q) = t) (enumerate_actions acts)) ∧
    n_actions st = Ok (Py.len res) st.
Proof.
  intros Hacts. unfold unroll_actions, n_actions, bind, attr, ret. rewrite Hacts.
  eexists. split; [reflexivity|].
  split; [apply sorted_by_ts_perm|].
  split; [apply sorted_by_ts_sorted|].
  split; [intros t; apply sorted_by_ts_stable|].
  f_equal. rewrite <- length_enumerate_actions. unfold Py.len. f_equal.
  symmetry. apply Permutation_length, sorted_by_ts_perm.
Qed.

(** ** The unrolled log after a keystroke *)

Lemma insert_by_ts_last p l :
  Forall (λ q, ts (snd q) ≤ ts (snd p)) l → insert_by_ts p l = l ++ [p].
Proof.
  induction 1 as [|q l Hq _ IH]; simpl; [done|].
  destruct (_ <? _) eqn:E; [apply Z.ltb_lt in E; lia|]. by rewrite IH.
Qed.

Lemma insert_by_ts_before_last q p l :
  ts (snd q) < ts (snd p) → insert_by_ts q (l ++ [p]) = insert_by_ts q l ++ [p].
Proof.
  intros Hlt. induction l as [|r l IH]; simpl.
  - destruct (_ <? _) eqn:E; [done|apply Z.ltb_ge in E; lia].
  - destruct (_ <? _); [done|]. by rewrite IH.
Qed.

Lemma foldl_insert_by_ts_last p acc v :
  Forall (λ q, ts (snd q) < ts (snd p)) v →
  foldl (λ acc q, insert_by_ts q acc) (acc ++ [p]) v
  = foldl (λ acc q, insert_by_ts q acc) acc v ++ [p].
Proof.
  intros Hv. revert acc. induction Hv as [|q v Hq _ IH]; intros acc; simpl; [done|].
  rewrite insert_by_ts_before_last by done. apply IH.
Qed.

Lemma sorted_by_ts_latest u p v :
  Forall (λ q, ts (snd q) < ts (snd p)) (u ++ v) →
  sorted_by_ts (u ++ p :: v) = sorted_by_ts (u ++ v) ++ [p].
Proof.
  intros [Hu Hv]%Forall_app. unfold sorted_by_ts. rewrite !foldl_app. simpl.
  rewrite insert_by_ts_last.
  - by apply foldl_insert_by_ts_last.
  - fold (sorted_by_ts u). rewrite sorted_by_ts_perm.
    eapply Forall_impl; [exact Hu|]. cbv beta. intros; lia.
Qed.

Lemma enumerate_actions_insert acts i x a :
  acts !! i = Some x →
  ∃ u v, enumerate_actions acts = u ++ v ∧
         enumerate_actions (<[i := x ++ [a]]> acts) = u ++ (Z.of_nat i, a) :: v.
Proof.
  unfold enumerate_actions.
  assert (H : ∀ k acts i, acts !! i = Some x →
    ∃ u v,
      concat (imap (λ j y, map (λ b, (Z.of_nat (k + j), b)) y) acts) = u ++ v ∧
      concat (imap (λ j y, map (λ b, (Z.of_nat (k + j), b)) y) (<[i := x ++ [a]]> acts))
      = u ++ (Z.of_nat (k + i), a) :: v).
  { clear acts i. intros k acts. revert k.
    induction acts as [|y acts IH]; intros k [|i] Hi; simpl in *; simplify_eq.
    - eexists _, _. split; [reflexivity|].
      rewrite map_app. simpl. by rewrite <- app_assoc.
    - destruct (IH (S k) i Hi) as (u & v & E1 & E2).
      exists (map (λ b, (Z.of_nat (k + 0), b)) y ++ u), v.
      rewrite <- !app_assoc.
      split; f_equal.
      + rewrite <- E1. f_equal. apply imap_ext. intros j z _. simpl.
        do 3 f_equal. lia.
      + replace (k + S i)%nat with (S k + i)%nat by lia. rewrite <- E2. f_equal.
        apply imap_ext. intros j z _. simpl. do 3 f_equal. lia. }
  intros Hi. apply (H 0%nat acts i Hi).
Qed.

(** X17: after a keystroke inside the text whose timestamp is later than
    every recorded one, the unrolled log is the one before followed by that
    keystroke at the offset the cursor was on. *)
Theorem unroll_actions_after_keystroke st o now ch res :
  consistent st → curr_idx st = Some o → 0 ≤ o < n_characters st →
  unroll_actions st = Ok res st →
  Forall (λ p, ts (snd p) < now) res →
  let st' := state_of (type_character ch now st) in
  ∃ a, unroll_actions st' = Ok (res ++ [(o, a)]) st' ∧
       pressed_key a = ch ∧ ts a = now.
Proof.
  intros Hcons Hc Ho Hres Hlater st'.
  destruct (type_character_logs st o now ch Hcons Hc Ho) as
    (acts & x & a & Ha & Hx & Ha' & Hk & Hts & _).
  fold st' in Ha'. exists a.
  unfold unroll_actions, bind, attr, ret in *. rewrite Ha in Hres. rewrite Ha'.
  simplify_eq. split; [|done].
  destruct (enumerate_actions_insert acts (Z.to_nat o) x a Hx) as (u & v & E1 & E2).
  rewrite E2, E1. rewrite Z2Nat.id by lia. f_equal.
  apply sorted_by_ts_latest.
  rewrite <- E1. rewrite sorted_by_ts_perm in Hlater. done.
Qed.

(** ** The sizes of the layout buffers *)

(** The layout under construction: [a] start offsets, among them those of
    [base], and [b] lines. *)
Definition sizes st (a b : nat) (base : list Z) : Prop :=
  ∃ starts orig,
    rich_lines_start_idxs st = Some starts ∧ orig_rich_lines st = Some orig ∧
    length starts = a ∧ length orig = b ∧ (∀ s, s ∈ base → s ∈ starts).

Lemma wrapped_line_step_sizes line_no idx cum w st a b base :
  sizes st a b base →
  match wrapped_line_step line_no idx cum w st with
  | Ok _ st' => plain w ≠ [] ∧ sizes st' (if idx =? 0 then a else S a) (S b) base
  | Raise e _ => e = IndexError
  end.
Proof.
  intros (starts & orig & Hs & Ho & Ha & Hb & Hbase).
  destruct st as [sts ets ls' lsi txt g wd h c acts bk starts' orig' rl];
    simpl in Hs, Ho; simplify_eq.
  unfold wrapped_line_step.
  match goal with |- match ?E with Ok _ st' => @?P st' | Raise e _ => @?R e end =>
    set (Q := λ r : outcome (TypedText Style) Z,
                match r with Ok _ st0 => P st0 | Raise e0 _ => R e0 end);
    change (Q E)
  end.
  repeat mstep.
  all: mcbn; subst Q; cbv beta iota; try done.
  all: split; [intros Hp; rewrite Hp in *; discriminate|].
  all: unfold sizes; proj_cbn; eexists _, _; split; [reflexivity|]; split; [reflexivity|].
  all: rewrite ?insort_length, ?length_app; simpl.
  all: split; [done|]; split; [lia|]; try done.
  all: intros s0 Hs0; apply insort_elem; right; by apply Hbase.
Qed.

Lemma wrapped_lines_loop_sizes line_no idx cum ws st a b base :
  0 ≤ idx → sizes st a b base →
  match wrapped_lines_loop line_no idx cum ws st with
  | Ok _ st' =>
      Forall (λ w, plain w ≠ []) ws ∧
      ∃ a', sizes st' a' (b + length ws) base ∧
            (a' + (if (idx =? 0)%Z && bool_decide (ws ≠ []) then 1 else 0) = a + length ws)%nat
  | Raise e _ => e = IndexError
  end.
Proof.
  revert idx cum st a b. induction ws as [|w ws IH]; intros idx cum st a b Hidx Hsz; simpl.
  - split; [done|]. exists a. rewrite Nat.add_0_r, andb_false_r. split; [done|lia].
  - unfold bind at 1.
    pose proof (wrapped_line_step_sizes line_no idx cum w st a b base Hsz) as H.
    destruct (wrapped_line_step _ _ _ _ _) as [c st1|e st1]; [|done].
    destruct H as [Hw Hsz1].
    specialize (IH (idx + 1) c st1 _ _ ltac:(lia) Hsz1).
    destruct (wrapped_lines_loop _ _ _ _ _) as [[] st2|e st2]; [|done].
    destruct IH as (Hws & a' & Hsz2 & Ha').
    split; [by constructor|]. exists a'.
    replace (b + S (length ws))%nat with (S b + length ws)%nat by lia.
    split; [done|].
    rewrite andb_true_r.
    destruct (idx + 1 =? 0) eqn:E1; [lia|]. simpl in Ha'.
    destruct (idx =? 0); simpl; lia.
Qed.

Lemma lines_loop_sizes line_no hl st wd a b base :
  width st = Some wd → sizes st a b base →
  match lines_loop line_no hl st with
  | Ok _ st' =>
      (∀ line wl, line ∈ hl → wl ∈ wrap line (wd - (gutter_col_width st + 1)) →
                  plain wl ≠ []) ∧
      ∃ a' b', sizes st' a' b' base ∧
        ((∀ line, line ∈ hl → wrap line (wd - (gutter_col_width st + 1)) ≠ []) →
         (a' + length hl + b = a + b')%nat)
  | Raise e _ => e = IndexError
  end.
Proof.
  revert line_no st a b. induction hl as [|l hl IH]; intros line_no st a b Hwd Hsz; simpl.
  - split; [intros ? ? []%elem_of_nil|]. exists a, b. split; [done|lia].
  - unfold bind at 1. unfold attr. rewrite Hwd.
    unfold bind at 1. unfold bind at 1.
    pose proof (wrapped_lines_loop_sizes line_no 0 0
                  (wrap l (wd - (gutter_col_width st + 1))) st a b base ltac:(lia) Hsz) as H.
    pose proof (wrapped_lines_loop_relaid line_no 0 0
                  (wrap l (wd - (gutter_col_width st + 1))) st) as Hfr.
    destruct (wrapped_lines_loop _ _ _ _ _) as [[] st1|e st1]; [|done].
    cbn [state_of] in Hfr. destruct Hfr as [_ _ _ _ _ Hg Hw _ _ _ _].
    destruct H as (Hws & a1 & Hsz1 & Ha1).
    specialize (IH (line_no + 1) st1 _ _ ltac:(congruence) Hsz1).
    destruct (lines_loop _ _ _) as [[] st2|e st2]; [|done].
    rewrite Hg in IH. destruct IH as (Hall & a' & b' & Hsz2 & Hcount).
    split.
    + intros line wl [->|Hin]%elem_of_cons Hwl; [|by eapply Hall].
      rewrite Forall_forall in Hws. by apply Hws.
    + exists a', b'. split; [done|]. intros Hne.
      assert (Hl : wrap l (wd - (gutter_col_width st + 1)) ≠ []).
      { apply Hne. by left. }
      rewrite bool_decide_eq_true_2 in Ha1 by done. simpl in Ha1.
      specialize (Hcount ltac:(intros; apply Hne; by right)). lia.
Qed.

(** What a rebuild can end in. *)
Lemma update_dimensions_cases w h st :
  match update_dimensions w h st with
  | Ok _ st' =>
      (∀ line wl, line ∈ highlight_lines (text st) →
                  wl ∈ wrap line (w - (gutter_col_width st + 1)) → plain wl ≠ []) ∧
      ∃ starts orig,
        rich_lines_start_idxs st' = Some starts ∧ orig_rich_lines st' = Some orig ∧
        rich_lines st' = Some orig ∧
        (∀ s, s ∈ lines_start_idxs st → s ∈ starts) ∧
        ((∀ line, line ∈ highlight_lines (text st) →
                  wrap line (w - (gutter_col_width st + 1)) ≠ []) →
         (length starts + length (highlight_lines (text st))
          = length (lines_start_idxs st) + length orig)%nat)
  | Raise e _ => e = IndexError
  end.
Proof.
  rewrite update_dimensions_unfold. unfold create_rich_lines.
  cbv beta iota zeta delta [bind assign].
  set (st1 := set_orig_rich_lines [] _).
  assert (Hsz : sizes st1 (length (lines_start_idxs st)) 0 (lines_start_idxs st)).
  { eexists _, _. split; [reflexivity|]. split; [reflexivity|]. done. }
  pose proof (lines_loop_sizes 0 (highlight_lines (text st)) st1 w _ _ _ eq_refl Hsz) as H.
  change (text st1) with (text st) in *.
  change (gutter_col_width st1) with (gutter_col_width st) in *.
  destruct (lines_loop _ _ _) as [[] st2|e st2]; [|done].
  destruct H as (Hall & a' & b' & (starts & orig & Hs & Ho & <- & <- & Hbase) & Hcount).
  unfold attr. rewrite Ho. cbn [state_of].
  split; [done|]. exists starts, orig. split_and!; try done.
  intros Hne. specialize (Hcount Hne). lia.
Qed.


Lemma length_start_idxs_from c ls : length (start_idxs_from c ls) = length ls.
Proof. revert c. induction ls as [|l ls IH]; intros c; simpl; [done|]. by rewrite IH. Qed.

Lemma same_layout_layout_ok st st' : same_layout st st' → layout_ok st → layout_ok st'.
Proof.
  intros [_ _ _ _ _ _ Hfs Hfo Hfr] (starts & orig & rl & Hs & Ho & Hr & Hne & Hlo & Hlr).
  rewrite Hr in Hfr. destruct (rich_lines st') as [rl'|] eqn:Hr'; [|done].
  exists starts, orig, rl'. split_and!; try congruence.
  simpl in Hfr. injection Hfr as Hfr.
  apply (f_equal length) in Hfr. rewrite !length_map in Hfr. congruence.
Qed.

(** The start offsets of a session contain those of the logical lines, and
    the line buffers have one line per start offset when every logical line
    is highlighted and wraps into at least one line. *)
Definition layout_facts (ls : list (list ascii)) st : Prop :=
  ∃ starts orig rl,
    rich_lines_start_idxs st = Some starts ∧ orig_rich_lines st = Some orig ∧
    rich_lines st = Some rl ∧
    (∀ s, s ∈ lines_start_idxs st → s ∈ starts) ∧
    length rl = length orig ∧
    (length (highlight_lines (text st)) = length ls → (∀ t w, wrap t w ≠ []) →
     length orig = length starts).

Lemma update_dimensions_layout_facts ls w h st st' :
  static_ok ls st → update_dimensions w h st = Ok tt st' → layout_facts ls st'.
Proof.
  intros (Hl & Ht & Hlsi) Hup.
  pose proof (update_dimensions_cases w h st) as H.
  pose proof (update_dimensions_relaid w h st) as Hfr.
  rewrite Hup in H, Hfr. cbn [state_of] in Hfr.
  destruct Hfr as [_ _ _ Hflsi Hft _ _ _ _ _ _]. fields_cbn.
  destruct H as (_ & starts & orig & Hs & Ho & Hr & Hbase & Hcount).
  exists starts, orig, orig. split_and!; try done.
  - rewrite Hflsi. done.
  - rewrite Hft. intros Hhl Hwrap.
    specialize (Hcount ltac:(intros; apply Hwrap)).
    rewrite Hlsi, length_start_idxs_from in Hcount. lia.
Qed.

Lemma same_layout_layout_facts ls st st' :
  same_layout st st' → layout_facts ls st → layout_facts ls st'.
Proof.
  intros [_ Hflsi Hft _ _ _ Hfs Hfo Hfr]
         (starts & orig & rl & Hs & Ho & Hr & Hbase & Hlr & Hcount).
  rewrite Hr in Hfr. destruct (rich_lines st') as [rl'|] eqn:Hr'; [|done].
  exists starts, orig, rl'. rewrite Hflsi, Hft. split_and!; try congruence; try done.
  simpl in Hfr. injection Hfr as Hfr.
  apply (f_equal length) in Hfr. rewrite !length_map in Hfr. congruence.
Qed.

Lemma reachable_layout_facts ls st : reachable ls st → layout_facts ls st.
Proof.
  induction 1 as [w h st Hup|w h st st' Hreach IH Hup|ev st Hreach IH].
  - eapply update_dimensions_layout_facts; [apply static_ok_init|done].
  - eapply update_dimensions_layout_facts; [|done].
    by destruct (reachable_session_inv ls st Hreach).
  - eapply same_layout_layout_facts; [|done].
    destruct ev as [key now|]; simpl.
    + destruct (reachable_session_inv ls st Hreach) as
        (_ & _ & _ & cur & back & ? & ? & ? & ? & Hc & Hb & _).
      by destruct (process_character_cases key now st cur back Hc Hb).
    + apply restyled_same_layout, rich_text_restyled.
Qed.

(** X19: in every state of a session the start offsets of the visual lines
    are in ascending order, the precondition of the binary search of
    [get_rich_line_no]; they contain the start offset of every logical line
    and begin with 0. *)
Theorem start_offsets_sorted ls st :
  reachable ls st →
  ∃ starts,
    rich_lines_start_idxs st = Some starts ∧ ascending starts ∧
    (∀ s, s ∈ lines_start_idxs st → s ∈ starts) ∧
    (ls ≠ [] → starts !! 0%nat = Some 0).
Proof.
  intros Hreach.
  destruct (reachable_session_inv ls st Hreach) as
    (_ & _ & _ & cur & back & acts & starts & orig & rl &
     _ & _ & _ & Hs & _ & _ & _ & Hasc & Hhead & _).
  destruct (reachable_layout_facts ls st Hreach) as
    (starts' & ? & ? & Hs' & _ & _ & Hbase & _).
  exists starts. split_and!; try done. intros s Hin. apply Hbase in Hin. congruence.
Qed.

(** X20: when the highlighter yields one line per logical line and every
    line wraps into at least one line, every state of a session is
    consistent: all attributes are set, there is one action list per
    character, and one original and one styled line per start offset. *)
Theorem reachable_consistent ls st :
  ls ≠ [] →
  length (highlight_lines (text (init (Style:=Style) ls))) = length ls →
  (∀ (t : Text Style) w, wrap t w ≠ []) →
  reachable ls st → consistent st.
Proof.
  intros Hne Hhl Hwrap Hreach.
  destruct (reachable_session_inv ls st Hreach) as
    ((Hl & Ht & Hlsi) & Hw & Hh & cur & back & acts & starts & orig & rl &
     Hc & Hb & Ha & Hs & Ho & Hr & Hlen & Hasc & Hhead & _).
  destruct (reachable_layout_facts ls st Hreach) as
    (starts' & orig' & rl' & Hs' & Ho' & Hr' & _ & Hlr & Hcount).
  simplify_eq.
  assert (Horig : length orig = length starts).
  { apply Hcount; [|done]. by rewrite Ht. }
  split; [done|done|by eexists|by eexists|by exists acts|].
  exists starts, orig, rl. split_and!; try done; [|congruence].
  intros ->. by specialize (Hhead Hne).
Qed.

(** ** Ordinary keys and the completing space *)


(** X3: a wrong key (not backspace, not tab, not the character under the
    cursor, not a space that completes the visual line) logs a WRONG action
    at the cursor [o] and still moves the cursor to [o + 1]; on the last
    character it completes the session like a right key. *)
Theorem wrong_key_advances st o now ch c r :
  consistent st → curr_idx st = Some o → 0 ≤ o < n_characters st →
  text st !! Z.to_nat o = Some c →
  ch ≠ "backspace"%string → ch ≠ "tab"%string → ch ≠ String c EmptyString →
  rest_of_rich_line o st = Ok r st → (ch = " "%string → Py.isspace r = false) →
  ∃ acts x back st',
    actions st = Some acts ∧ acts !! Z.to_nat o = Some x ∧ back_idxs st = Some back ∧
    state_of (type_character ch now st) = st' ∧
    actions st' = Some (<[Z.to_nat o := x ++ [mkAction ch STATUS_WRONG now]]> acts) ∧
    curr_idx st' = Some (o + 1) ∧
    back_idxs st' = Some (<[o + 1 := o]> back) ∧
    (o + 1 < n_characters st →
     type_character ch now st = Ok tt st' ∧ end_ts st' = end_ts st) ∧
    (o + 1 = n_characters st →
     type_character ch now st = Raise ZeroDivisionError st' ∧ end_ts st' = Some now).
Proof.
  intros Hcons Hc Ho Htxt Hnb Hnt Hne Hrest Hsp.
  assert (Hkey : key_is_char ch c = false).
  { unfold key_is_char. by apply bool_decide_eq_false_2. }
  destruct (ordinary_key st o now ch c r Hcons Hc Ho Htxt) as
    (acts & x & back & st' & Ha & Hx & Hb & Hst & Ha' & Hc' & Hb' & _ & Hok & Hfin);
    try done.
  { rewrite Hkey. done. }
  rewrite Hkey in Ha'. by exists acts, x, back, st'.
Qed.



(** ** Backspace after a move *)

Lemma backspace_step st o p now :
  consistent st → curr_idx st = Some o → 0 < o < n_characters st →
  back_reference st o = Some p →
  ∃ st', type_character "backspace" now st = Ok tt st' ∧
         curr_idx st' = Some p ∧ back_idxs st' = back_idxs st.
Proof.
  intros [_ _ _ [back Hb] (acts & Ha & Hlen) Hlay] Hc Ho Hback.
  destruct (lookup_lt_is_Some_2 acts (Z.to_nat o)) as [x Hx].
  { unfold n_characters, Py.len in Ho. lia. }
  unfold back_reference in Hback. rewrite Hb in Hback. simpl in Hback.
  assert (Hback' : o ≠ 0 → is_Some (back !! o)) by (intros _; by eexists).
  destruct st as [sts ets ls lsi txt g w h c acts' b starts orig rl];
    simpl in *; simplify_eq.
  unfold n_characters in Ho. simpl in Ho.
  assert (Hget : Py.get acts o = Some x) by (by rewrite get_nonneg by lia).
  unfold type_character.
  match goal with |- ∃ st', ?E = Ok tt st' ∧ @?P st' =>
    set (Q := λ r : outcome (TypedText Style) unit, ∃ st', r = Ok tt st' ∧ P st');
    change (Q E)
  end.
  repeat xstep.
  all: mcbn; subst Q; cbv beta; boolfacts; try lia; try congruence; try done.
  all: eexists; split; [reflexivity|]; fields_cbn; simplify_eq; done.
Qed.

Lemma key_post_consistent ch now st cur back r :
  consistent st → key_post ch now st cur back r → consistent (state_of r).
Proof.
  intros [Hw Hh _ _ (acts & Ha & Hlen) Hlay]
         (Hsl & Hal & _ & _ & cur' & back' & Hc' & Hb' & _).
  pose proof (same_layout_layout_ok _ _ Hsl Hlay) as Hlay'.
  destruct Hsl as [_ _ Hft _ Hfw Hfh _ _ _].
  split; [congruence|congruence|by eexists|by eexists| |done].
  rewrite Ha in Hal. destruct (actions (state_of r)) as [acts'|]; [|done].
  exists acts'. split; [done|]. simpl in Hal. congruence.
Qed.

(** X8: a backspace right after a keystroke that moved the cursor forward
    and returned normally brings the cursor back to where that keystroke
    found it (for a tab: when the whitespace run ends inside the text). *)
Theorem backspace_undoes_forward_move st st1 o o1 ch now now' :
  consistent st → curr_idx st = Some o →
  ch ≠ "backspace"%string →
  (ch = "tab"%string → tab_target st o < n_characters st) →
  type_character ch now st = Ok tt st1 → curr_idx st1 = Some o1 → o < o1 →
  ∃ st2, type_character "backspace" now' st1 = Ok tt st2 ∧ curr_idx st2 = Some o.
Proof.
  intros Hcons Hc Hnb Htab Hrun Hc1 Hlt.
  destruct (cons_back_idxs st Hcons) as [back Hb].
  pose proof (type_character_cases ch now st o back Hc Hb) as Hpost.
  pose proof (key_post_consistent _ _ _ _ _ _ Hcons Hpost) as Hcons1.
  rewrite Hrun in Hpost, Hcons1. cbn [state_of] in Hcons1.
  destruct Hpost as (Hsl & _ & _ & _ & cur' & back' & Hc' & Hb' & Heff & Hfin).
  cbn [state_of] in *. simplify_eq.
  assert (Hn : n_characters st1 = n_characters st).
  { unfold n_characters. by rewrite (sl_text _ _ Hsl). }
  destruct Heff as [[-> _]|[Hrange Heff]]; [lia|].
  assert (Ho1 : o1 < n_characters st).
  { destruct (Z.lt_ge_cases o1 (n_characters st)) as [|Hge]; [done|].
    by destruct (Hfin Hnb Hrange Hge). }
  assert (Hback : back_reference st1 o1 = Some o).
  { unfold back_reference. rewrite Hb'. simpl.
    destruct Heff as [|p Hch _ _| Hch | starts0 s Hch _ _ | _ _];
      try lia; try done.
    - specialize (Htab Hch).
      rewrite Z.min_r by lia. by rewrite lookup_insert_eq.
    - by rewrite lookup_insert_eq.
    - by rewrite lookup_insert_eq. }
  destruct (backspace_step st1 o1 o now' Hcons1 Hc1 ltac:(lia) Hback) as (st2 & Hr & Hc2 & _).
  by exists st2.
Qed.

(** ** The clock across a session *)

Lemma step_clock ev st :
  (start_ts (step ev st) = start_ts st ∨
   start_ts st = None ∧
   ∃ key now cur, ev = Key key now ∧ start_ts (step ev st) = Some now ∧
                  curr_idx st = Some cur ∧ 0 ≤ cur < n_characters st) ∧
  (end_ts (step ev st) = end_ts st ∨
   ∃ key now cur', ev = Key key now ∧ end_ts (step ev st) = Some now ∧
     process_character key now st = Raise ZeroDivisionError (step ev st) ∧
     curr_idx (step ev st) = Some cur' ∧ n_characters st ≤ cur').
Proof.
  destruct ev as [key now|]; cbn [step].
  - assert (Hp : process_character key now st = Ok tt st ∨
                 process_character key now st = type_character (canonical_key key) now st).
    { unfold process_character. destruct (_ && _); auto. }
    destruct Hp as [Hp|Hp]; rewrite Hp; [by split; left|].
    destruct (type_character_clock (canonical_key key) now st) as [Hs He].
    split.
    + destruct Hs as [?|(? & ? & cur & ? & ?)]; [by left|right].
      split; [done|]. by exists key, now, cur.
    + destruct He as [?|(? & Hr & cur' & ? & ?)]; [by left|right].
      exists key, now, cur'. rewrite Hp. split_and!; try done.
  - destruct (rich_text_restyled st) as [Hs He _ _ _ _ _ _ _ _ _ _ _ _].
    by split; left.
Qed.

(** X10: once the start timestamp is set, no keystroke and no frame read
    changes it. *)
Theorem start_ts_never_restarts evs st t :
  start_ts st = Some t → start_ts (run evs st) = Some t.
Proof.
  revert st. induction evs as [|ev evs IH]; intros st Ht; [done|].
  simpl. apply IH.
  destruct (step_clock ev st) as [[Hs|[Hs _]] _]; congruence.
Qed.

(** X11: the end timestamp changes only in a keystroke that raises the
    completion signal with the cursor at or past the end of the text; it is
    then the timestamp of that keystroke. *)
Theorem end_ts_changes_only_on_completion ev st :
  end_ts (step ev st) ≠ end_ts st →
  ∃ key now cur',
    ev = Key key now ∧ end_ts (step ev st) = Some now ∧
    process_character key now st = Raise ZeroDivisionError (step ev st) ∧
    curr_idx (step ev st) = Some cur' ∧ n_characters st ≤ cur'.
Proof.
  intros Hne. by destruct (step_clock ev st) as [_ [?|?]].
Qed.

(** ** The index mapper below the first start offset *)

(** X22: for an offset below the first start offset the index mapper does
    not raise: the search gives -1, which Python reads as the last line, and
    the column is the offset minus the start of the last line. *)
Theorem get_rich_line_no_before_first_start st starts idx s0 l :
  rich_lines_start_idxs st = Some starts → ascending starts →
  starts !! 0%nat = Some s0 → last starts = Some l → idx < s0 →
  get_rich_line_no idx st = Ok (-1, idx - l) st.
Proof.
  intros Hs Hasc Hs0 Hlast Hlt.
  destruct (bisect_spec starts idx Hasc) as ([Hr0 Hr1] & Hle & _).
  assert (Hb : Py.bisect starts idx = 0).
  { destruct (Z.eq_dec (Py.bisect starts idx) 0) as [|Hne]; [done|].
    specialize (Hle 0%nat s0 ltac:(lia) Hs0). lia. }
  unfold get_rich_line_no, bind, attr, orelse. rewrite Hs, Hb.
  assert (Hlen : (0 < length starts)%nat).
  { apply lookup_lt_Some in Hs0. lia. }
  rewrite get_neg by (unfold Py.len; lia).
  rewrite last_lookup in Hlast.
  replace (Z.to_nat (0 - 1 + Py.len starts)) with (pred (length starts))
    by (unfold Py.len; lia).
  rewrite Hlast. done.
Qed.

(** ** Completion *)

(** X12: in a session over a non-empty text, whenever [check_finished]
    answers true the end timestamp is set. *)
Theorem finished_session_has_end_ts ls st :
  ls ≠ [] → reachable ls st → check_finished st = Ok true st →
  ∃ cur e, curr_idx st = Some cur ∧ n_characters st ≤ cur ∧ end_ts st = Some e.
Proof.
  intros Hne Hreach Hfin.
  destruct (reachable_session_inv ls st Hreach) as
    (_ & _ & _ & cur & back & acts & starts & orig & rl &
     Hc & _ & _ & _ & _ & _ & _ & _ & _ & _ & _ & Hend & _).
  unfold check_finished, bind, attr, ret in Hfin. rewrite Hc in Hfin.
  injection Hfin as Hfin. apply Z.leb_le in Hfin.
  destruct (Hend Hfin Hne) as [e He]. by exists cur, e.
Qed.

(** ** The window of the frame *)

Lemma rich_text_frame st frame st1 :
  rich_text st = Ok frame st1 →
  ∃ orig h rl1,
    orig_rich_lines st = Some orig ∧ height st = Some h ∧ rich_lines st1 = Some rl1 ∧
    ((h <? Py.len orig) = false ∧
     frame = foldl (Rich.append_text style_truthy) Rich.empty
               (Py.slice rl1 0 (Py.len orig))
     ∨ (h <? Py.len orig) = true ∧
       ∃ cur starts,
         curr_idx st = Some cur ∧ rich_lines_start_idxs st = Some starts ∧
         frame = foldl (Rich.append_text style_truthy) Rich.empty
                   (Py.slice rl1 (Z.max 0 (Py.bisect starts cur - 1 - 5))
                                 (Py.bisect starts cur - 1 + h - 5))).
Proof.
  destruct st as [sts ets ls lsi txt g w h c acts b starts orig rl].
  unfold rich_text.
  match goal with |- ?E = _ → ?P =>
    set (Q := λ r : outcome (TypedText Style) (Text Style), r = Ok frame st1 → P);
    change (Q E)
  end.
  repeat mstep.
  all: mcbn; subst Q; cbv beta; try done.
  all: intros [= <- <-]; simplify_eq; eexists _, _, _.
  all: split; [reflexivity|]; split; [reflexivity|]; split; [reflexivity|].
  all: first [ left; split; [done|reflexivity]
             | right; split; [done|]; eexists _, _;
               split; [reflexivity|]; split; [reflexivity|]; reflexivity ].
Qed.

Lemma slice_all {A} (l : list A) : Py.slice l 0 (Py.len l) = l.
Proof.
  assert (Hl : 0 ≤ Py.len l) by (unfold Py.len; lia).
  unfold Py.slice, Py.clamp. rewrite Z.ltb_irrefl.
  destruct (Py.len l <? 0) eqn:E; [lia|].
  rewrite (Z.min_l 0 (Py.len l)) by done. rewrite Z.min_id.
  unfold Py.len. rewrite Nat2Z.id. simpl. rewrite Nat.sub_0_r. apply firstn_all.
Qed.

Lemma slice_window {A} (l : list A) (line h : Z) :
  0 ≤ line < Py.len l → 5 ≤ h →
  let shown := Py.slice l (Z.max 0 (line - 5)) (line + h - 5) in
  Py.len shown ≤ h ∧
  (5 < h → shown !! Z.to_nat (Z.min line 5) = l !! Z.to_nat line).
Proof.
  intros Hline Hh shown. subst shown.
  unfold Py.slice, Py.clamp, Py.len in *.
  destruct (Z.max 0 (line - 5) <? 0) eqn:E1; [lia|].
  destruct (line + h - 5 <? 0) eqn:E2; [lia|].
  set (lo := Z.to_nat (Z.min (Z.max 0 (line - 5)) (Z.of_nat (length l)))).
  set (hi := Z.to_nat (Z.min (line + h - 5) (Z.of_nat (length l)))).
  split.
  - rewrite length_take, length_drop. lia.
  - intros Hlt. rewrite lookup_take_lt by lia. rewrite lookup_drop. f_equal. lia.
Qed.

(** X21: the frame is the text of the styled lines in a window: all of
    them when they fit the height [h]; otherwise the lines from
    [max(0, line - 5)] to [line + h - 5], [line] being the cursor's visual
    line, which are at most [h] lines when [h >= 5] and contain the cursor's
    line when [h > 5]. *)
Theorem rich_text_window st frame st1 h cur line_idx column :
  consistent st → height st = Some h → curr_idx st = Some cur →
  get_rich_line_no cur st = Ok (line_idx, column) st → 0 ≤ line_idx →
  rich_text st = Ok frame st1 →
  ∃ rl1 shown,
    rich_lines st1 = Some rl1 ∧ plain frame = concat (map plain shown) ∧
    (Py.len rl1 ≤ h → shown = rl1) ∧
    (h < Py.len rl1 →
     shown = Py.slice rl1 (Z.max 0 (line_idx - 5)) (line_idx + h - 5) ∧
     (5 ≤ h → Py.len shown ≤ h) ∧
     (5 < h → is_Some (rl1 !! Z.to_nat line_idx) ∧
              shown !! Z.to_nat (Z.min line_idx 5) = rl1 !! Z.to_nat line_idx)).
Proof.
  intros Hcons Hh Hc Hline Hpos Hrun.
  pose proof (rich_text_restyled st) as Hfr. rewrite Hrun in Hfr. cbn [state_of] in Hfr.
  pose proof (restyled_layout_ok _ _ Hfr (consistent_layout_ok _ Hcons)) as
    (starts1 & orig1 & rl1 & Hs1 & Ho1 & Hr1 & Hne & Hlo & Hlr).
  destruct (rich_text_frame st frame st1 Hrun) as
    (orig & h' & rl1' & Ho & Hh' & Hr1' & Hframe).
  destruct Hfr as [_ _ _ _ _ _ _ _ _ _ _ Hfs Hfo _].
  simplify_eq. rewrite Ho in Hfo. simplify_eq.
  destruct (cons_layout st Hcons) as (starts & ? & ? & Hs & _).
  rewrite Hs in Hfs. simplify_eq.
  assert (line_idx = Py.bisect starts cur - 1) as ->.
  { unfold get_rich_line_no, bind, attr, orelse, ret, raise in Hline.
    rewrite Hs in Hline. destruct (Py.get starts _); by simplify_eq. }
  assert (Hlen : Py.len orig = Py.len rl1) by (unfold Py.len; congruence).
  pose proof (bisect_range starts cur) as Hbr.
  assert (Hin : 0 ≤ Py.bisect starts cur - 1 < Py.len rl1).
  { unfold Py.len in *. lia. }
  rewrite Hlen in Hframe.
  destruct Hframe as [[E ->]|(E & cur' & starts' & Hc' & Hs' & ->)]; simplify_eq.
  - apply Z.ltb_ge in E. eexists rl1, _. split; [done|].
    split; [rewrite plain_foldl_append_text; reflexivity|].
    split; [intros _; apply slice_all|intros; lia].
  - apply Z.ltb_lt in E. eexists rl1, _. split; [done|].
    split; [rewrite plain_foldl_append_text; reflexivity|].
    split; [intros; lia|]. intros _. split; [done|]. split.
    + intros H5. by apply slice_window.
    + intros H5. split; [apply lookup_lt_is_Some; unfold Py.len in Hin; lia|].
      by apply slice_window; [|lia|].
Qed.

End EngineFacts.

(** * Facts about the helpers of [utils.py] *)

Section UtilsFacts.
Import Utils.

(** ** [clean_text] *)

Lemma rstrip_nil_iff s : Py.rstrip s = [] ↔ Forall (λ c, Py.isspace_char c = true) s.
Proof.
  induction s as [|c s IH]; simpl; [by split|].
  destruct (Py.rstrip s) as [|d r] eqn:E.
  - destruct (Py.isspace_char c) eqn:Hc.
    + split; [intros _; constructor; [done|by apply IH]|done].
    + split; [done|]. intros H. apply Forall_cons in H as [H _]. congruence.
  - split; [done|]. intros H. apply Forall_cons in H as [_ H].
    apply IH in H. done.
Qed.

(** A stripped string does not end in whitespace. *)
Lemma rstrip_last s c : last (Py.rstrip s) = Some c → Py.isspace_char c = false.
Proof.
  revert c. induction s as [|d s IH]; intros c; simpl; [done|].
  destruct (Py.rstrip s) as [|e r] eqn:E.
  - destruct (Py.isspace_char d) eqn:Hd; simpl; [done|]. by intros [= <-].
  - intros H. apply IH. by rewrite last_cons_cons in H.
Qed.

Lemma rstrip_idemp s : Py.rstrip (Py.rstrip s) = Py.rstrip s.
Proof.
  induction s as [|d s IH]; simpl; [done|].
  destruct (Py.rstrip s) as [|e r] eqn:E.
  - destruct (Py.isspace_char d) eqn:Hd; simpl; [done|]. by rewrite Hd.
  - simpl in *. destruct (Py.rstrip r) as [|? ?] eqn:E2.
    + destruct (Py.isspace_char e); simplify_eq; done.
    + by simplify_eq.
Qed.

(** What is not whitespace. *)
Definition ink (s : list ascii) : list ascii :=
  filter (λ c, Py.isspace_char c = false) s.

Lemma ink_app s t : ink (s ++ t) = ink s ++ ink t.
Proof. apply filter_app. Qed.

Lemma ink_cons_space c s : Py.isspace_char c = true → ink (c :: s) = ink s.
Proof. intros Hc. unfold ink. rewrite filter_cons_False; [done|congruence]. Qed.

Lemma ink_rstrip s : ink (Py.rstrip s) = ink s.
Proof.
  unfold ink. induction s as [|c s IH]; simpl; [done|].
  destruct (Py.rstrip s) as [|e r] eqn:E.
  - rewrite filter_cons. rewrite <- IH, filter_nil.
    destruct (Py.isspace_char c) eqn:Hc.
    + by rewrite decide_False by congruence.
    + rewrite decide_True by done. by rewrite filter_cons_True by done.
  - rewrite !(filter_cons _ c). by rewrite IH.
Qed.

Lemma ink_lstrip s : ink (lstrip s) = ink s.
Proof.
  unfold ink. induction s as [|c s IH]; simpl; [done|].
  destruct (Py.isspace_char c) eqn:Hc; [|done].
  rewrite filter_cons_False by congruence. done.
Qed.

Lemma ink_strip s : ink (strip s) = ink s.
Proof. unfold strip. by rewrite ink_rstrip, ink_lstrip. Qed.

Lemma line_boundary_isspace c : is_line_boundary c = true → Py.isspace_char c = true.
Proof.
  destruct c as [b0 b1 b2 b3 b4 b5 b6 b7].
  destruct b0, b1, b2, b3, b4, b5, b6, b7; vm_compute; intros H;
    first [reflexivity | discriminate H].
Qed.

Lemma splitlines_from_facts cur s :
  Forall (λ c, is_line_boundary c = false) cur →
  Forall (Forall (λ c, is_line_boundary c = false)) (splitlines_from cur s) ∧
  ink (concat (splitlines_from cur s)) = ink (cur ++ s).
Proof.
  revert cur. induction s as [s IH] using (induction_ltof1 _ (@length ascii)).
  unfold ltof in *. intros cur Hcur.
  destruct s as [|c s]; simpl.
  - destruct cur; simpl; [done|]. rewrite !app_nil_r. split; [by constructor|done].
  - destruct (is_line_boundary c) eqn:Hc.
    + pose proof (line_boundary_isspace c Hc) as Hsp.
      rewrite ink_app, (ink_cons_space c s Hsp), <- ink_app.
      destruct s as [|c' s'].
      * split; [constructor; [done|constructor]|]. simpl. by rewrite !app_nil_r.
      * destruct (bool_decide (c = carriage_return) && bool_decide (c' = newline)) eqn:E.
        -- destruct (IH s' ltac:(simpl; lia) [] ltac:(constructor)) as [H1 H2].
           split; [by constructor|]. cbn [concat]. rewrite !ink_app, H2. simpl.
           apply andb_true_iff in E as [_ E]. apply bool_decide_eq_true in E. subst c'.
           by rewrite (ink_cons_space newline s').
        -- destruct (IH (c' :: s') ltac:(simpl; lia) [] ltac:(constructor)) as [H1 H2].
           split; [by constructor|]. cbn [concat]. by rewrite !ink_app, H2.
    + destruct (IH s ltac:(simpl; lia) (cur ++ [c])) as [H1 H2].
      { apply Forall_app. split; [done|by repeat constructor]. }
      split; [done|]. rewrite H2. by rewrite <- app_assoc.
Qed.

Lemma ink_join_newline lines : ink (join [newline] lines) = ink (concat lines).
Proof.
  induction lines as [|x lines IH]; [done|].
  cbn [join]. destruct lines as [|y lines].
  - simpl. by rewrite app_nil_r.
  - rewrite !ink_app, IH. cbn [concat]. rewrite !ink_app.
    by rewrite (ink_cons_space newline []).
Qed.

Lemma ink_concat_rstrip_nonempty (ls : list (list ascii)) :
  ink (concat (filter (λ l, l ≠ []) (map Py.rstrip ls))) = ink (concat ls).
Proof.
  induction ls as [|l ls IH]; [done|].
  cbn [map]. rewrite filter_cons.
  destruct (decide (Py.rstrip l ≠ [])) as [|Hn]; cbn [concat].
  - by rewrite !ink_app, IH, ink_rstrip.
  - apply dec_stable in Hn. by rewrite ink_app, IH, <- (ink_rstrip l), Hn.
Qed.

(** The text of the tokens that are not comments. *)
Definition code_of (toks : list (bool * list ascii)) : list ascii :=
  concat (map (λ t : bool * list ascii, if fst t then [] else snd t) toks).

Lemma code_of_cons cm txt toks :
  code_of ((cm, txt) :: toks) = (if cm : bool then [] else txt) ++ code_of toks.
Proof. done. Qed.

Lemma tokens_loop_ink toks line lines :
  let '(line', lines') := tokens_loop toks line lines in
  ink (concat lines' ++ concat line')
  = ink (concat lines ++ concat line ++ code_of toks).
Proof.
  revert line lines. induction toks as [|[cm txt] toks IH]; intros line lines.
  - simpl. unfold code_of. simpl. by rewrite app_nil_r.
  - cbn [tokens_loop]. rewrite code_of_cons.
    destruct cm.
    + rewrite bool_decide_eq_true_2 by done.
      specialize (IH [] (lines ++ [concat line])).
      destruct (tokens_loop toks [] _) as [line' lines']. rewrite IH.
      rewrite concat_app. simpl. by rewrite app_nil_r, <- !app_assoc.
    + case_bool_decide as Htxt.
      * specialize (IH [] (lines ++ [concat line])).
        destruct (tokens_loop toks [] _) as [line' lines']. rewrite IH. subst txt.
        rewrite concat_app. simpl. rewrite app_nil_r, <- !app_assoc.
        rewrite !ink_app. by rewrite (ink_cons_space newline (code_of toks)).
      * specialize (IH (line ++ [txt]) lines).
        destruct (tokens_loop toks _ _) as [line' lines']. rewrite IH.
        rewrite concat_app. simpl. by rewrite app_nil_r, <- !app_assoc.
Qed.

Lemma clean_text_shape toks :
  Forall (λ l, l ≠ [] ∧ Py.rstrip l = l ∧
               (∀ c, last l = Some c → Py.isspace_char c = false) ∧
               Forall (λ c, is_line_boundary c = false) l)
         (clean_text toks).
Proof.
  unfold clean_text.
  destruct (tokens_loop toks [] []) as [line lines].
  set (lines' := match line with [] => lines | _ => lines ++ [concat line] end).
  apply Forall_forall. intros l Hl.
  apply list_elem_of_filter in Hl as [Hne Hl].
  apply list_elem_of_fmap in Hl as (l0 & -> & Hl0).
  split; [done|]. split; [apply rstrip_idemp|]. split; [apply rstrip_last|].
  destruct (splitlines_from_facts [] (strip (join [newline] lines')) ltac:(constructor))
    as [Hb _].
  rewrite Forall_forall in Hb. specialize (Hb l0 Hl0).
  clear -Hb. induction l0 as [|c l0 IH]; simpl; [constructor|].
  apply Forall_cons in Hb as [Hc Hb]. specialize (IH Hb).
  destruct (Py.rstrip l0) as [|e r].
  - destruct (Py.isspace_char c); by repeat constructor.
  - by constructor.
Qed.

(** X23: no line that [clean_text] returns is empty, ends in whitespace or
    contains a line boundary. *)
Theorem clean_text_lines toks l :
  l ∈ clean_text toks →
  l ≠ [] ∧ Py.rstrip l = l ∧
  (∃ c, last l = Some c ∧ Py.isspace_char c = false) ∧
  Forall (λ c, is_line_boundary c = false) l.
Proof.
  intros Hl. pose proof (clean_text_shape toks) as H.
  rewrite Forall_forall in H. destruct (H l Hl) as (Hne & Hr & Hlast & Hb).
  split_and!; try done.
  destruct (last l) as [c|] eqn:Hc; [|by apply last_None in Hc].
  exists c. split; [done|by apply Hlast].
Qed.

(** X24: [clean_text] removes comments and changes whitespace only: the
    characters that are not whitespace are those of the tokens that are not
    comments, in the same order. *)
Theorem clean_text_keeps_code toks :
  ink (concat (clean_text toks)) = ink (code_of toks).
Proof.
  unfold clean_text.
  pose proof (tokens_loop_ink toks [] []) as H.
  destruct (tokens_loop toks [] []) as [line lines]. simpl in H.
  set (lines' := match line with [] => lines | _ => lines ++ [concat line] end).
  assert (Hl : ink (concat lines') = ink (code_of toks)).
  { rewrite <- H. subst lines'. destruct line as [|x line].
    - simpl. by rewrite app_nil_r.
    - rewrite concat_app. simpl. by rewrite app_nil_r. }
  rewrite ink_concat_rstrip_nonempty.
  destruct (splitlines_from_facts [] (strip (join [newline] lines')) ltac:(constructor))
    as [_ Hs].
  unfold splitlines. rewrite Hs. simpl.
  by rewrite ink_strip, ink_join_newline.
Qed.

End UtilsFacts.

(** ** [read_from_url] *)

Section ReadFromUrlFacts.
Import Utils.
Variable url_path : string → string.
Variable cache_name : string → string.

Lemma read_text_no_cr s : Forall (λ c, c ≠ carriage_return) (read_text s).
Proof.
  induction s as [s IH] using (induction_ltof1 _ (@length ascii)). unfold ltof in IH.
  destruct s as [|c s]; simpl; [constructor|].
  case_bool_decide as Hc.
  - constructor; [done|]. destruct s as [|c' s']; [constructor|].
    case_bool_decide; apply IH; simpl; lia.
  - constructor; [done|]. apply IH. simpl. lia.
Qed.

Lemma read_text_id s : Forall (λ c, c ≠ carriage_return) s → read_text s = s.
Proof.
  induction 1 as [|c s Hc _ IH]; simpl; [done|].
  rewrite bool_decide_eq_false_2 by done. by rewrite IH.
Qed.

(** X26: after a call of [read_from_url] that returned, a second call for
    the same URL does not use the network and leaves the cache as it is; it
    returns the content as the cache file reads, which is the first content
    with every carriage return (with or without a line feed behind it)
    turned into a line feed, and the same content from then on. The first
    call touches no other cache entry. *)
Theorem read_from_url_second_call get get' url cache content path cache' :
  read_from_url url_path cache_name get url cache = (Fetched (content, path), cache') →
  read_from_url url_path cache_name get' url cache'
    = (Fetched (read_text content, path), cache') ∧
  read_text (read_text content) = read_text content ∧
  (Forall (λ c, c ≠ carriage_return) content → read_text content = content) ∧
  (∀ name, name ≠ cache_name url → cache' !! name = cache !! name).
Proof.
  unfold read_from_url. intros Hrun.
  split_and!; [|apply read_text_id, read_text_no_cr|apply read_text_id|].
  - destruct (cache !! cache_name url) as [file|] eqn:Hc.
    + injection Hrun as <- <- <-. rewrite Hc.
      by rewrite (read_text_id _ (read_text_no_cr file)).
    + destruct (_ && _); [done|]. injection Hrun as <- <- <-.
      by rewrite lookup_insert_eq.
  - intros name Hne. destruct (cache !! cache_name url) as [file|] eqn:Hc.
    + by injection Hrun as <- <- <-.
    + destruct (_ && _); [done|]. injection Hrun as <- <- <-.
      by rewrite lookup_insert_ne.
Qed.

(** X27: on a cache miss, a response with a status from 400 to 599 raises
    [HTTPError] and leaves the cache as it is; any other status, 200 or not,
    is returned and cached. *)
Theorem read_from_url_miss get url cache :
  cache !! cache_name url = None →
  let status := status_code (get url) in
  (400 ≤ status < 600 →
   read_from_url url_path cache_name get url cache = (HTTPError, cache)) ∧
  (¬ (400 ≤ status < 600) →
   read_from_url url_path cache_name get url cache
   = (Fetched (response_text (get url), url_path url),
      <[cache_name url := response_text (get url)]> cache)).
Proof.
  intros Hc status. unfold read_from_url, raises_for_status. rewrite Hc. fold status.
  split; intros Hs.
  - destruct (negb (status =? 200)) eqn:E1;
      [|apply negb_false_iff, Z.eqb_eq in E1; lia].
    destruct ((400 <=? status) && (status <? 500) || (500 <=? status) && (status <? 600))
      eqn:E2; [done|].
    apply orb_false_iff in E2 as [E2 E3].
    apply andb_false_iff in E2, E3. lia.
  - destruct ((400 <=? status) && (status <? 500) || (500 <=? status) && (status <? 600))
      eqn:E2; [|by rewrite andb_false_r].
    apply orb_true_iff in E2. rewrite !andb_true_iff in E2. lia.
Qed.

End ReadFromUrlFacts.

(** ** From the cleaned lines to the text to type ([main_basic]) *)

Section MainBasic.
Context {Style : Type}.
Import Utils.

Lemma newline_is_line_boundary : is_line_boundary newline = true.
Proof. done. Qed.

(** In the text built from lines none of which is empty, ends in
    whitespace or contains a line break, every line break follows a
    character that is not whitespace. *)
Lemma joined_lines_breaks (ls : list (list ascii)) (o : nat) :
  Forall (λ l, l ≠ [] ∧ (∀ c, last l = Some c → Py.isspace_char c = false) ∧
               Forall (λ c, is_line_boundary c = false) l) ls →
  concat (map (λ x, x ++ [newline]) ls) !! o = Some newline →
  ∃ c, (0 < o)%nat ∧
       concat (map (λ x, x ++ [newline]) ls) !! pred o = Some c ∧
       Py.isspace_char c = false.
Proof.
  intros Hls. revert o. induction Hls as [|l ls (Hne & Hlast & Hnb) _ IH]; intros o Ho.
  { simpl in Ho. by rewrite lookup_nil in Ho. }
  cbn [map concat] in *. rewrite <- app_assoc in *. cbn [app] in *.
  destruct (decide (o < length l)%nat) as [Hlt|Hge].
  - rewrite lookup_app_l in Ho by done.
    rewrite Forall_forall in Hnb. apply list_elem_of_lookup_2, Hnb in Ho.
    by rewrite newline_is_line_boundary in Ho.
  - destruct (decide (o = length l)) as [->|Hne'].
    + destruct (last l) as [c|] eqn:Hc; [|by apply last_None in Hc].
      exists c. assert (0 < length l)%nat by (destruct l; [done|simpl; lia]).
      split; [done|]. split; [|by apply Hlast].
      rewrite lookup_app_l by lia. by rewrite <- last_lookup.
    + rewrite lookup_app_r in Ho by lia.
      rewrite lookup_cons_ne_0 in Ho by lia.
      destruct (IH _ Ho) as (c & Hpos & Hc & Hsp).
      exists c. split; [lia|]. split; [|done].
      rewrite lookup_app_r by lia. rewrite lookup_cons_ne_0 by lia.
      rewrite <- Hc. f_equal. lia.
Qed.

(** X25: in the text that [TypedText] builds from the lines of
    [clean_text], every line break follows a character that is not
    whitespace: there is no blank line and no trailing blank to type. *)
Theorem cleaned_text_has_no_blank_line toks (o : nat) :
  let txt := text (init (Style:=Style) (clean_text toks)) in
  txt !! o = Some newline →
  ∃ c, (0 < o)%nat ∧ txt !! pred o = Some c ∧ Py.isspace_char c = false.
Proof.
  intros txt Ho. apply joined_lines_breaks; [|done].
  eapply Forall_impl; [apply clean_text_shape|]. cbv beta. tauto.
Qed.

End MainBasic.

(** * Concrete sessions

    The engine run on concrete lines with the collaborators of [Demo]: the
    inputs on which a statement of the specification fails, and instances of
    the theorems above. *)

Section Concrete.
Local Open Scope string_scope.

Abbreviation ab := (list_ascii_of_string "ab").
Abbreviation a_b := (list_ascii_of_string "a b").

Lemma mounted_reachable (ls : list string) st :
  update_dimensions 80 24 (init (map list_ascii_of_string ls)) = Ok tt st →
  reachable (map list_ascii_of_string ls) (Demo.mounted ls).
Proof.
  intros Hup. unfold Demo.mounted. rewrite Hup. by eapply reach_mount.
Qed.

Lemma run_reachable {Style} `{!Collaborators Style} ls evs (st : TypedText Style) :
  reachable ls st → reachable ls (run evs st).
Proof.
  revert st. induction evs as [|ev evs IH]; intros st Hr; simpl; [done|].
  apply IH. by apply reach_step.
Qed.

(** C2 fails as stated: in the session over the line "a b", after 'a' the
    cursor is at offset 1, a space that does not follow a line break; the tab
    is invalid and is recorded as WRONG, yet the cursor moves on to 2. *)
Lemma invalid_tab_moves_cursor :
  let st := run [Key "a" 1] (Demo.mounted ["a b"]) in
  curr_idx st = Some 1 ∧
  Py.get (text st) 1 = Some space ∧ Py.get (text st) 0 = Some "a"%char ∧
  ∃ st', type_character "tab" 2 st = Ok tt st' ∧
    (actions st' ≫= λ acts, Py.get acts 1) = Some [mkAction "tab" STATUS_WRONG 2] ∧
    curr_idx st' = Some 2 ∧ curr_idx st' ≠ curr_idx st.
Proof.
  vm_compute. split_and!; try reflexivity.
  eexists. split_and!; try reflexivity. discriminate.
Qed.

(** C3 on the failing input: in the session over the line "ab", after 'a'
    and 'b' the cursor is at the closing line break, the last visual line
    has only whitespace left, and a space completes it. There is no next
    visual line: the keystroke signals completion, but it leaves the end
    timestamp unset and the cursor where it was. The line break typed at the
    same place signals completion with the end timestamp set. *)
Lemma space_completion_leaves_end_ts_unset :
  let st := run [Key "a" 1; Key "b" 2] (Demo.mounted ["ab"]) in
  curr_idx st = Some 2 ∧ n_characters st = 3 ∧
  (∃ st', process_character " " 3 st = Raise ZeroDivisionError st' ∧
          (actions st' ≫= λ acts, Py.get acts 2) = Some [mkAction " " STATUS_CORRECT 3] ∧
          end_ts st' = None ∧ curr_idx st' = Some 2 ∧
          elapsed_seconds 10 st' = 9 ∧ elapsed_seconds 20 st' = 19) ∧
  (∃ st', process_character "enter" 3 st = Raise ZeroDivisionError st' ∧
          end_ts st' = Some 3 ∧ curr_idx st' = Some 3 ∧
          elapsed_seconds 10 st' = 2 ∧ elapsed_seconds 20 st' = 2).
Proof.
  vm_compute. split_and!; try reflexivity.
  - eexists. split_and!; reflexivity.
  - eexists. split_and!; reflexivity.
Qed.

(** C6 fails as stated: after 'a' and 'b' the second keystroke returns
    normally, the cursor is at 2 of 3 and the session is not finished. *)
Lemma two_keys_do_not_finish :
  let st1 := run [Key "a" 1] (Demo.mounted ["ab"]) in
  ∃ st2, process_character "b" 2 st1 = Ok tt st2 ∧
    curr_idx st2 = Some 2 ∧ n_characters st2 = 3 ∧
    check_finished st2 = Ok false st2 ∧ end_ts st2 = None.
Proof. vm_compute. eexists. split_and!; reflexivity. Qed.

(** C7 fails as stated: the keystroke that completes the session leaves the
    cursor at [n], outside [0, n). *)
Lemma cursor_reaches_n :
  let st := run [Key "a" 1; Key "b" 2; Key "enter" 3] (Demo.mounted ["ab"]) in
  reachable [ab] st ∧
  curr_idx st = Some 3 ∧ n_characters st = 3 ∧
  ¬ (∃ cur, curr_idx st = Some cur ∧ 0 ≤ cur < n_characters st).
Proof.
  split.
  { apply run_reachable. eapply (mounted_reachable ["ab"]). vm_compute. reflexivity. }
  vm_compute. split_and!; try reflexivity.
  intros (cur & Hcur & Hlo & Hhi). injection Hcur as <-. discriminate Hhi.
Qed.

(** C8 fails as stated: a tab pressed at offset 0 of "ab" (not a whitespace
    character) records [back_idxs[0] = 0], although the cursor never moved
    forward to 0. *)
Lemma tab_records_back_reference_without_move :
  let st0 := Demo.mounted ["ab"] in
  let evs := [Key "tab" 1] in
  epoch_start [ab] st0 ∧
  ∃ back, back_idxs (run evs st0) = Some back ∧
    back !! 0 = Some 0 ∧ ¬ moved_forward_to 0 (trace evs st0).
Proof.
  split.
  { exists 80, 24, (init [ab]). split; [by left|]. vm_compute. reflexivity. }
  eexists. split; [vm_compute; reflexivity|]. split; [reflexivity|].
  intros Hmv. cbn [trace] in Hmv.
  apply moved_forward_to_singleton in Hmv as (p & Ha & _ & Hlt).
  vm_compute in Ha. injection Ha as <-. discriminate Hlt.
Qed.

(** C9 fails as stated: a read of [rich_text] changes the styled line
    buffers, and the next read returns a different frame. *)
Lemma rich_text_changes_rich_lines :
  let st := Demo.mounted ["ab"] in
  ∃ frame1 st1 frame2 st2,
    rich_text st = Ok frame1 st1 ∧ rich_text st1 = Ok frame2 st2 ∧
    rich_lines st1 ≠ rich_lines st ∧ frame2 ≠ frame1.
Proof.
  vm_compute. eexists _, _, _, _.
  split; [reflexivity|]. split; [reflexivity|]. split; discriminate.
Qed.

(** ** Instances of the theorems *)

(** The session over "ab" after the key 'a'. *)
Definition after_a : TypedText Demo.style := run [Key "a" 1] (Demo.mounted ["ab"]).

(** The session over "a b" after the key 'a'. *)
Definition after_a_in_a_b : TypedText Demo.style :=
  run [Key "a" 1] (Demo.mounted ["a b"]).

Lemma after_a_reachable : reachable [ab] after_a.
Proof.
  apply run_reachable. eapply (mounted_reachable ["ab"]). vm_compute. reflexivity.
Defined.

Lemma after_a_consistent : consistent after_a.
Proof.
  split.
  - vm_compute. by eexists.
  - vm_compute. by eexists.
  - vm_compute. by eexists.
  - vm_compute. by eexists.
  - eexists. split; vm_compute; reflexivity.
  - eexists _, _, _. split_and!; try (vm_compute; reflexivity). discriminate.
Defined.

Lemma after_a_in_a_b_consistent : consistent after_a_in_a_b.
Proof.
  split.
  - vm_compute. by eexists.
  - vm_compute. by eexists.
  - vm_compute. by eexists.
  - vm_compute. by eexists.
  - eexists. split; vm_compute; reflexivity.
  - eexists _, _, _. split_and!; try (vm_compute; reflexivity). discriminate.
Defined.

(** C1 at offset 1 of the session over "ab" after the key 'a'. *)
Lemma get_rich_line_no_correct_witness :
  reachable [ab] after_a ∧ 0 ≤ 1 < n_characters after_a ∧
  ∃ (starts : list Z) (line_idx column s : Z),
    rich_lines_start_idxs after_a = Some starts ∧
    get_rich_line_no 1 after_a = Ok (line_idx, column) after_a ∧
    (0 ≤ line_idx)%Z ∧ starts !! Z.to_nat line_idx = Some s ∧
    (s + column = 1)%Z ∧ (s ≤ 1)%Z ∧
    (∀ (j : nat) (s' : Z), starts !! j = Some s' → (s' ≤ 1)%Z →
       (s' ≤ s)%Z ∧ (Z.of_nat j ≤ line_idx)%Z).
Proof.
  assert (H2 : 0 ≤ 1 < n_characters after_a) by (split; [lia|vm_compute; reflexivity]).
  split; [exact after_a_reachable|]. split; [exact H2|].
  exact (get_rich_line_no_correct [ab] after_a 1 after_a_reachable H2).
Defined.

(** C2 at the invalid tab of the session over "a b": the cursor is on the
    space at offset 1, which follows 'a'. *)
Lemma invalid_tab_records_wrong_witness :
  ∃ (acts : list (list Action)) (x : list Action) (back : gmap Z Z),
    actions after_a_in_a_b = Some acts ∧ acts !! Z.to_nat 1 = Some x ∧
    back_idxs after_a_in_a_b = Some back ∧
    ∃ st',
    type_character "tab" 2 after_a_in_a_b = Ok tt st' ∧
    actions st' = Some (<[Z.to_nat 1 := (x ++ [mkAction "tab" STATUS_WRONG 2])%list]> acts) ∧
    curr_idx st' =
      Some (Z.min (n_characters after_a_in_a_b - 1) (tab_target after_a_in_a_b 1)) ∧
    back_idxs st' = Some (<[tab_target after_a_in_a_b 1 := 1]> back) ∧
    (Py.isspace_char space = false ∨ 1 = n_characters after_a_in_a_b - 1 →
     curr_idx st' = Some 1) ∧
    (Py.isspace_char space = true → 1 < n_characters after_a_in_a_b - 1 →
     ∃ cur', curr_idx st' = Some cur' ∧ 1 < cur').
Proof.
  apply (invalid_tab_records_wrong after_a_in_a_b 1 2 space after_a_in_a_b_consistent).
  - vm_compute. reflexivity.
  - split; [lia|vm_compute; reflexivity].
  - vm_compute. reflexivity.
  - right. split; [lia|]. exists "a"%char. split; [vm_compute; reflexivity|discriminate].
Defined.

(** C4 at offset 1 of the session over "ab" after the key 'a'. *)
Lemma backspace_returns_to_back_reference_witness :
  back_reference after_a 1 = Some 0 ∧
  ∃ (acts : list (list Action)) (x : list Action),
    actions after_a = Some acts ∧ acts !! Z.to_nat 1 = Some x ∧
    ∃ st',
    type_character "backspace" 2 after_a = Ok tt st' ∧
    actions st' =
      Some (<[Z.to_nat 1 := (x ++ [mkAction "backspace" STATUS_BACKSPACE 2])%list]> acts) ∧
    (1 = 0 → curr_idx st' = Some 0) ∧
    (1 ≠ 0 → curr_idx st' = back_reference after_a 1) ∧
    back_idxs st' = back_idxs after_a.
Proof.
  split; [vm_compute; reflexivity|].
  apply (backspace_returns_to_back_reference after_a 1 2 after_a_consistent).
  - vm_compute. reflexivity.
  - split; [lia|vm_compute; reflexivity].
  - intros _. vm_compute. by eexists.
Defined.

(** C5 in the session over "ab" after 'a' and a wrong 'x'. *)
Lemma compute_accuracy_spec_witness :
  let st := run [Key "a" 1; Key "x" 2] (Demo.mounted ["ab"]) in
  let acts := [[mkAction "a" STATUS_CORRECT 1]; [mkAction "x" STATUS_WRONG 2]; []] in
  actions st = Some acts ∧
  compute_accuracy st = Ok (Spec.accuracy acts) st ∧
  (Spec.accuracy acts == 1 # 2)%Q.
Proof.
  intros st acts.
  assert (H : actions st = Some acts) by (vm_compute; reflexivity).
  split; [exact H|]. split; [exact (compute_accuracy_spec st acts H)|].
  vm_compute. reflexivity.
Defined.

(** C6 with the collaborators of [Demo] and an 80 by 24 viewport. *)
Lemma two_correct_keys_then_newline_witness :
  ∃ st0 st2 : TypedText Demo.style,
    update_dimensions 80 24 (init [list_ascii_of_string "ab"]) = Ok tt st0 ∧
    (∃ st1, process_character "a" 1 st0 = Ok tt st1 ∧
            process_character "b" 2 st1 = Ok tt st2) ∧
    actions st2 = Some [[mkAction "a" STATUS_CORRECT 1];
                        [mkAction "b" STATUS_CORRECT 2]; []] ∧
    (∃ q, compute_accuracy st2 = Ok q st2 ∧ (q == 1)%Q) ∧
    n_wrong_characters st2 = Ok 0 st2 ∧
    curr_idx st2 = Some 2 ∧ n_characters st2 = 3 ∧
    check_finished st2 = Ok false st2 ∧ end_ts st2 = None ∧
    ∀ now3, ∃ st3,
      process_character "enter" now3 st2 = Raise ZeroDivisionError st3 ∧
      end_ts st3 = Some now3 ∧ check_finished st3 = Ok true st3.
Proof.
  apply (two_correct_keys_then_newline 80 24
           (mkText (list_ascii_of_string "ab") (Some Demo.Token) [])
           (mkText (list_ascii_of_string "ab") (Some Demo.Token) []) 1 2).
  - vm_compute. reflexivity.
  - vm_compute. reflexivity.
  - reflexivity.
  - intros s. by eexists.
Defined.

(** C7 in the session over "ab" after the key 'a'. *)
Lemma cursor_range_witness :
  [ab] ≠ [] ∧ reachable [ab] after_a ∧
  ∃ (cur : Z) (starts : list Z),
    curr_idx after_a = Some cur ∧ rich_lines_start_idxs after_a = Some starts ∧
    (0 ≤ cur)%Z ∧
    (end_ts after_a = None → (cur < n_characters after_a)%Z) ∧
    ((∀ s : Z, s ∈ starts → (s ≤ n_characters after_a)%Z) →
     (cur ≤ n_characters after_a)%Z).
Proof.
  assert (H1 : [ab] ≠ []) by discriminate.
  split; [exact H1|]. split; [exact after_a_reachable|].
  exact (cursor_range [ab] after_a H1 after_a_reachable).
Defined.

(** C8 in the epoch of the session over "ab" in which 'a' is typed and
    taken back. *)
Lemma back_idxs_defined_iff_moved_witness :
  let st0 := Demo.mounted ["ab"] in
  let evs := [Key "a" 1; Key "backspace" 2] in
  epoch_start [ab] st0 ∧
  ∃ back, back_idxs (run evs st0) = Some back ∧
    ∀ o, is_Some (back !! o) ↔ moved_forward_to o (trace evs st0).
Proof.
  intros st0 evs.
  assert (H1 : epoch_start [ab] st0).
  { exists 80, 24, (init [ab]). split; [by left|]. vm_compute. reflexivity. }
  split; [exact H1|].
  apply (back_idxs_defined_iff_moved [ab] st0 evs H1).
  cbn [trace evs]. repeat (apply Forall_cons; split; [vm_compute; reflexivity|]).
  apply Forall_nil. done.
Defined.

End Concrete.

(** * More concrete sessions *)

Section MoreInstances.

Abbreviation str := list_ascii_of_string.

(** The session over "ab": after 'a' and 'b', and after the closing line
    break. *)
Definition after_ab : TypedText Demo.style :=
  run [Key "a" 1; Key "b" 2] (Demo.mounted ["ab"%string]).
Definition finished : TypedText Demo.style :=
  run [Key "a" 1; Key "b" 2; Key "enter" 3] (Demo.mounted ["ab"%string]).

(** The session over the single line " " after a tab, the session over the
    indented line "  a", and the session over the lines "a" and "b" after
    'a'. *)
Definition after_tab : TypedText Demo.style :=
  run [Key "tab" 1] (Demo.mounted [" "%string]).
Definition indented : TypedText Demo.style := Demo.mounted ["  a"%string].

Ltac demo_consistent :=
  split;
  [ vm_compute; by eexists | vm_compute; by eexists | vm_compute; by eexists
  | vm_compute; by eexists
  | eexists; split; vm_compute; reflexivity
  | eexists _, _, _; split_and!; try (vm_compute; reflexivity); discriminate ].

Lemma mounted_ab_consistent : consistent (Demo.mounted ["ab"%string]).
Proof. demo_consistent. Defined.


Lemma after_tab_consistent : consistent after_tab.
Proof. demo_consistent. Defined.

Lemma indented_consistent : consistent indented.
Proof. demo_consistent. Defined.


Lemma keystroke_outside_text_witness :
  curr_idx finished = Some 3 ∧ n_characters finished = 3 ∧
  type_character "x" 9 finished = Raise IndexError finished ∧
  (process_character "x" 9 finished = Raise IndexError finished ∨
   process_character "x" 9 finished = Ok tt finished).
Proof.
  assert (Hc : curr_idx finished = Some 3) by (vm_compute; reflexivity).
  assert (Hn : n_characters finished = 3) by (vm_compute; reflexivity).
  split; [exact Hc|]. split; [exact Hn|].
  apply (keystroke_outside_text "x" "x" 9 finished 3 Hc). rewrite Hn. lia.
Defined.

Lemma backspace_without_back_reference_witness :
  ∃ st', type_character "backspace" 2 after_tab = Raise KeyError st' ∧
         curr_idx st' = Some 1.
Proof.
  destruct (backspace_without_back_reference after_tab 1 2 after_tab_consistent)
    as (acts & x & st' & _ & _ & Hr & _ & Hc & _).
  - vm_compute. reflexivity.
  - split; [lia|vm_compute; reflexivity].
  - vm_compute. reflexivity.
  - exists st'. split; [exact Hr|exact Hc].
Defined.

Lemma valid_tab_skips_indentation_witness :
  ∃ st', type_character "tab" 1 indented = Ok tt st' ∧ curr_idx st' = Some 2.
Proof.
  destruct (valid_tab_skips_indentation indented 0 1 indented_consistent)
    as (acts & x & back & st' & _ & _ & _ & Hr & _ & Hc & _).
  - vm_compute. reflexivity.
  - split; [lia|vm_compute; reflexivity].
  - vm_compute. reflexivity.
  - by left.
  - exists st'. split; [exact Hr|]. rewrite Hc. vm_compute. reflexivity.
Defined.



Lemma wrong_key_advances_witness :
  ∃ st', type_character "x" 1 (Demo.mounted ["ab"%string]) = Ok tt st' ∧
         curr_idx st' = Some 1 ∧
         (actions st' ≫= λ acts, Py.get acts 0) = Some [mkAction "x" STATUS_WRONG 1].
Proof.
  destruct (wrong_key_advances (Demo.mounted ["ab"%string]) 0 1 "x" "a"%char
              (str "ab "%string ++ [newline]) mounted_ab_consistent)
    as (acts & x & back & st' & Ha & Hx & _ & _ & Ha' & Hc & _ & Hok & _).
  - vm_compute. reflexivity.
  - split; [lia|vm_compute; reflexivity].
  - vm_compute. reflexivity.
  - discriminate.
  - discriminate.
  - discriminate.
  - vm_compute. reflexivity.
  - discriminate.
  - exists st'. split; [apply Hok; vm_compute; reflexivity|]. split; [exact Hc|].
    rewrite Ha'. vm_compute in Ha. injection Ha as <-.
    vm_compute in Hx. injection Hx as <-. reflexivity.
Defined.



Lemma backspace_undoes_forward_move_witness :
  ∃ st2, type_character "backspace" 2 after_a = Ok tt st2 ∧ curr_idx st2 = Some 0.
Proof.
  apply (backspace_undoes_forward_move (Demo.mounted ["ab"%string]) after_a 0 1 "a" 1 2
           mounted_ab_consistent).
  - vm_compute. reflexivity.
  - discriminate.
  - discriminate.
  - vm_compute. reflexivity.
  - vm_compute. reflexivity.
  - lia.
Defined.

Lemma start_ts_never_restarts_witness :
  start_ts after_a = Some 1 ∧
  start_ts (run [Key "b" 2; Key "backspace" 5; Frame] after_a) = Some 1.
Proof.
  assert (H : start_ts after_a = Some 1) by (vm_compute; reflexivity).
  split; [exact H|].
  exact (start_ts_never_restarts [Key "b" 2; Key "backspace" 5; Frame] after_a 1 H).
Defined.

Lemma end_ts_changes_only_on_completion_witness :
  ∃ key now cur',
    Key "enter" 3 = Key key now ∧ end_ts (step (Key "enter" 3) after_ab) = Some now ∧
    process_character key now after_ab
      = Raise ZeroDivisionError (step (Key "enter" 3) after_ab) ∧
    curr_idx (step (Key "enter" 3) after_ab) = Some cur' ∧
    n_characters after_ab ≤ cur'.
Proof.
  apply (end_ts_changes_only_on_completion (Key "enter" 3) after_ab).
  vm_compute. discriminate.
Defined.

Lemma keystroke_counts_once_witness :
  let st' := state_of (type_character "b" 2 after_a) in
  n_actions st' = Ok (1 + 1) st' ∧
  n_backspace_actions st' = Ok (0 + if bool_decide ("b" = "backspace")%string then 1 else 0) st'.
Proof.
  apply (keystroke_counts_once after_a 1 2 "b" 1 0 after_a_consistent).
  - vm_compute. reflexivity.
  - split; [lia|vm_compute; reflexivity].
  - vm_compute. reflexivity.
  - vm_compute. reflexivity.
Defined.

Lemma characters_partition_witness :
  ∃ c w b u,
    n_correct_characters after_a = Ok c after_a ∧
    n_wrong_characters after_a = Ok w after_a ∧
    n_backspace_characters after_a = Ok b after_a ∧
    n_untouched_characters after_a = Ok u after_a ∧
    c + w + b + u = Py.len [[mkAction "a" STATUS_CORRECT 1]; []; []] ∧
    0 ≤ c ∧ 0 ≤ w ∧ 0 ≤ b ∧ 0 ≤ u.
Proof.
  apply (characters_partition after_a). vm_compute. reflexivity.
Defined.

Lemma accuracy_between_0_and_1_witness :
  ∃ q, compute_accuracy after_a = Ok q after_a ∧ (0 <= q)%Q ∧ (q <= 1)%Q.
Proof.
  apply (accuracy_between_0_and_1 after_a [[mkAction "a" STATUS_CORRECT 1]; []; []]).
  vm_compute. reflexivity.
Defined.

Lemma compute_cpm_never_divides_by_zero_witness :
  ∃ q, compute_cpm 7 (Demo.mounted ["ab"%string]) = Ok q (Demo.mounted ["ab"%string]) ∧
       q = 0%Q.
Proof.
  destruct (compute_cpm_never_divides_by_zero 7 (Demo.mounted ["ab"%string]) [[]; []; []])
    as (q & Hq & H0 & _).
  - vm_compute. reflexivity.
  - exists q. split; [exact Hq|]. apply H0. vm_compute. reflexivity.
Defined.

Lemma unroll_actions_sorted_witness :
  ∃ res, unroll_actions after_ab = Ok res after_ab ∧ StronglySorted ts_le res ∧
         n_actions after_ab = Ok (Py.len res) after_ab.
Proof.
  destruct (unroll_actions_sorted after_ab
              [[mkAction "a" STATUS_CORRECT 1]; [mkAction "b" STATUS_CORRECT 2]; []])
    as (res & Hr & _ & Hs & _ & Hn).
  - vm_compute. reflexivity.
  - exists res. split; [exact Hr|]. split; [exact Hs|exact Hn].
Defined.

Lemma unroll_actions_after_keystroke_witness :
  let st' := state_of (type_character "b" 2 after_a) in
  ∃ a, unroll_actions st' = Ok ([(0, mkAction "a" STATUS_CORRECT 1)] ++ [(1, a)]) st' ∧
       pressed_key a = "b"%string ∧ ts a = 2.
Proof.
  apply (unroll_actions_after_keystroke after_a 1 2 "b"
           [(0, mkAction "a" STATUS_CORRECT 1)] after_a_consistent).
  - vm_compute. reflexivity.
  - split; [lia|vm_compute; reflexivity].
  - vm_compute. reflexivity.
  - repeat constructor.
Defined.

Lemma after_ab_reachable : reachable [str "ab"%string] after_ab.
Proof.
  apply run_reachable. eapply (mounted_reachable ["ab"%string]). vm_compute. reflexivity.
Defined.

Lemma start_offsets_sorted_witness :
  ∃ starts,
    rich_lines_start_idxs after_ab = Some starts ∧ ascending starts ∧
    (∀ s, s ∈ lines_start_idxs after_ab → s ∈ starts) ∧
    ([str "ab"%string] ≠ [] → starts !! 0%nat = Some 0).
Proof. exact (start_offsets_sorted [str "ab"%string] after_ab after_ab_reachable). Defined.

Lemma reachable_consistent_witness : consistent after_ab.
Proof.
  apply (reachable_consistent [str "ab"%string] after_ab).
  - discriminate.
  - vm_compute. reflexivity.
  - intros t w. discriminate.
  - exact after_ab_reachable.
Defined.

Lemma finished_session_has_end_ts_witness :
  ∃ cur e, curr_idx finished = Some cur ∧ n_characters finished ≤ cur ∧
           end_ts finished = Some e.
Proof.
  apply (finished_session_has_end_ts [str "ab"%string] finished).
  - discriminate.
  - apply run_reachable. eapply (mounted_reachable ["ab"%string]). vm_compute. reflexivity.
  - vm_compute. reflexivity.
Defined.

Lemma get_rich_line_no_before_first_start_witness :
  get_rich_line_no (-1) after_ab = Ok (-1, -1 - 0) after_ab.
Proof.
  apply (get_rich_line_no_before_first_start after_ab [0] (-1) 0 0).
  - vm_compute. reflexivity.
  - intros [|i] [|j] x y Hij Hx Hy; simpl in *; simplify_eq; lia.
  - reflexivity.
  - reflexivity.
  - lia.
Defined.

Lemma rich_text_window_witness :
  let st := Demo.mounted ["ab"%string] in
  ∃ rl1 shown,
    rich_lines (state_of (rich_text st)) = Some rl1 ∧
    plain (match rich_text st with Ok f _ => f | Raise _ _ => Rich.empty end)
      = concat (map plain shown) ∧
    (Py.len rl1 ≤ 24 → shown = rl1) ∧
    (24 < Py.len rl1 →
     shown = Py.slice rl1 (Z.max 0 (0 - 5)) (0 + 24 - 5) ∧
     (5 ≤ 24 → Py.len shown ≤ 24) ∧
     (5 < 24 → is_Some (rl1 !! Z.to_nat 0) ∧
               shown !! Z.to_nat (Z.min 0 5) = rl1 !! Z.to_nat 0)).
Proof.
  intros st.
  apply (rich_text_window st _ _ 24 0 0 0 mounted_ab_consistent).
  - vm_compute. reflexivity.
  - vm_compute. reflexivity.
  - vm_compute. reflexivity.
  - lia.
  - vm_compute. reflexivity.
Defined.

(** Tokens of a two-line source with a comment and trailing blanks. *)
Definition sample_tokens : list (bool * list ascii) :=
  [(false, str "x = 1"%string); (true, str "# one"%string); (false, [newline]);
   (false, str "  y  "%string); (false, [newline]); (false, [newline])].

Lemma clean_text_lines_witness :
  Utils.clean_text sample_tokens = [str "x = 1"%string; str "  y"%string] ∧
  str "  y"%string ≠ [] ∧ Py.rstrip (str "  y"%string) = str "  y"%string ∧
  (∃ c, last (str "  y"%string) = Some c ∧ Py.isspace_char c = false) ∧
  Forall (λ c, Utils.is_line_boundary c = false) (str "  y"%string).
Proof.
  assert (H : Utils.clean_text sample_tokens = [str "x = 1"%string; str "  y"%string])
    by (vm_compute; reflexivity).
  split; [exact H|].
  apply (clean_text_lines sample_tokens (str "  y"%string)).
  rewrite H. apply elem_of_cons. right. apply elem_of_cons. by left.
Defined.

Lemma cleaned_text_has_no_blank_line_witness :
  let txt := text (init (Style:=Demo.style) (Utils.clean_text sample_tokens)) in
  ∃ c, (0 < 5)%nat ∧ txt !! pred 5 = Some c ∧ Py.isspace_char c = false.
Proof.
  apply (cleaned_text_has_no_blank_line (Style:=Demo.style) sample_tokens 5).
  vm_compute. reflexivity.
Defined.

(** A cache with no entry and a network that answers 204 with a text that
    holds a carriage return. *)
Definition sample_get (url : string) : Utils.Response :=
  Utils.mkResponse 204 (str "a"%string ++ [Utils.carriage_return; newline] ++ str "b"%string).

Lemma read_from_url_second_call_witness :
  let first := Utils.read_from_url id id sample_get "u" ∅ in
  Utils.read_from_url id id (λ _, Utils.mkResponse 500 []) "u" (snd first)
  = (Utils.Fetched (str "a"%string ++ [newline] ++ str "b"%string, "u"%string), snd first).
Proof.
  intros first.
  destruct (read_from_url_second_call id id sample_get (λ _, Utils.mkResponse 500 []) "u" ∅
              (str "a"%string ++ [Utils.carriage_return; newline] ++ str "b"%string)
              "u"%string (snd first)) as (H & _).
  - vm_compute. reflexivity.
  - rewrite H. reflexivity.
Defined.

Lemma read_from_url_miss_witness :
  Utils.read_from_url id id (λ _, Utils.mkResponse 404 []) "u" ∅ = (Utils.HTTPError, ∅) ∧
  Utils.read_from_url id id sample_get "u" ∅
  = (Utils.Fetched (Utils.response_text (sample_get "u"), "u"%string),
     <["u"%string := Utils.response_text (sample_get "u")]> ∅).
Proof.
  split.
  - apply (read_from_url_miss id id (λ _, Utils.mkResponse 404 []) "u" ∅); [done|].
    simpl. lia.
  - apply (read_from_url_miss id id sample_get "u" ∅); [done|]. simpl. lia.
Defined.

End MoreInstances.
